(** * Lattice Green function: assembly (calc_LGF.py) and coupled relaxation
      (relaxation_wlammps.py)

    A shallow embedding of the two scripts.  Python floats are idealised as
    real numbers ([R]); numpy arrays of shape (n,3) are lists of triples,
    one-dimensional arrays are lists, two-dimensional matrices carry their
    shape and an entry function.  Python exceptions are values of [exn] and
    every fallible operation returns a [result].  The external collaborators
    (LAMMPS, [elastic.G_largeR], [numpy.arctan2], [scipy.sparse.linalg.cg])
    are section variables. *)

From Stdlib Require Import String Ascii.
From Stdlib Require Import Reals Lra Lia ZArith Bool Arith List.
Import ListNotations.
Open Scope R_scope.

(** ** Exceptions and the error monad *)

Inductive exn : Type :=
| ValueError (msg : string)
| IndexError (msg : string)
| KeyError (key : string).

Inductive result (A : Type) : Type :=
| Ok (a : A)
| Raise (e : exn).
Arguments Ok {A} a.
Arguments Raise {A} e.

Definition bind {A B : Type} (c : result A) (k : A -> result B) : result B :=
  match c with
  | Ok a => k a
  | Raise e => Raise e
  end.

Notation "x <- c ;; k" := (bind c (fun x => k))
  (at level 61, c at next level, right associativity).

Definition is_ok {A : Type} (c : result A) : bool :=
  match c with Ok _ => true | Raise _ => false end.

(** ** numpy arrays *)

Module Np.

(** A row of an (n,3) array. *)
Definition vec3 : Type := (R * R * R)%type.

Definition zero3 : vec3 := (0, 0, 0).

Definition vadd (u v : vec3) : vec3 :=
  let '(a, b, c) := u in let '(x, y, z) := v in (a + x, b + y, c + z).

Definition vsub (u v : vec3) : vec3 :=
  let '(a, b, c) := u in let '(x, y, z) := v in (a - x, b - y, c - z).

Definition vscale (s : R) (u : vec3) : vec3 :=
  let '(a, b, c) := u in (s * a, s * b, s * c).

(** [sum(u**2)] for a row [u]. *)
Definition sumsq (u : vec3) : R :=
  let '(a, b, c) := u in a ^ 2 + b ^ 2 + c ^ 2.

Definition norm3 (u : vec3) : R := sqrt (sumsq u).

(** [np.zeros((n,3))] and [np.zeros((n,))]. *)
Definition zeros3 (n : nat) : list vec3 := repeat zero3 n.
Definition zeros (n : nat) : list R := repeat 0 n.

(** [a[lo:hi]] for non-negative bounds: out-of-range bounds are clipped. *)
Definition slice {A : Type} (a : list A) (lo hi : nat) : list A :=
  firstn (hi - lo) (skipn lo a).

(** Flattening an (n,3) array in row-major order. *)
Definition ravel (a : list vec3) : list R :=
  flat_map (fun u : vec3 => let '(x, y, z) := u in [x; y; z]) a.

Fixpoint rows3 (l : list R) : list vec3 :=
  match l with
  | x :: y :: z :: l' => (x, y, z) :: rows3 l'
  | _ => []
  end.

(** [np.reshape(l, (n,3))]: the number of elements must be [3*n]. *)
Definition reshape_n3 (n : nat) (l : list R) : result (list vec3) :=
  if (length l =? 3 * n)%nat then Ok (rows3 l)
  else Raise (ValueError "cannot reshape array").

(** [np.reshape(l, (n,))] and [np.reshape(l, (n,1))]: a length check. *)
Definition reshape_n (n : nat) (l : list R) : result (list R) :=
  if (length l =? n)%nat then Ok l
  else Raise (ValueError "cannot reshape array").

(** A two-dimensional array (dense or sparse): its shape and its entries. *)
Record matrix : Type := Matrix {
  nrows : nat;
  ncols : nat;
  entry : nat -> nat -> R
}.

(** Dot product of row [i] of [M] with the vector [v]. *)
Definition row_dot (M : matrix) (i : nat) (v : list R) : R :=
  fold_left Rplus
    (map (fun k : nat => entry M i k * nth k v 0) (seq 0 (ncols M))) 0.

(** [np.dot(M, v)] / [M.dot(v)]: the inner dimensions must agree. *)
Definition dot (M : matrix) (v : list R) : result (list R) :=
  if (ncols M =? length v)%nat
  then Ok (map (fun i : nat => row_dot M i v) (seq 0 (nrows M)))
  else Raise (ValueError "shapes not aligned").

(** [M[r:, :]]. *)
Definition rows_from (M : matrix) (r : nat) : matrix :=
  Matrix (nrows M - r) (ncols M) (fun i k => entry M (i + r) k).

(** [M[0:r, 0:c]]. *)
Definition top_left (M : matrix) (r c : nat) : matrix :=
  Matrix (Nat.min r (nrows M)) (Nat.min c (ncols M)) (entry M).

(** In-place [a op= b] on arrays whose target shape is that of [a]: [b] must
    have as many rows as [a], or a single row that is broadcast. *)
Definition inplace {A : Type} (op : A -> A -> A) (a b : list A)
  : result (list A) :=
  if (length b =? length a)%nat
  then Ok (map (fun p : A * A => op (fst p) (snd p)) (combine a b))
  else match b with
       | [b0] => Ok (map (fun x : A => op x b0) a)
       | _ => Raise (ValueError "operands could not be broadcast together")
       end.

Definition iadd3 : list vec3 -> list vec3 -> result (list vec3) := inplace vadd.
Definition isub3 : list vec3 -> list vec3 -> result (list vec3) := inplace vsub.
Definition iadd1 : list R -> list R -> result (list R) := inplace Rplus.

(** Python's builtin [max] over a sequence: raises on an empty sequence. *)
Definition py_max (l : list R) : result R :=
  match l with
  | [] => Raise (ValueError "max() arg is an empty sequence")
  | x :: l' => Ok (fold_left Rmax l' x)
  end.

Fixpoint argmax_from (best_i : nat) (best : R) (i : nat) (l : list R) : nat :=
  match l with
  | [] => best_i
  | x :: l' =>
      if Rlt_dec best x then argmax_from i x (S i) l'
      else argmax_from best_i best (S i) l'
  end.

(** [a.argmax()]: index of the first maximal entry; raises on an empty array. *)
Definition argmax (l : list R) : result nat :=
  match l with
  | [] => Raise (ValueError "attempt to get argmax of an empty sequence")
  | x :: l' => Ok (argmax_from 0%nat x 1%nat l')
  end.

(** [np.linalg.norm] of a flat array. *)
Definition norm2 (l : list R) : R :=
  sqrt (fold_left Rplus (map (fun x : R => x ^ 2) l) 0).

End Np.
Import Np.

(** ** relaxation_wlammps.py: one LGF update (lines 177-201) *)

Definition is_full_method (method : string) : bool :=
  (method =? "dislLGF123")%string || (method =? "perfbulkLGF123")%string.

Definition is_partial_method (method : string) : bool :=
  (method =? "dislLGF23")%string || (method =? "perfbulkLGF23")%string.

(** [forces_2 = np.reshape(forces[size_1:size_12],(3*(size_12-size_1),1))].
    When [size_12 < size_1] the slice is empty and the first dimension is
    negative: numpy then infers it from the size, and the result is the
    empty column. *)
Definition coupling_forces (size_1 size_12 : nat) (forces : list vec3)
  : result (list R) :=
  if (size_12 <? size_1)%nat
  then Ok (ravel (slice forces size_1 size_12))
  else reshape_n (3 * (size_12 - size_1)) (ravel (slice forces size_1 size_12)).

(** [disp = np.reshape(np.dot(G,forces_2),(size_123,3))]. *)
Definition full_disp (size_123 : nat) (G : matrix) (forces_2 : list R)
  : result (list vec3) :=
  Gf <- dot G forces_2 ;;
  reshape_n3 size_123 Gf.

(** [dispmax = np.sqrt(max(sum(u**2) for u in disp))]. *)
Definition disp_max (disp : list vec3) : result R :=
  m <- py_max (map sumsq disp) ;;
  Ok (sqrt m).

Definition disp_scale (dispmax maxdisp : R) : R :=
  if Rlt_dec dispmax maxdisp then 1 else maxdisp / dispmax.

(** [np.reshape(-np.dot(G[3*size_1:,:],forces_2),(size_123-size_1,3))].
    When [size_123 < size_1] the first dimension is negative: numpy then
    infers it, which needs a size that is a multiple of 3. *)
Definition partial_neg_disp (size_1 size_123 : nat) (G : matrix)
  (forces_2 : list R) : result (list vec3) :=
  Gf <- dot (rows_from G (3 * size_1)) forces_2 ;;
  if (size_123 <? size_1)%nat
  then if (length Gf mod 3 =? 0)%nat then Ok (rows3 (map Ropp Gf))
       else Raise (ValueError "cannot reshape array")
  else reshape_n3 (size_123 - size_1) (map Ropp Gf).

(** The LGF update of [relaxation_cycle], applied to the [grid] and [forces]
    that the core relaxation returned. *)
Definition lgf_update (size_1 size_12 size_123 : nat) (G : matrix)
  (method : string) (maxdisp : R) (grid forces : list vec3)
  : result (list vec3) :=
  forces_2 <- coupling_forces size_1 size_12 forces ;;
  if is_full_method method then
    disp <- full_disp size_123 G forces_2 ;;
    dispmax <- disp_max disp ;;
    let scale := disp_scale dispmax maxdisp in
    iadd3 grid (map (vscale scale) disp)
  else if is_partial_method method then
    nd <- partial_neg_disp size_1 size_123 G forces_2 ;;
    tl <- isub3 (skipn size_1 grid) nd ;;
    Ok (firstn size_1 grid ++ tl)
  else Raise (ValueError "invalid method!").

(** ** relaxation_wlammps.py: the external engine and the outer loop *)

(** The [atom] namedtuple: index, region, m, n, t coordinates, basis type. *)
Record atom : Type := Atom {
  ind : Z;
  reg : Z;
  m : R;
  n : R;
  t : R;
  basis : Z
}.

Record lammps_settings : Type := LammpsSettings {
  datafilename : string;
  pair_style : string;
  pair_coeff : string;
  maxcgiter : Z;
  ftol : R
}.

(** [force_max = abs(forces_12.flat[abs(forces_12).argmax()])]. *)
Definition force_max_of (forces_12 : list R) : result R :=
  i <- argmax (map Rabs forces_12) ;;
  Ok (Rabs (nth i forces_12 0)).

(** [np.reshape(forces[:size_12],(3*size_12,1))]. *)
Definition forces_12_of (size_12 : nat) (forces : list vec3) : result (list R) :=
  reshape_n (3 * size_12) (ravel (slice forces 0 size_12)).

(** Which exit the outer loop took: the [break] of line 350, the [break] of
    line 353, or exhaustion of [range(args.maxouteriter)]. *)
Inductive loop_exit : Type :=
| CONVERGED
| DIVERGED
| MAX_ITER_REACHED.

Section Relaxation.

(** The LAMMPS library is external.  A run reads the settings and the data
    file that was last written and yields the per-atom table of the
    [output] compute, addressed as [output[i][c]]. *)
Variable lammps : Type.
Variable lmp_minimize_run0 :
  lammps_settings -> bool -> list atom -> lammps -> (nat -> nat -> R) * lammps.
Variable lmp_run0 :
  lammps_settings -> bool -> list atom -> lammps -> (nat -> nat -> R) * lammps.

(** The module-level [size_123] read by the two LAMMPS wrappers. *)
Variable size_123_global : nat.

(** What the script can observe of the outside: the engine, how many times it
    was started, the LAMMPS data file and [forces.npy]. *)
Record world : Type := World {
  engine : lammps;
  engine_calls : nat;
  datafile : list atom;
  forces_npy : option (list R)
}.

Definition lammps_minimize_getforces (ls : lammps_settings) (antiplane : bool)
  (w : world) : (list vec3 * list vec3) * world :=
  let '(output, e) := lmp_minimize_run0 ls antiplane (datafile w) (engine w) in
  let grid := map (fun i : nat => (output i 2%nat, output i 3%nat, output i 4%nat))
                  (seq 0 size_123_global) in
  let forces := map (fun i : nat => (output i 5%nat, output i 6%nat, output i 7%nat))
                    (seq 0 size_123_global) in
  ((grid, forces),
   World e (S (engine_calls w)) (datafile w) (forces_npy w)).

Definition lammps_getforces (ls : lammps_settings) (antiplane : bool)
  (w : world) : list vec3 * world :=
  let '(output, e) := lmp_run0 ls antiplane (datafile w) (engine w) in
  let forces := map (fun i : nat => (output i 2%nat, output i 3%nat, output i 4%nat))
                    (seq 0 size_123_global) in
  (forces, World e (S (engine_calls w)) (datafile w) (forces_npy w)).

(** [relaxation_cycle]: one core relaxation followed by one LGF update. *)
Definition relaxation_cycle (ls : lammps_settings)
  (size_1 size_12 size_123 : nat) (G : matrix) (method : string)
  (maxdisp : R) (antiplane : bool) (w : world) : result (list vec3 * world) :=
  let '((grid, forces), w1) := lammps_minimize_getforces ls antiplane w in
  grid' <- lgf_update size_1 size_12 size_123 G method maxdisp grid forces ;;
  Ok (grid', w1).

(** The variables of the outer loop. *)
Record loop_state : Type := LoopState {
  forces_12 : list R;
  force_evolution : list R;
  outside : world
}.

(** [grid_new]: the atoms of [grid] with the coordinates of [grid_mat]. *)
Definition grid_new_of (grid : list atom) (grid_mat : list vec3) : list atom :=
  map (fun p : atom * vec3 =>
         let '(a, (x, y, z)) := p in Atom (ind a) (reg a) x y z 0%Z)
      (combine grid grid_mat).

Definition write_datafile (content : list atom) (w : world) : world :=
  World (engine w) (engine_calls w) content (forces_npy w).

(** [np.save('forces.npy',force_evolution)]. *)
Definition save_forces (st : loop_state) : loop_state :=
  LoopState (forces_12 st) (force_evolution st)
    (World (engine (outside st)) (engine_calls (outside st))
           (datafile (outside st)) (Some (force_evolution st))).

Section Loop.

Variable ls : lammps_settings.
Variables size_1 size_12 size_123 : nat.
Variable G_mnt : matrix.
Variable method : string.
Variable antiplane : bool.
Variable args_ftol : R.
Variable grid : list atom.

(** The [else] branch of the loop body (lines 354-366); [relaxation_cycle]
    is called without [maxdisp], so its default [1e2] applies. *)
Definition coupling_step (log : list R) (w : world) : result loop_state :=
  r <- relaxation_cycle ls size_1 size_12 size_123 G_mnt method 100 antiplane w ;;
  let '(grid_mat, w1) := r in
  let w2 := write_datafile (grid_new_of grid grid_mat) w1 in
  let '(forces_new, w3) := lammps_getforces ls antiplane w2 in
  f12 <- forces_12_of size_12 forces_new ;;
  Ok (LoopState f12 log w3).

(** One pass through the body of [for i in range(args.maxouteriter)]
    (lines 341-366): [Some e] when a [break] was taken. *)
Definition loop_body (st : loop_state) : result (option loop_exit * loop_state) :=
  let force_2norm := norm2 (forces_12 st) in
  force_max <- force_max_of (forces_12 st) ;;
  let log := force_evolution st ++ [force_max] in
  if Rlt_dec force_max args_ftol then
    Ok (Some CONVERGED, LoopState (forces_12 st) log (outside st))
  else if Rgt_dec force_2norm 100 then
    Ok (Some DIVERGED, LoopState (forces_12 st) log (outside st))
  else
    st' <- coupling_step log (outside st) ;;
    Ok (None, st').

(** The [for] loop with [k] iterations left. *)
Fixpoint relax_loop (k : nat) (st : loop_state) : result (loop_exit * loop_state) :=
  match k with
  | O => Ok (MAX_ITER_REACHED, st)
  | S k' =>
      r <- loop_body st ;;
      match r with
      | (Some e, st') => Ok (e, st')
      | (None, st') => relax_loop k' st'
      end
  end.

(** The state in which an interrupted run is left after [k] passes of the
    loop body, none of which took a [break]. *)
Fixpoint run_passes (k : nat) (st : loop_state) : result loop_state :=
  match k with
  | O => Ok st
  | S k' =>
      r <- loop_body st ;;
      match r with
      | (Some _, _) => Raise (ValueError "the loop has already ended")
      | (None, st') => run_passes k' st'
      end
  end.

(** Lines 334-368: initial forces, the loop, and the final [np.save]. *)
Definition relaxation_main (maxouteriter : nat) (w0 : world)
  : result (loop_exit * loop_state) :=
  let '(forces, w1) := lammps_getforces ls antiplane w0 in
  f12 <- forces_12_of size_12 forces ;;
  r <- relax_loop maxouteriter (LoopState f12 [] w1) ;;
  let '(e, st) := r in
  Ok (e, save_forces st).

End Loop.
End Relaxation.

(** ** relaxation_wlammps.py: loading the persisted LGF (lines 295-302) *)

(** The HDF5 file: its attributes and the dataset ['GF']. *)
Record h5file : Type := H5File {
  attrs : list (string * Z);
  GF : matrix
}.

Fixpoint attr_get (a : list (string * Z)) (key : string) : result Z :=
  match a with
  | [] => Raise (KeyError key)
  | (k, v) :: a' => if (k =? key)%string then Ok v else attr_get a' key
  end.

Definition size_mismatch (name : string) : exn :=
  ValueError ("LGF not consistent with setup? Has " ++ name).

Definition load_G (f : h5file) (size_1 size_12 size_123 : Z) : result matrix :=
  a1 <- attr_get (attrs f) "size_1" ;;
  if negb (a1 =? size_1)%Z then Raise (size_mismatch "size_1") else
  a12 <- attr_get (attrs f) "size_12" ;;
  if negb (a12 =? size_12)%Z then Raise (size_mismatch "size_12") else
  a123 <- attr_get (attrs f) "size_123" ;;
  if negb (a123 =? size_123)%Z then Raise (size_mismatch "size_123") else
  Ok (GF f).

(** The exceptions raised by the three consistency checks. *)
Definition is_config_error (e : exn) : bool :=
  match e with
  | ValueError _ => true
  | _ => false
  end.

(** ** calc_LGF.py: far-field boundary displacements and the assembly loop *)

(** A 3x3 tensor, by rows. *)
Definition mat3 : Type := (vec3 * vec3 * vec3)%type.

Definition dot3 (u v : vec3) : R :=
  let '(a, b, c) := u in let '(x, y, z) := v in a * x + b * y + c * z.

(** [np.dot(M, v)] for a 3x3 [M] and a 3-vector [v]. *)
Definition mat3_dot (M : mat3) (v : vec3) : vec3 :=
  let '(r0, r1, r2) := M in (dot3 r0 v, dot3 r1 v, dot3 r2 v).

(** Python's [x % y] on floats, for a positive [y]: [x - floor(x/y)*y]. *)
Definition py_mod (x y : R) : R := x - IZR (Int_part (x / y)) * y.

(** [l[i]] for a non-negative index. *)
Definition get_item {A : Type} (l : list A) (i : nat) : result A :=
  match nth_error l i with
  | Some x => Ok x
  | None => Raise (IndexError "index out of range")
  end.

Fixpoint replace_nth {A : Type} (l : list A) (i : nat) (v : A) : list A :=
  match l, i with
  | [], _ => []
  | _ :: l', O => v :: l'
  | x :: l', S i' => x :: replace_nth l' i' v
  end.

(** [l[i] = v] for a non-negative index. *)
Definition set_item {A : Type} (l : list A) (i : nat) (v : A) : result (list A) :=
  if (i <? length l)%nat then Ok (replace_nth l i v)
  else Raise (IndexError "index out of bounds").

Fixpoint mapM {A B : Type} (f : A -> result B) (l : list A) : result (list B) :=
  match l with
  | [] => Ok []
  | x :: l' => y <- f x ;; ys <- mapM f l' ;; Ok (y :: ys)
  end.

Fixpoint foldM {A S : Type} (f : S -> A -> result S) (l : list A) (s : S)
  : result S :=
  match l with
  | [] => Ok s
  | x :: l' => s' <- f s x ;; foldM f l' s'
  end.

(** The records written to the log inside the assembly loop. *)
Inductive log_record : Type :=
| Debug_solve (conv : Z)
| Info_atom (j d : nat).

(** The variables of the assembly loop that change: the matrix [G] as the
    list of its columns (the empty list before the first assignment), the
    log, and the contents of the output file. *)
Record asm_state : Type := AsmState {
  G : list (list R);
  log : list log_record;
  Gfile : option (list (list R))
}.

(** [np.column_stack((G,col))]: the column must be as long as those of [G]. *)
Definition column_stack (G : list (list R)) (col : list R)
  : result (list (list R)) :=
  if forallb (fun c : list R => (length c =? length col)%nat) G
  then Ok (G ++ [col])
  else Raise (ValueError "all the input array dimensions must match exactly").

Section Assembly.

(** The Fourier coefficients and the angular table are opaque values handed
    to [elastic.G_largeR], which is external, as are [np.arctan2] and the
    conjugate-gradient solver [sla.cg], which returns the solution and its
    convergence status. *)
Variables GEn_t phi_R_grid_t : Type.
Variable G_largeR :
  GEn_t -> phi_R_grid_t -> R -> R -> nat -> R -> R -> R -> mat3.
Variable arctan2 : R -> R -> R.
Variable cg : matrix -> list R -> R -> list R * Z.

(** The polar angle used for the table lookup (lines 47-51). *)
Definition normalize_phi (phi : R) : R :=
  if Rgt_dec (Rabs phi) (1 / 10 ^ 8) then py_mod phi (2 * PI) else 0.

(** The body of the loop of [setBC] for one far-field atom (lines 43-54):
    the new value of the row [u_ff]. *)
Definition setBC_row (i : nat) (grid : list atom) (GEn : GEn_t)
  (phi_R_grid : phi_R_grid_t) (N : nat) (a0 V t_mag : R) (f : list vec3)
  (atom_ff : atom) (u_ff : vec3) : result vec3 :=
  gi <- get_item grid i ;;
  let rvec := (m gi - m atom_ff, n gi - n atom_ff, t gi - t atom_ff) in
  let '(rvec0, rvec1, _) := rvec in
  let R := a0 * sqrt (rvec0 ^ 2 + rvec1 ^ 2) in
  let phi := normalize_phi (arctan2 rvec1 rvec0) in
  fi <- get_item f i ;;
  Ok (vsub u_ff (mat3_dot (G_largeR GEn phi_R_grid R phi N a0 V t_mag) fi)).

(** [setBC]: the rows of [u] from [size_in] on that are paired with an atom of
    [grid[size_in:]] are updated in place, the others stay zero. *)
Definition setBC (i : nat) (grid : list atom) (size_in size_all : nat)
  (GEn : GEn_t) (phi_R_grid : phi_R_grid_t) (N : nat) (a0 V t_mag : R)
  (f : list vec3) : result (list vec3) :=
  let u := zeros3 size_all in
  ff <- mapM (fun p : atom * vec3 =>
                setBC_row i grid GEn phi_R_grid N a0 V t_mag f (fst p) (snd p))
             (combine (skipn size_in grid) (skipn size_in u)) ;;
  Ok (firstn size_in u ++ ff ++ skipn (size_in + length ff) u).

(** The displacement [setBC] gives to the far-field atom [a] for a source
    atom [gi] carrying the force [fi]: minus the large-R Green function at
    (R, phi), applied to [fi]. *)
Definition far_field_row (GEn : GEn_t) (phi_R_grid : phi_R_grid_t) (N : nat)
  (a0 V t_mag : R) (gi : atom) (fi : vec3) (a : atom) : vec3 :=
  let dm := m gi - m a in
  let dn := n gi - n a in
  vscale (-1)
    (mat3_dot (G_largeR GEn phi_R_grid (a0 * sqrt (dm ^ 2 + dn ^ 2))
                 (normalize_phi (arctan2 dn dm)) N a0 V t_mag) fi).

Variable grid : list atom.
Variables size_123 size_in : nat.
Variable D : matrix.
Variable GEn : GEn_t.
Variable phi_R_grid : phi_R_grid_t.
Variables a0 V t_mag : R.

Definition size_all : nat := length grid.
Definition N : nat := 256.

(** Lines 145-148: the unit force on degree of freedom [3*j+d]. *)
Definition unit_force (j d : nat) : result (list R) :=
  set_item (zeros (3 * size_in)) (j * 3 + d) 1.

(** Lines 145-155: the force vector handed to the solver. *)
Definition corrected_force (j d : nat) : result (list R) :=
  f <- unit_force j d ;;
  f_rows <- reshape_n3 size_in f ;;
  u_bc <- setBC j grid size_in size_all GEn phi_R_grid N a0 V t_mag f_rows ;;
  u_flat <- reshape_n (3 * size_all) (ravel u_bc) ;;
  Du <- dot D u_flat ;;
  iadd1 f Du.

(** The body of the loop over [d] (lines 145-169). *)
Definition column_step (LGF_jmin j : nat) (st : asm_state) (d : nat)
  : result asm_state :=
  f <- corrected_force j d ;;
  let '(uf, conv) := cg (top_left D (3 * size_in) (3 * size_in)) f (1 / 10 ^ 8) in
  let log1 := log st ++ [Debug_solve conv] in
  G' <- (if (j =? LGF_jmin)%nat && (d =? 0)%nat
         then Ok [slice uf 0 (3 * size_123)]
         else column_stack (G st) (slice uf 0 (3 * size_123))) ;;
  Ok (AsmState G' (log1 ++ [Info_atom j d]) (Gfile st)).

(** The body of the loop over [j] (lines 144-171): three columns, then
    [np.save(args.Gfile, G)]. *)
Definition atom_step (LGF_jmin : nat) (st : asm_state) (j : nat)
  : result asm_state :=
  st' <- foldM (column_step LGF_jmin j) (seq 0 3) st ;;
  Ok (AsmState (G st') (log st') (Some (G st'))).

(** [for j in range(LGF_jmin,LGF_jmax+1)]. *)
Definition assemble_from (LGF_jmin LGF_jmax : nat) (st : asm_state)
  : result asm_state :=
  foldM (atom_step LGF_jmin) (seq LGF_jmin (LGF_jmax + 1 - LGF_jmin)) st.

(** A run of the script on the range [LGF_jmin..LGF_jmax]; the output file
    has the contents [file0] beforehand. *)
Definition assemble (LGF_jmin LGF_jmax : nat) (file0 : option (list (list R)))
  : result asm_state :=
  assemble_from LGF_jmin LGF_jmax (AsmState [] [] file0).

(** The column of [G] for the pair (j,d), as the loop body computes it. *)
Definition lgf_column (j d : nat) : result (list R) :=
  f <- corrected_force j d ;;
  Ok (slice (fst (cg (top_left D (3 * size_in) (3 * size_in)) f (1 / 10 ^ 8)))
            0 (3 * size_123)).

(** The convergence status the solver returns for the pair (j,d). *)
Definition solve_status (j d : nat) : result Z :=
  f <- corrected_force j d ;;
  Ok (snd (cg (top_left D (3 * size_in) (3 * size_in)) f (1 / 10 ^ 8))).

(** The (atom, direction) pairs of [len] atoms from [a] on: atom index
    ascending, then direction 0, 1, 2. *)
Definition dof_pairs (a len : nat) : list (nat * nat) :=
  flat_map (fun j : nat => map (pair j) (seq 0 3)) (seq a len).

(** The columns of the pairs of a range, in that order. *)
Definition columns_range (a len : nat) : result (list (list R)) :=
  mapM (fun p : nat * nat => lgf_column (fst p) (snd p)) (dof_pairs a len).

(** The log records of the pairs of a range, in that order. *)
Definition log_range (a len : nat) : result (list log_record) :=
  recs <- mapM (fun p : nat * nat =>
                  s <- solve_status (fst p) (snd p) ;;
                  Ok [Debug_solve s; Info_atom (fst p) (snd p)])
               (dof_pairs a len) ;;
  Ok (concat recs).

(** The matrix a run leaves in the variable [G]. *)
Definition G_of (r : result asm_state) : result (list (list R)) :=
  st <- r ;; Ok (G st).

(** Consecutive sub-batches [LGF_jmin..k1], [k1+1..k2], ..., each a run of
    its own, with the matrices concatenated column-wise. *)
Fixpoint assemble_batches (LGF_jmin : nat) (ends : list nat)
  : result (list (list R)) :=
  match ends with
  | [] => Ok []
  | k :: ends' =>
      G1 <- G_of (assemble LGF_jmin k None) ;;
      G2 <- assemble_batches (S k) ends' ;;
      Ok (G1 ++ G2)
  end.

End Assembly.

(** The sub-batch ends [ends] cut a range starting at [LGF_jmin] into
    consecutive (possibly empty) pieces. *)
Fixpoint consecutive (LGF_jmin : nat) (ends : list nat) : Prop :=
  match ends with
  | [] => True
  | k :: ends' => (LGF_jmin <= S k)%nat /\ consecutive (S k) ends'
  end.

(** ** The displacement measures named in the specification *)

(** Root-mean-square displacement over the atoms of a field:
    [sqrt((1/n) * sum_i |u_i|^2)]. *)
Definition rms_displacement (disp : list vec3) : R :=
  sqrt (fold_right Rplus 0 (map sumsq disp) / INR (length disp)).

(** Root-mean-square over the [3*n] components of a field. *)
Definition rms_component (disp : list vec3) : R :=
  sqrt (fold_right Rplus 0 (map sumsq disp) / INR (3 * length disp)).

(** [dm] is the largest Euclidean norm of a row of [disp]. *)
Definition is_max_norm (dm : R) (disp : list vec3) : Prop :=
  (forall u, In u disp -> norm3 u <= dm) /\ (exists u, In u disp /\ norm3 u = dm).

(** ** relaxation_wlammps.py: rotating the LGF into the mnt basis
       (lines 304-324) *)

Definition mat3_T (M : mat3) : mat3 :=
  let '((a, b, c), (d, e, f), (g, h, i)) := M in
  ((a, d, g), (b, e, h), (c, f, i)).

(** [np.dot(A, B)] for 3x3 arrays: row [k] of the product is [B.T] applied to
    row [k] of [A]. *)
Definition mat3_mul (A B : mat3) : mat3 :=
  let '(r0, r1, r2) := A in
  (mat3_dot (mat3_T B) r0, mat3_dot (mat3_T B) r1, mat3_dot (mat3_T B) r2).

Definition vec3_get (u : vec3) (k : nat) : R :=
  let '(a, b, c) := u in
  match k with 0%nat => a | 1%nat => b | _ => c end.

Definition mat3_get (M : mat3) (r c : nat) : R :=
  let '(r0, r1, r2) := M in
  vec3_get (match r with 0%nat => r0 | 1%nat => r1 | _ => r2 end) c.

Definition zero_mat3 : mat3 := (zero3, zero3, zero3).

(** A slice bound of Python, for an axis of length [len]: a negative bound
    counts from the end, and every bound is clipped to the axis. *)
Definition py_clip (len : nat) (k : Z) : Z :=
  if (k <? 0)%Z then Z.max (k + Z.of_nat len) 0 else Z.min k (Z.of_nat len).

(** [a[lo:hi]] along an axis of length [len]: first index and item count. *)
Definition py_slice (len : nat) (lo hi : Z) : nat * nat :=
  (Z.to_nat (py_clip len lo), Z.to_nat (py_clip len hi - py_clip len lo)).

(** [G[i*3:(i+1)*3, j*3:(j+1)*3]] as it is used in
    [np.dot(M.T, np.dot(block, M))] ([block3] below): both products need a
    3x3 block. *)
Definition mat3_id : mat3 := ((1, 0, 0), (0, 1, 0), (0, 0, 1)).

(** The 3x3 block of [G] whose first entry is at row [r0], column [c0]. *)
Definition block_at (G : matrix) (r0 c0 : nat) : mat3 :=
  ((entry G r0 c0, entry G r0 (c0 + 1), entry G r0 (c0 + 2)),
   (entry G (r0 + 1) c0, entry G (r0 + 1) (c0 + 1), entry G (r0 + 1) (c0 + 2)),
   (entry G (r0 + 2) c0, entry G (r0 + 2) (c0 + 1), entry G (r0 + 2) (c0 + 2))).

Definition block3 (G : matrix) (i j : Z) : result mat3 :=
  let '(r0, nr) := py_slice (nrows G) (i * 3) ((i + 1) * 3) in
  let '(c0, nc) := py_slice (ncols G) (j * 3) ((j + 1) * 3) in
  if (nc =? 3)%nat && (nr =? 3)%nat then Ok (block_at G r0 c0)
  else Raise (ValueError "shapes not aligned").

(** [np.dot(M.T, np.dot(B, M))]. *)
Definition rotate_block (M B : mat3) : mat3 :=
  mat3_mul (mat3_T M) (mat3_mul B M).

(** The array [G_mnt] once every 3x3 block has been assigned. *)
Definition blocks_matrix (nr nc : nat) (blocks : list (list mat3)) : matrix :=
  Matrix (nr * 3) (nc * 3)
    (fun r c => mat3_get (nth (c / 3) (nth (r / 3) blocks []) zero_mat3)
                  (r mod 3) (c mod 3)).

Definition is_disl_method (method : string) : bool :=
  (method =? "dislLGF123")%string || (method =? "dislLGF23")%string.

Definition is_perfbulk_method (method : string) : bool :=
  (method =? "perfbulkLGF123")%string || (method =? "perfbulkLGF23")%string.

(** Lines 304-324; [size_2 = size_12 - size_1] is a dimension of
    [np.zeros], which refuses a negative one.  [mapping] is the array loaded
    from the mapping file, read only on the perfect-bulk branch. *)
Definition rotate_G (method : string) (G : matrix) (M : mat3)
  (mapping : list (list (Z * Z))) (size_1 size_12 size_123 : nat)
  : result matrix :=
  if (size_12 <? size_1)%nat
  then Raise (ValueError "negative dimensions are not allowed")
  else
    let size_2 := (size_12 - size_1)%nat in
    if is_disl_method method then
      if negb (nrows G =? size_123 * 3)%nat || negb (ncols G =? size_2 * 3)%nat
      then Raise (ValueError "G has the wrong shape!")
      else
        blocks <- mapM (fun i : nat =>
                    mapM (fun j : nat =>
                            B <- block3 G (Z.of_nat i) (Z.of_nat j) ;;
                            Ok (rotate_block M B))
                         (seq 0 size_2))
                    (seq 0 size_123) ;;
        Ok (blocks_matrix size_123 size_2 blocks)
    else if is_perfbulk_method method then
      blocks <- mapM (fun i : nat =>
                  mapM (fun j : nat =>
                          row <- get_item mapping i ;;
                          p <- get_item row (j + size_1) ;;
                          let '(i_b, j_b) := p in
                          let j_b := (j_b - Z.of_nat size_1)%Z in
                          B <- block3 G i_b j_b ;;
                          Ok (rotate_block M B))
                       (seq 0 size_2))
                  (seq 0 size_123) ;;
      Ok (blocks_matrix size_123 size_2 blocks)
    else Raise (ValueError "invalid method!").

(** ** relaxation_wlammps.py: [lammps_settings.__init__] (lines 24-32) *)

Definition nl : ascii := "010"%char.

(** [f.readlines()] on the text of the file: every line keeps its newline. *)
Fixpoint readlines (s : string) : list string :=
  match s with
  | EmptyString => []
  | String c s' =>
      if Ascii.eqb c nl then String c EmptyString :: readlines s'
      else match readlines s' with
           | [] => [String c EmptyString]
           | l :: ls => String c l :: ls
           end
  end.

Definition is_empty_string (s : string) : bool :=
  match s with EmptyString => true | String _ _ => false end.

(** [s.rstrip('\n')]: all trailing newlines are removed. *)
Fixpoint rstrip_nl (s : string) : string :=
  match s with
  | EmptyString => EmptyString
  | String c s' =>
      let r := rstrip_nl s' in
      if Ascii.eqb c nl && is_empty_string r then EmptyString else String c r
  end.

(** Whether a string contains a newline. *)
Fixpoint contains_nl (s : string) : bool :=
  match s with
  | EmptyString => false
  | String c s' => Ascii.eqb c nl || contains_nl s'
  end.

(** The constructor, given the text of [lammpspairfile]. *)
Definition lammps_settings_init (datafilename pairfile_text : string)
  (maxcgiter : Z) (ftol : R) : result lammps_settings :=
  let lines := readlines pairfile_text in
  l0 <- get_item lines 0 ;;
  l1 <- get_item lines 1 ;;
  Ok (LammpsSettings datafilename (rstrip_nl l0) (rstrip_nl l1) maxcgiter ftol).

(** ** calc_LGF.py: the atom range of a run (lines 139-143) *)

(** [if LGF_jmin < 0: LGF_jmin = size_1]. *)
Definition resolve_jmin (arg_jmin : Z) (size_1 : nat) : Z :=
  if (arg_jmin <? 0)%Z then Z.of_nat size_1 else arg_jmin.

(** [if LGF_jmax < 0: LGF_jmax = size_12-1]. *)
Definition resolve_jmax (arg_jmax : Z) (size_12 : nat) : Z :=
  if (arg_jmax <? 0)%Z then (Z.of_nat size_12 - 1)%Z else arg_jmax.

(** [range(LGF_jmin,LGF_jmax+1)] for a non-negative [LGF_jmin]. *)
Definition atom_range (LGF_jmin LGF_jmax : Z) : list nat :=
  seq (Z.to_nat LGF_jmin) (Z.to_nat (LGF_jmax + 1 - LGF_jmin)).

Section AssemblyMain.

Variables GEn_t phi_R_grid_t : Type.
Variable G_largeR :
  GEn_t -> phi_R_grid_t -> R -> R -> nat -> R -> R -> R -> mat3.
Variable arctan2 : R -> R -> R.
Variable cg : matrix -> list R -> R -> list R * Z.
Variable grid : list atom.
Variables size_1 size_12 size_123 size_in : nat.
Variable D : matrix.
Variable GEn : GEn_t.
Variable phi_R_grid : phi_R_grid_t.
Variables a0 V t_mag : R.

(** Lines 139-171 for the command-line values [args.LGF_jmin] and
    [args.LGF_jmax]. *)
Definition assembly_main (arg_jmin arg_jmax : Z)
  (file0 : option (list (list R))) : result asm_state :=
  let LGF_jmin := resolve_jmin arg_jmin size_1 in
  let LGF_jmax := resolve_jmax arg_jmax size_12 in
  foldM (atom_step GEn_t phi_R_grid_t G_largeR arctan2 cg grid size_123 size_in
           D GEn phi_R_grid a0 V t_mag (Z.to_nat LGF_jmin))
        (atom_range LGF_jmin LGF_jmax) (AsmState [] [] file0).

End AssemblyMain.

(** ** Concrete inputs used in the examples *)

(** A 6x3 LGF whose first column displaces atom 0 by 700 and atom 1 by 100
    along m. *)
Definition ex_G_700_100 : matrix :=
  Matrix 6 3 (fun i k => match i, k with
                         | 0%nat, 0%nat => 700
                         | 3%nat, 0%nat => 100
                         | _, _ => 0
                         end).

Definition ex_forces2 : list vec3 := [(1, 0, 0); (0, 0, 0)].
Definition ex_grid2 : list vec3 := [(0, 0, 0); (1, 0, 0)].
Definition ex_disp_700_100 : list vec3 := [(700, 0, 0); (100, 0, 0)].

(** Two atoms, the first in the core, the second in the coupling region; a
    6x3 LGF whose first column displaces atom 0 by 3 and atom 1 by 500. *)
Definition ex_G_3_500 : matrix :=
  Matrix 6 3 (fun i k => match i, k with
                         | 0%nat, 0%nat => 3
                         | 3%nat, 0%nat => 500
                         | _, _ => 0
                         end).

Definition ex_forces_core : list vec3 := [(5, 0, 0); (1, 0, 0)].
Definition ex_grid_core : list vec3 := [(7, 8, 9); (1, 0, 0)].

(** A stub engine without state: every run reports the positions [pos] in
    columns 2-4 and the forces [frc] in columns 5-7 of its table. *)
Definition stub_table (pos frc : list vec3) : nat -> nat -> R :=
  fun i c =>
    let '(x, y, z) := nth i pos zero3 in
    let '(fx, fy, fz) := nth i frc zero3 in
    match c with
    | 2%nat => x | 3%nat => y | 4%nat => z
    | 5%nat => fx | 6%nat => fy | 7%nat => fz
    | _ => 0
    end.

Definition stub_minimize (pos frc : list vec3)
  : lammps_settings -> bool -> list atom -> unit -> (nat -> nat -> R) * unit :=
  fun _ _ _ e => (stub_table pos frc, e).

Definition ex_ls : lammps_settings :=
  LammpsSettings "dislgeom.data" "pair_style eam/fs" "pair_coeff * *" 5 (1 / 10 ^ 6).

Definition ex_world0 : world unit := World unit tt 0 [] None.

(** A stub engine for the convergence scenario.  Its state is the list of
    maximum forces still to be reported: every force evaluation takes the
    next value [x] and reports the force [(x,0,0)] on atom 0 and no force
    elsewhere; a core relaxation reports zero positions and forces. *)
Definition seq_force_table (x : R) : nat -> nat -> R :=
  fun i c => match i, c with
             | 0%nat, 2%nat => x
             | _, _ => 0
             end.

Definition seq_run0
  : lammps_settings -> bool -> list atom -> list R -> (nat -> nat -> R) * list R :=
  fun _ _ _ e => match e with
                 | [] => (seq_force_table 0, [])
                 | x :: e' => (seq_force_table x, e')
                 end.

Definition seq_minimize
  : lammps_settings -> bool -> list atom -> list R -> (nat -> nat -> R) * list R :=
  fun _ _ _ e => (fun _ _ => 0, e).

Definition zero_matrix (r c : nat) : matrix := Matrix r c (fun _ _ => 0).

Definition ex_atoms1 : list atom := [Atom 0 2 0 0 0 0].

Definition ex_seq_world (values : list R) : world (list R) :=
  World (list R) values 0 ex_atoms1 None.

(** The outer loop of the scenario: one atom, in the coupling region. *)
Definition ex_seq_main (tol : R) (maxouteriter : nat) (values : list R)
  : result (loop_exit * loop_state (list R)) :=
  relaxation_main (list R) seq_minimize seq_run0 1 ex_ls 0 1 1
    (zero_matrix 3 3) "dislLGF123" false tol ex_atoms1 maxouteriter
    (ex_seq_world values).

(** The scenario after the initial force evaluation reported 10, and its
    interrupted runs. *)
Definition ex_seq_state0 : loop_state (list R) :=
  LoopState (list R) [10; 0; 0] []
    (World (list R) [1; 1 / 100] 1 ex_atoms1 None).

Definition ex_seq_passes (k : nat) : result (loop_state (list R)) :=
  run_passes (list R) seq_minimize seq_run0 1 ex_ls 0 1 1
    (zero_matrix 3 3) "dislLGF123" false (1 / 10) ex_atoms1 k ex_seq_state0.

(** A persisted LGF whose stored [size_1] is one less than that of the run. *)
Definition ex_h5 : h5file :=
  H5File [("size_1"%string, 3%Z); ("size_12"%string, 5%Z); ("size_123"%string, 9%Z)]
         (zero_matrix 27 6).

(** Stubs for the collaborators of the assembly: a Green function tensor
    [R * identity], the polar angle of points of the m axis, and a solver that
    returns its right-hand side with the status [5] (not converged). *)
Definition ex_G_largeR
  : unit -> unit -> R -> R -> nat -> R -> R -> R -> mat3 :=
  fun _ _ Rperp _ _ _ _ _ => ((Rperp, 0, 0), (0, Rperp, 0), (0, 0, Rperp)).

Definition ex_arctan2 : R -> R -> R :=
  fun _ x => if Rlt_dec x 0 then PI else 0.

Definition ex_cg : matrix -> list R -> R -> list R * Z :=
  fun _ b _ => (b, 5%Z).

(** Two atoms one lattice constant apart on the m axis. *)
Definition ex_grid_atoms : list atom := [Atom 0 1 0 0 0 0; Atom 1 4 1 0 0 0].

(** Force-constant matrices for the examples: ones on the diagonal. *)
Definition eye (r c : nat) : matrix :=
  Matrix r c (fun i k => if (i =? k)%nat then 1 else 0).

Definition ex_D36 : matrix := eye 3 6.
Definition ex_D66 : matrix := eye 6 6.
Definition ex_D15_18 : matrix := eye 15 18.

(** Six atoms on the m axis, the first five in the "in" region. *)
Definition ex_grid6 : list atom :=
  [Atom 0 1 0 0 0 0; Atom 1 1 1 0 0 0; Atom 2 2 2 0 0 0;
   Atom 3 2 3 0 0 0; Atom 4 3 4 0 0 0; Atom 5 4 5 0 0 0].

(** A mapping between two atoms that sends every pair to itself. *)
Definition ex_mapping : list (list (Z * Z)) :=
  [[(0, 0); (0, 1)]; [(1, 0); (1, 1)]]%Z.

(** * Properties *)

(** ** Generic lemmas on the error monad and on arrays *)

Lemma bind_ok_inv {A B : Type} (c : result A) (k : A -> result B) (b : B) :
  bind c k = Ok b -> exists a, c = Ok a /\ k a = Ok b.
Proof.
  destruct c as [a | e]; cbn; intros H; [exists a; split; auto | discriminate].
Qed.

Ltac bind_inv H :=
  let a := fresh "a" in
  let Ha := fresh "Ha" in
  apply bind_ok_inv in H; destruct H as (a & Ha & H).

Lemma inplace_length {A : Type} (op : A -> A -> A) (a b c : list A) :
  inplace op a b = Ok c -> length c = length a.
Proof.
  unfold inplace. destruct (length b =? length a)%nat eqn:E.
  - apply Nat.eqb_eq in E. intros H. injection H as <-.
    rewrite length_map, length_combine. lia.
  - destruct b as [| b0 [| b1 b']]; try discriminate.
    intros H. injection H as <-. now rewrite length_map.
Qed.

Lemma inplace_ext {A : Type} (op op' : A -> A -> A) (f : A -> A) (a b : list A) :
  (forall x y, op x (f y) = op' x y) ->
  inplace op a (map f b) = inplace op' a b.
Proof.
  intros Hop. unfold inplace. rewrite length_map.
  destruct (length b =? length a)%nat.
  - f_equal. revert b. induction a as [| x a IH]; intros [| y b]; cbn; auto.
    now rewrite Hop, IH.
  - destruct b as [| b0 [| b1 b']]; cbn; auto.
    f_equal. apply map_ext. intros x. apply Hop.
Qed.

Lemma vec3_eq (a b c x y z : R) :
  a = x -> b = y -> c = z -> (a, b, c) = (x, y, z).
Proof. now intros -> -> ->. Qed.

Lemma rows3_map_opp (l : list R) :
  rows3 (map Ropp l) = map (vscale (-1)) (rows3 l).
Proof.
  revert l. fix IH 1. intros [| x [| y [| z l]]]; cbn; auto.
  rewrite IH. unfold vscale.
  replace (-1 * x) with (- x) by ring.
  replace (-1 * y) with (- y) by ring.
  replace (-1 * z) with (- z) by ring.
  reflexivity.
Qed.

Lemma vsub_neg (u v : vec3) : vsub u (vscale (-1) v) = vadd u v.
Proof. destruct u as [[a b] c], v as [[x y] z]. cbn. apply vec3_eq; ring. Qed.

Lemma sumsq_nonneg (u : vec3) : 0 <= sumsq u.
Proof. destruct u as [[a b] c]. cbn. nra. Qed.

Lemma sumsq_vscale (s : R) (u : vec3) : sumsq (vscale s u) = s ^ 2 * sumsq u.
Proof. destruct u as [[a b] c]. cbn. ring. Qed.

Lemma norm3_vscale (s : R) (u : vec3) : norm3 (vscale s u) = Rabs s * norm3 u.
Proof.
  unfold norm3. rewrite sumsq_vscale, sqrt_mult_alt by nra.
  f_equal. replace (s ^ 2) with (Rsqr s) by (unfold Rsqr; ring).
  apply sqrt_Rsqr_abs.
Qed.

Lemma vscale_1 (u : vec3) : vscale 1 u = u.
Proof. destruct u as [[a b] c]. cbn. apply vec3_eq; ring. Qed.

Lemma fold_left_Rmax_ge_init (l : list R) (x : R) : x <= fold_left Rmax l x.
Proof.
  revert x. induction l as [| y l IH]; intros x; cbn; [lra |].
  eapply Rle_trans; [apply (Rmax_l x y) | apply IH].
Qed.

Lemma fold_left_Rmax_ge (l : list R) (x y : R) :
  In y l -> y <= fold_left Rmax l x.
Proof.
  revert x. induction l as [| z l IH]; intros x; cbn; [tauto |].
  intros [-> | Hin]; [| now apply IH].
  eapply Rle_trans; [apply (Rmax_r x y) | apply fold_left_Rmax_ge_init].
Qed.

Lemma fold_left_Rmax_in (l : list R) (x : R) : In (fold_left Rmax l x) (x :: l).
Proof.
  revert x. induction l as [| y l IH]; intros x; cbn; [auto |].
  destruct (IH (Rmax x y)) as [H | H]; [| auto].
  rewrite <- H. unfold Rmax. destruct (Rle_dec x y); auto.
Qed.

(** [disp_max] returns the largest row norm of a non-empty field. *)
Lemma disp_max_spec (disp : list vec3) :
  disp <> [] -> exists dm, disp_max disp = Ok dm /\ is_max_norm dm disp.
Proof.
  destruct disp as [| u0 disp]; [congruence | intros _].
  unfold disp_max. cbn [map py_max bind]. eexists; split; [reflexivity |].
  split.
  - intros u Hu. unfold norm3. apply sqrt_le_1_alt.
    destruct Hu as [<- | Hu]; [apply fold_left_Rmax_ge_init |].
    apply fold_left_Rmax_ge. now apply in_map.
  - destruct (fold_left_Rmax_in (map sumsq disp) (sumsq u0)) as [H | H].
    + exists u0. split; [now left |]. unfold norm3. f_equal. exact H.
    + apply in_map_iff in H. destruct H as (u & Hu & Hin).
      exists u. split; [now right |]. unfold norm3. f_equal. exact Hu.
Qed.

Lemma partial_not_full (method : string) :
  is_partial_method method = true -> is_full_method method = false.
Proof.
  unfold is_partial_method, is_full_method. intros H.
  apply orb_true_iff in H. destruct H as [H | H];
    apply String.eqb_eq in H; subst; reflexivity.
Qed.

(** ** The LGF update of [relaxation_cycle] *)

Lemma sqrt_of_square (x r : R) : 0 <= r -> x = r ^ 2 -> sqrt x = r.
Proof.
  intros Hr ->. replace (r ^ 2) with (r * r) by ring. now apply sqrt_square.
Qed.

Lemma Rmax_left (a b : R) : b <= a -> Rmax a b = a.
Proof. intros H. unfold Rmax. destruct (Rle_dec a b); lra. Qed.

Lemma Rmax_right (a b : R) : a <= b -> Rmax a b = b.
Proof. intros H. unfold Rmax. destruct (Rle_dec a b); lra. Qed.

Lemma disp_scale_below (dm maxdisp : R) : dm < maxdisp -> disp_scale dm maxdisp = 1.
Proof. intros H. unfold disp_scale. destruct (Rlt_dec dm maxdisp); lra. Qed.

Lemma disp_scale_above (dm maxdisp : R) :
  maxdisp <= dm -> disp_scale dm maxdisp = maxdisp / dm.
Proof. intros H. unfold disp_scale. destruct (Rlt_dec dm maxdisp); lra. Qed.

(** Outside the region invariant: a negative first dimension is inferred
    by [np.reshape], so the coupling forces of an inverted range are the
    empty column and nothing is raised. *)
Lemma coupling_forces_inverted (size_1 size_12 : nat) (forces : list vec3) :
  (size_12 < size_1)%nat -> coupling_forces size_1 size_12 forces = Ok [].
Proof.
  intros H. unfold coupling_forces, slice.
  replace (size_12 <? size_1)%nat with true by (symmetry; apply Nat.ltb_lt; lia).
  replace (size_12 - size_1)%nat with 0%nat by lia. reflexivity.
Qed.

(** The partial update as a whole: the core rows are kept and the negated
    negative displacement is added to the rest. *)
Lemma lgf_update_partial (size_1 size_12 size_123 : nat) (G : matrix)
  (method : string) (maxdisp : R) (grid forces : list vec3) :
  is_partial_method method = true ->
  lgf_update size_1 size_12 size_123 G method maxdisp grid forces =
  (forces_2 <- coupling_forces size_1 size_12 forces ;;
   nd <- partial_neg_disp size_1 size_123 G forces_2 ;;
   tl <- isub3 (skipn size_1 grid) nd ;;
   Ok (firstn size_1 grid ++ tl)).
Proof.
  intros Hp. unfold lgf_update.
  destruct (coupling_forces size_1 size_12 forces); cbn [bind]; auto.
  now rewrite (partial_not_full _ Hp), Hp.
Qed.

Lemma lgf_update_partial_frame (size_1 size_12 size_123 : nat) (G : matrix)
  (method : string) (maxdisp : R) (grid forces grid' : list vec3) :
  is_partial_method method = true ->
  lgf_update size_1 size_12 size_123 G method maxdisp grid forces = Ok grid' ->
  length grid' = length grid /\
  forall i, (i < size_1)%nat -> nth_error grid' i = nth_error grid i.
Proof.
  intros Hp H. rewrite lgf_update_partial in H by exact Hp.
  bind_inv H. bind_inv H. bind_inv H. injection H as <-.
  apply inplace_length in Ha1.
  assert (Hlen : length (firstn size_1 grid ++ a1) = length grid).
  { rewrite length_app, Ha1, <- length_app, firstn_skipn. reflexivity. }
  split; [exact Hlen |].
  intros i Hi. destruct (Nat.lt_ge_cases i (length grid)) as [Hlt | Hge].
  - rewrite nth_error_app1 by (rewrite length_firstn; lia).
    rewrite nth_error_firstn. apply Nat.ltb_lt in Hi. now rewrite Hi.
  - transitivity (@None vec3); [| symmetry]; apply nth_error_None; lia.
Qed.

Section CycleProperties.

Variable lammps : Type.
Variable lmp_minimize_run0 :
  lammps_settings -> bool -> list atom -> lammps -> (nat -> nat -> R) * lammps.
Variable lmp_run0 :
  lammps_settings -> bool -> list atom -> lammps -> (nat -> nat -> R) * lammps.
Variable size_123_global : nat.

Abbreviation cycle := (relaxation_cycle lammps lmp_minimize_run0 size_123_global).
Abbreviation minimize_getforces :=
  (lammps_minimize_getforces lammps lmp_minimize_run0 size_123_global).

Lemma relaxation_cycle_unfold ls size_1 size_12 size_123 G method maxdisp
  antiplane w :
  cycle ls size_1 size_12 size_123 G method maxdisp antiplane w =
  (grid' <- lgf_update size_1 size_12 size_123 G method maxdisp
              (fst (fst (minimize_getforces ls antiplane w)))
              (snd (fst (minimize_getforces ls antiplane w))) ;;
   Ok (grid', snd (minimize_getforces ls antiplane w))).
Proof.
  unfold relaxation_cycle.
  destruct (minimize_getforces ls antiplane w) as [[grid forces] w1].
  reflexivity.
Qed.

(** C8.  Under the partial-update method ([dislLGF23] / [perfbulkLGF23]) the
    LGF update of [relaxation_cycle] leaves every row with index below
    [size_1] as the core relaxation returned it (and changes no row count). *)
Theorem partial_update_keeps_core ls size_1 size_12 size_123 G method maxdisp
  antiplane w grid' w' :
  is_partial_method method = true ->
  cycle ls size_1 size_12 size_123 G method maxdisp antiplane w = Ok (grid', w') ->
  length grid' = length (fst (fst (minimize_getforces ls antiplane w))) /\
  forall i, (i < size_1)%nat ->
    nth_error grid' i = nth_error (fst (fst (minimize_getforces ls antiplane w))) i.
Proof.
  intros Hp H. rewrite relaxation_cycle_unfold in H.
  bind_inv H. injection H as <- _.
  eapply lgf_update_partial_frame; eauto.
Qed.

End CycleProperties.

Ltac rows_eq :=
  repeat match goal with
  | |- Ok _ = Ok _ => apply f_equal
  | |- (_ :: _) = (_ :: _) => apply f_equal2
  | |- (_, _) = (_, _) => apply f_equal2
  | |- @eq R _ _ => lra
  | |- _ => reflexivity
  end.

Lemma partial_update_keeps_core_witness :
  is_partial_method "dislLGF23" = true /\
  relaxation_cycle unit (stub_minimize ex_grid_core ex_forces_core) 2
    ex_ls 1 2 2 ex_G_3_500 "dislLGF23" 100 false ex_world0
  = Ok ([(7, 8, 9); (501, 0, 0)], World unit tt 1 [] None) /\
  (length [(7, 8, 9); (501, 0, 0)] =
   length (fst (fst (lammps_minimize_getforces unit
                       (stub_minimize ex_grid_core ex_forces_core) 2
                       ex_ls false ex_world0))) /\
   forall i, (i < 1)%nat ->
     nth_error [(7, 8, 9); (501, 0, 0)] i =
     nth_error (fst (fst (lammps_minimize_getforces unit
                            (stub_minimize ex_grid_core ex_forces_core) 2
                            ex_ls false ex_world0))) i).
Proof.
  assert (H1 : is_partial_method "dislLGF23" = true) by reflexivity.
  assert (H2 : relaxation_cycle unit (stub_minimize ex_grid_core ex_forces_core) 2
                 ex_ls 1 2 2 ex_G_3_500 "dislLGF23" 100 false ex_world0
               = Ok ([(7, 8, 9); (501, 0, 0)], World unit tt 1 [] None)).
  { cbn. rows_eq. }
  split; [exact H1 |]. split; [exact H2 |].
  exact (partial_update_keeps_core unit (stub_minimize ex_grid_core ex_forces_core) 2
           ex_ls 1 2 2 ex_G_3_500 "dislLGF23" 100 false ex_world0 _ _ H1 H2).
Defined.

Lemma length_dot (M : matrix) (v Mv : list R) :
  dot M v = Ok Mv -> length Mv = nrows M.
Proof.
  unfold dot. destruct (ncols M =? length v)%nat; [| discriminate].
  intros H. injection H as <-. now rewrite length_map, length_seq.
Qed.

(** C10.  Under the partial-update method the rows from [size_1] on receive
    exactly the product of the LGF rows from [3*size_1] on with the
    coupling-region forces; [maxdisp] plays no part, and the displacement so
    applied can exceed it (here 500 against a cap of 100). *)
Theorem partial_update_uncapped :
  (forall size_1 size_12 size_123 G method maxdisp grid forces forces_2 Gf,
      is_partial_method method = true ->
      (size_1 <= size_123)%nat ->
      nrows G = (3 * size_123)%nat ->
      coupling_forces size_1 size_12 forces = Ok forces_2 ->
      dot (rows_from G (3 * size_1)) forces_2 = Ok Gf ->
      lgf_update size_1 size_12 size_123 G method maxdisp grid forces =
      (tl <- iadd3 (skipn size_1 grid) (rows3 Gf) ;;
       Ok (firstn size_1 grid ++ tl))) /\
  (dot (rows_from ex_G_3_500 3) [1; 0; 0] = Ok [500; 0; 0] /\
   lgf_update 1 2 2 ex_G_3_500 "dislLGF23" 100 ex_grid_core ex_forces_core =
   Ok [(7, 8, 9); vadd (1, 0, 0) (500, 0, 0)] /\
   100 < norm3 (500, 0, 0)).
Proof.
  split.
  - intros size_1 size_12 size_123 G method maxdisp grid forces forces_2 Gf
      Hp Hle Hrows Hf HGf.
    rewrite lgf_update_partial by exact Hp.
    rewrite Hf. cbn [bind]. unfold partial_neg_disp. rewrite HGf. cbn [bind].
    apply length_dot in HGf. cbn [rows_from nrows] in HGf.
    replace (size_123 <? size_1)%nat with false
      by (symmetry; apply Nat.ltb_ge; exact Hle).
    unfold reshape_n3. rewrite length_map.
    replace (length Gf =? 3 * (size_123 - size_1))%nat with true
      by (symmetry; apply Nat.eqb_eq; lia).
    cbn [bind]. rewrite rows3_map_opp. unfold isub3, iadd3.
    now rewrite (inplace_ext vsub vadd (vscale (-1))) by apply vsub_neg.
  - split; [| split].
    + cbn. rows_eq.
    + cbn. rows_eq.
    + unfold norm3. rewrite (sqrt_of_square _ 500); cbn; lra.
Qed.

Lemma partial_update_uncapped_witness :
  lgf_update 1 2 2 ex_G_3_500 "dislLGF23" 100 ex_grid_core ex_forces_core =
  (tl <- iadd3 (skipn 1 ex_grid_core) (rows3 [500; 0; 0]) ;;
   Ok (firstn 1 ex_grid_core ++ tl)).
Proof.
  apply (proj1 partial_update_uncapped 1%nat 2%nat 2%nat ex_G_3_500
           "dislLGF23"%string 100 ex_grid_core ex_forces_core [1; 0; 0] [500; 0; 0]).
  - reflexivity.
  - lia.
  - reflexivity.
  - reflexivity.
  - cbn. rows_eq.
Defined.

(** C1 (the measure is the largest row norm, not the root mean square).
    Under the full-update method the displacement field is
    [disp = reshape(G . forces_2)]; with [dm] the largest Euclidean norm of a
    row of [disp], the update adds [disp] unscaled when [dm < maxdisp] and
    [disp] scaled uniformly by [maxdisp / dm] otherwise; for a positive
    [maxdisp] no row of the applied displacement is longer than [maxdisp]. *)
Theorem full_update_capped_by_max_norm size_1 size_12 size_123 G method maxdisp
  grid forces forces_2 disp :
  is_full_method method = true ->
  coupling_forces size_1 size_12 forces = Ok forces_2 ->
  full_disp size_123 G forces_2 = Ok disp ->
  disp <> [] ->
  exists dm,
    disp_max disp = Ok dm /\ is_max_norm dm disp /\
    lgf_update size_1 size_12 size_123 G method maxdisp grid forces =
      iadd3 grid (map (vscale (disp_scale dm maxdisp)) disp) /\
    (dm < maxdisp -> map (vscale (disp_scale dm maxdisp)) disp = disp) /\
    (maxdisp <= dm -> disp_scale dm maxdisp = maxdisp / dm) /\
    (0 < maxdisp ->
     forall u, In u (map (vscale (disp_scale dm maxdisp)) disp) ->
               norm3 u <= maxdisp).
Proof.
  intros Hm Hf Hd Hne.
  destruct (disp_max_spec disp Hne) as (dm & Hdm & Hmax).
  exists dm. split; [exact Hdm |]. split; [exact Hmax |].
  split; [| split; [| split]].
  - unfold lgf_update. rewrite Hf. cbn [bind]. rewrite Hm, Hd. cbn [bind].
    rewrite Hdm. reflexivity.
  - intros Hlt. rewrite disp_scale_below by exact Hlt.
    rewrite <- (map_id disp) at 2. apply map_ext. apply vscale_1.
  - apply disp_scale_above.
  - intros Hpos u Hu. apply in_map_iff in Hu. destruct Hu as (u0 & <- & Hu0).
    destruct Hmax as [Hle _]. specialize (Hle u0 Hu0).
    assert (Hn0 : 0 <= norm3 u0) by apply sqrt_pos.
    rewrite norm3_vscale.
    destruct (Rlt_dec dm maxdisp) as [Hlt | Hge].
    + rewrite disp_scale_below by exact Hlt. rewrite Rabs_R1. lra.
    + apply Rnot_lt_le in Hge. rewrite disp_scale_above by exact Hge.
      assert (Hdpos : 0 < dm) by lra.
      assert (Hs : 0 < maxdisp / dm) by (apply Rdiv_lt_0_compat; lra).
      rewrite Rabs_pos_eq by lra.
      apply Rle_trans with (maxdisp / dm * dm).
      * apply Rmult_le_compat_l; lra.
      * right. field. lra.
Qed.

Lemma ex_full_coupling_forces : coupling_forces 0 1 ex_forces2 = Ok [1; 0; 0].
Proof. reflexivity. Qed.

Lemma ex_full_disp : full_disp 2 ex_G_700_100 [1; 0; 0] = Ok ex_disp_700_100.
Proof. cbn. unfold ex_disp_700_100. rows_eq. Qed.

Lemma ex_full_update :
  lgf_update 0 1 2 ex_G_700_100 "dislLGF123" 100 ex_grid2 ex_forces2 =
  iadd3 ex_grid2 (map (vscale (100 / 700)) ex_disp_700_100).
Proof.
  unfold lgf_update. rewrite ex_full_coupling_forces. cbn [bind].
  replace (is_full_method "dislLGF123") with true by reflexivity.
  rewrite ex_full_disp. cbn [bind].
  unfold disp_max, ex_disp_700_100. cbn [map py_max bind fold_left sumsq].
  rewrite Rmax_left by lra.
  rewrite (sqrt_of_square _ 700) by lra.
  rewrite disp_scale_above by lra. reflexivity.
Qed.

Lemma full_update_capped_by_max_norm_witness :
  is_full_method "dislLGF123" = true /\
  coupling_forces 0 1 ex_forces2 = Ok [1; 0; 0] /\
  full_disp 2 ex_G_700_100 [1; 0; 0] = Ok ex_disp_700_100 /\
  ex_disp_700_100 <> [] /\
  exists dm,
    disp_max ex_disp_700_100 = Ok dm /\ is_max_norm dm ex_disp_700_100 /\
    lgf_update 0 1 2 ex_G_700_100 "dislLGF123" 100 ex_grid2 ex_forces2 =
      iadd3 ex_grid2 (map (vscale (disp_scale dm 100)) ex_disp_700_100) /\
    (dm < 100 -> map (vscale (disp_scale dm 100)) ex_disp_700_100 = ex_disp_700_100) /\
    (100 <= dm -> disp_scale dm 100 = 100 / dm) /\
    (0 < 100 ->
     forall u, In u (map (vscale (disp_scale dm 100)) ex_disp_700_100) ->
               norm3 u <= 100).
Proof.
  assert (H1 : is_full_method "dislLGF123" = true) by reflexivity.
  assert (H4 : ex_disp_700_100 <> []) by discriminate.
  split; [exact H1 |]. split; [exact ex_full_coupling_forces |].
  split; [exact ex_full_disp |]. split; [exact H4 |].
  exact (full_update_capped_by_max_norm 0 1 2 ex_G_700_100 "dislLGF123" 100
           ex_grid2 ex_forces2 [1; 0; 0] ex_disp_700_100
           H1 ex_full_coupling_forces ex_full_disp H4).
Defined.

(** C1 as stated fails: a field whose root-mean-square displacement is 500
    (over atoms; about 288.7 over components) against a cap of 100 is scaled
    by 100/700, the cap over its largest row norm, and not by 100/500 (nor by
    the cap over the component-wise value). *)
Lemma full_update_rms_counterexample :
  coupling_forces 0 1 ex_forces2 = Ok [1; 0; 0] /\
  full_disp 2 ex_G_700_100 [1; 0; 0] = Ok ex_disp_700_100 /\
  rms_displacement ex_disp_700_100 = 500 /\
  100 < rms_component ex_disp_700_100 /\
  lgf_update 0 1 2 ex_G_700_100 "dislLGF123" 100 ex_grid2 ex_forces2 =
    iadd3 ex_grid2 (map (vscale (100 / 700)) ex_disp_700_100) /\
  lgf_update 0 1 2 ex_G_700_100 "dislLGF123" 100 ex_grid2 ex_forces2 <>
    iadd3 ex_grid2
      (map (vscale (100 / rms_displacement ex_disp_700_100)) ex_disp_700_100) /\
  lgf_update 0 1 2 ex_G_700_100 "dislLGF123" 100 ex_grid2 ex_forces2 <>
    iadd3 ex_grid2
      (map (vscale (100 / rms_component ex_disp_700_100)) ex_disp_700_100).
Proof.
  assert (Hrms : rms_displacement ex_disp_700_100 = 500).
  { unfold rms_displacement. apply sqrt_of_square; [lra |]. cbn. field. }
  assert (Hsq : rms_component ex_disp_700_100 * rms_component ex_disp_700_100
                = 500000 / 6).
  { unfold rms_component. rewrite sqrt_sqrt; cbn; [field | lra]. }
  assert (Hpos : 0 <= rms_component ex_disp_700_100) by apply sqrt_pos.
  assert (Hgt : 100 < rms_component ex_disp_700_100) by nra.
  split; [exact ex_full_coupling_forces |]. split; [exact ex_full_disp |].
  split; [exact Hrms |]. split; [exact Hgt |]. split; [exact ex_full_update |].
  split.
  - rewrite ex_full_update, Hrms. cbn. intros H. injection H as H _. lra.
  - rewrite ex_full_update. cbn. intros H. injection H as H _.
    set (r := rms_component ex_disp_700_100) in *.
    assert (Hs : 100 / r = 1 / 7) by lra.
    assert (Hr : 100 / r * r = 100) by (field; lra).
    rewrite Hs in Hr. assert (r = 700) by lra. subst r. nra.
Qed.

(** ** The outer relaxation loop *)

(** [argmax_from] returns the index of a maximal entry. *)
Lemma argmax_from_spec (l pre : list R) (bi : nat) (b : R) :
  (bi < length pre)%nat ->
  nth bi pre 0 = b ->
  (forall x, In x pre -> x <= b) ->
  (argmax_from bi b (length pre) l < length (pre ++ l))%nat /\
  forall x, In x (pre ++ l) ->
            x <= nth (argmax_from bi b (length pre) l) (pre ++ l) 0.
Proof.
  revert pre bi b. induction l as [| y l IH]; intros pre bi b Hbi Hnth Hmax.
  - cbn [argmax_from]. rewrite app_nil_r. split; [exact Hbi |].
    intros x Hx. rewrite Hnth. auto.
  - cbn [argmax_from].
    assert (Hlen : length (pre ++ [y]) = S (length pre))
      by (rewrite length_app; cbn; lia).
    destruct (Rlt_dec b y) as [Hlt | Hge].
    + specialize (IH (pre ++ [y]) (length pre) y).
      rewrite Hlen, <- app_assoc in IH. apply IH.
      * lia.
      * rewrite app_nth2 by lia. now rewrite Nat.sub_diag.
      * intros x Hx. apply in_app_or in Hx. destruct Hx as [Hx | [<- | []]].
        -- specialize (Hmax x Hx). lra.
        -- lra.
    + specialize (IH (pre ++ [y]) bi b).
      rewrite Hlen, <- app_assoc in IH. apply IH.
      * lia.
      * rewrite app_nth1 by exact Hbi. exact Hnth.
      * intros x Hx. apply in_app_or in Hx. destruct Hx as [Hx | [<- | []]].
        -- auto.
        -- lra.
Qed.

(** [force_max] is the largest absolute value of a component. *)
Lemma force_max_of_spec (f12 : list R) (fm : R) :
  force_max_of f12 = Ok fm ->
  (forall x, In x f12 -> Rabs x <= fm) /\ (exists x, In x f12 /\ Rabs x = fm).
Proof.
  unfold force_max_of. destruct f12 as [| x0 f12]; [discriminate |].
  cbn [map argmax bind]. intros H. injection H as <-.
  destruct (argmax_from_spec (map Rabs f12) [Rabs x0] 0 (Rabs x0))
    as [Hlt Hmax]; cbn; auto.
  { intros x [<- | []]. lra. }
  cbn [length app] in Hlt, Hmax.
  set (r := argmax_from 0 (Rabs x0) 1 (map Rabs f12)) in *.
  change (Rabs x0 :: map Rabs f12) with (map Rabs (x0 :: f12)) in Hmax, Hlt.
  rewrite length_map in Hlt.
  assert (Hr : nth r (map Rabs (x0 :: f12)) 0 = Rabs (nth r (x0 :: f12) 0)).
  { rewrite <- Rabs_R0 at 1. apply map_nth. }
  rewrite Hr in Hmax. split.
  - intros x Hx. apply Hmax. now apply in_map.
  - exists (nth r (x0 :: f12) 0). split; [| reflexivity].
    exact (nth_In (x0 :: f12) 0 Hlt).
Qed.

Section LoopProperties.

Variable lammps : Type.
Variable lmp_minimize_run0 :
  lammps_settings -> bool -> list atom -> lammps -> (nat -> nat -> R) * lammps.
Variable lmp_run0 :
  lammps_settings -> bool -> list atom -> lammps -> (nat -> nat -> R) * lammps.
Variable size_123_global : nat.
Variable ls : lammps_settings.
Variables size_1 size_12 size_123 : nat.
Variable G_mnt : matrix.
Variable method : string.
Variable antiplane : bool.
Variable args_ftol : R.
Variable grid : list atom.

Abbreviation body :=
  (loop_body lammps lmp_minimize_run0 lmp_run0 size_123_global ls
     size_1 size_12 size_123 G_mnt method antiplane args_ftol grid).
Abbreviation step :=
  (coupling_step lammps lmp_minimize_run0 lmp_run0 size_123_global ls
     size_1 size_12 size_123 G_mnt method antiplane grid).
Abbreviation loop :=
  (relax_loop lammps lmp_minimize_run0 lmp_run0 size_123_global ls
     size_1 size_12 size_123 G_mnt method antiplane args_ftol grid).
Abbreviation getforces := (lammps_getforces lammps lmp_run0 size_123_global).
Abbreviation minimize :=
  (lammps_minimize_getforces lammps lmp_minimize_run0 size_123_global).

Lemma getforces_npy ap w : forces_npy _ (snd (getforces ls ap w)) = forces_npy _ w.
Proof.
  unfold lammps_getforces. destruct (lmp_run0 _ _ _ _). reflexivity.
Qed.

Lemma minimize_npy ap w : forces_npy _ (snd (minimize ls ap w)) = forces_npy _ w.
Proof.
  unfold lammps_minimize_getforces. destruct (lmp_minimize_run0 _ _ _ _).
  reflexivity.
Qed.

(** A coupling step hands the log on unchanged and does not write
    [forces.npy]. *)
Lemma coupling_step_frame log w st' :
  step log w = Ok st' ->
  force_evolution _ st' = log /\
  forces_npy _ (outside _ st') = forces_npy _ w.
Proof.
  unfold coupling_step. intros H. bind_inv H. destruct a as [grid_mat w1].
  rewrite relaxation_cycle_unfold in Ha. bind_inv Ha. injection Ha as <- <-.
  pose proof (getforces_npy antiplane
                (write_datafile _ (grid_new_of grid a) (snd (minimize ls antiplane w))))
    as Hnpy.
  destruct (getforces ls antiplane _) as [forces_new w3].
  bind_inv H. injection H as <-. cbn in *. split; [reflexivity |].
  rewrite Hnpy. apply minimize_npy.
Qed.

(** The three ways through the loop body. *)
Lemma loop_body_cases st fm :
  force_max_of (forces_12 _ st) = Ok fm ->
  (fm < args_ftol ->
   body st = Ok (Some CONVERGED,
                 LoopState _ (forces_12 _ st) (force_evolution _ st ++ [fm])
                   (outside _ st))) /\
  (~ fm < args_ftol -> norm2 (forces_12 _ st) > 100 ->
   body st = Ok (Some DIVERGED,
                 LoopState _ (forces_12 _ st) (force_evolution _ st ++ [fm])
                   (outside _ st))) /\
  (~ fm < args_ftol -> ~ norm2 (forces_12 _ st) > 100 ->
   body st = (st' <- step (force_evolution _ st ++ [fm]) (outside _ st) ;;
              Ok (None, st'))).
Proof.
  intros Hfm. unfold loop_body. rewrite Hfm. cbn [bind].
  destruct (Rlt_dec fm args_ftol); destruct (Rgt_dec (norm2 (forces_12 _ st)) 100);
    repeat split; intros; try reflexivity; tauto.
Qed.

(** Every pass appends exactly one value to the log and leaves [forces.npy]
    alone. *)
Lemma loop_body_frame st r st' :
  body st = Ok (r, st') ->
  (exists fm, force_max_of (forces_12 _ st) = Ok fm /\
              force_evolution _ st' = force_evolution _ st ++ [fm]) /\
  forces_npy _ (outside _ st') = forces_npy _ (outside _ st).
Proof.
  intros H. destruct (force_max_of (forces_12 _ st)) as [fm | e] eqn:Hfm.
  2:{ unfold loop_body in H. rewrite Hfm in H. discriminate. }
  destruct (loop_body_cases st fm Hfm) as (Hc & Hd & Hs).
  destruct (Rlt_dec fm args_ftol) as [Hlt | Hnlt].
  - rewrite (Hc Hlt) in H. injection H as _ <-. cbn. eauto.
  - destruct (Rgt_dec (norm2 (forces_12 _ st)) 100) as [Hgt | Hngt].
    + rewrite (Hd Hnlt Hgt) in H. injection H as _ <-. cbn. eauto.
    + rewrite (Hs Hnlt Hngt) in H. bind_inv H. injection H as _ <-.
      apply coupling_step_frame in Ha. destruct Ha as [-> ->]. eauto.
Qed.

Lemma loop_body_exit st e st' :
  body st = Ok (Some e, st') -> e = CONVERGED \/ e = DIVERGED.
Proof.
  unfold loop_body. intros H. bind_inv H.
  destruct (Rlt_dec a args_ftol); [injection H as <- _; auto |].
  destruct (Rgt_dec (norm2 (forces_12 _ st)) 100); [injection H as <- _; auto |].
  bind_inv H. discriminate.
Qed.

Lemma relax_loop_log k : forall st e st',
  loop k st = Ok (e, st') ->
  forces_npy _ (outside _ st') = forces_npy _ (outside _ st) /\
  exists j, (j <= k)%nat /\
    length (force_evolution _ st') = (length (force_evolution _ st) + j)%nat /\
    (e = MAX_ITER_REACHED -> j = k).
Proof.
  induction k as [| k IH]; intros st e st' H; cbn [relax_loop] in H.
  - injection H as <- <-. split; [reflexivity |]. exists 0%nat. repeat split; lia.
  - bind_inv H. destruct a as [[e1 |] st1].
    + injection H as <- <-. pose proof (loop_body_exit _ _ _ Ha) as Hex.
      apply loop_body_frame in Ha.
      destruct Ha as [(fm & Hfm & Hlog) Hnpy]. split; [exact Hnpy |].
      exists 1%nat. rewrite Hlog, length_app. cbn. repeat split; try lia.
      intros ->. destruct Hex; discriminate.
    + apply IH in H. destruct H as [Hnpy (j & Hj & Hlen & Hmax)].
      apply loop_body_frame in Ha. destruct Ha as [(fm & Hfm & Hlog) Hnpy1].
      split; [congruence |].
      exists (S j). rewrite Hlen, Hlog, length_app. cbn.
      repeat split; try lia. intros He. specialize (Hmax He). lia.
Qed.

End LoopProperties.

(** ** The convergence and divergence scenarios *)

Lemma atom_eq (i r : Z) (m1 n1 t1 m2 n2 t2 : R) (b : Z) :
  m1 = m2 -> n1 = n2 -> t1 = t2 -> Atom i r m1 n1 t1 b = Atom i r m2 n2 t2 b.
Proof. now intros -> -> ->. Qed.

Lemma force_max_single (x : R) : 0 <= x -> force_max_of [x; 0; 0] = Ok x.
Proof.
  intros Hx. unfold force_max_of. cbn [map argmax argmax_from bind].
  rewrite Rabs_R0, (Rabs_pos_eq x) by exact Hx.
  destruct (Rlt_dec x 0); [lra |].
  cbn [nth]. now rewrite Rabs_pos_eq.
Qed.

Lemma norm2_single (x : R) : 0 <= x -> norm2 [x; 0; 0] = x.
Proof.
  intros Hx. unfold norm2. cbn [map fold_left].
  apply sqrt_of_square; [exact Hx | ring].
Qed.

Abbreviation seq_body tol :=
  (loop_body (list R) seq_minimize seq_run0 1 ex_ls 0 1 1
     (zero_matrix 3 3) "dislLGF123" false tol ex_atoms1).
Abbreviation seq_loop tol :=
  (relax_loop (list R) seq_minimize seq_run0 1 ex_ls 0 1 1
     (zero_matrix 3 3) "dislLGF123" false tol ex_atoms1).

(** A pass of the scenario that neither converges nor diverges: two engine
    runs, the next value becomes the force, the data file is rewritten with
    the same coordinates. *)
Lemma seq_body_continue tol x y e log calls npy :
  0 <= x -> ~ x < tol -> x <= 100 ->
  seq_body tol (LoopState _ [x; 0; 0] log (World _ (y :: e) calls ex_atoms1 npy))
  = Ok (None, LoopState _ [y; 0; 0] (log ++ [x])
                (World _ e (S (S calls)) ex_atoms1 npy)).
Proof.
  intros Hx Htol Hle.
  destruct (loop_body_cases (list R) seq_minimize seq_run0 1 ex_ls 0 1 1
              (zero_matrix 3 3) "dislLGF123" false tol ex_atoms1
              (LoopState _ [x; 0; 0] log (World _ (y :: e) calls ex_atoms1 npy)) x)
    as (_ & _ & Hs).
  { now apply force_max_single. }
  rewrite Hs; [| exact Htol | cbn [forces_12]; rewrite norm2_single; lra].
  cbn.
  match goal with
  | |- Ok (None, LoopState _ _ _ (World _ _ _ ?f _)) = _ =>
      replace f with ex_atoms1; [reflexivity |]
  end.
  unfold ex_atoms1. apply f_equal2; [| reflexivity]. apply atom_eq; ring.
Qed.

Lemma seq_body_converged tol x log w :
  0 <= x -> x < tol ->
  seq_body tol (LoopState _ [x; 0; 0] log w)
  = Ok (Some CONVERGED, LoopState _ [x; 0; 0] (log ++ [x]) w).
Proof.
  intros Hx Htol.
  destruct (loop_body_cases (list R) seq_minimize seq_run0 1 ex_ls 0 1 1
              (zero_matrix 3 3) "dislLGF123" false tol ex_atoms1
              (LoopState _ [x; 0; 0] log w) x) as (Hc & _ & _).
  { now apply force_max_single. }
  now rewrite Hc.
Qed.

Lemma seq_body_diverged tol x log w :
  100 < x -> ~ x < tol ->
  seq_body tol (LoopState _ [x; 0; 0] log w)
  = Ok (Some DIVERGED, LoopState _ [x; 0; 0] (log ++ [x]) w).
Proof.
  intros Hx Htol.
  destruct (loop_body_cases (list R) seq_minimize seq_run0 1 ex_ls 0 1 1
              (zero_matrix 3 3) "dislLGF123" false tol ex_atoms1
              (LoopState _ [x; 0; 0] log w) x) as (_ & Hd & _).
  { apply force_max_single. lra. }
  rewrite Hd; [reflexivity | exact Htol |].
  cbn [forces_12]. rewrite norm2_single; lra.
Qed.

Lemma seq_initial_forces (x : R) (e : list R) :
  relaxation_main (list R) seq_minimize seq_run0 1 ex_ls 0 1 1
    (zero_matrix 3 3) "dislLGF123" false (1 / 10) ex_atoms1 51
    (ex_seq_world (x :: e))
  = (r <- seq_loop (1 / 10) 51
            (LoopState _ [x; 0; 0] [] (World _ e 1 ex_atoms1 None)) ;;
     let '(ex, st) := r in Ok (ex, save_forces _ st)).
Proof. reflexivity. Qed.

Lemma seq_loop_S tol k st :
  seq_loop tol (S k) st =
  (r <- seq_body tol st ;;
   match r with
   | (Some e, st') => Ok (e, st')
   | (None, st') => seq_loop tol k st'
   end).
Proof. reflexivity. Qed.

Lemma ex_seq_converges :
  ex_seq_main (1 / 10) 51 [10; 1; 1 / 100]
  = Ok (CONVERGED,
        LoopState _ [1 / 100; 0; 0] [10; 1; 1 / 100]
          (World _ [] 5 ex_atoms1 (Some [10; 1; 1 / 100]))).
Proof.
  unfold ex_seq_main. rewrite seq_initial_forces.
  change 51%nat with (S (S (S 48))).
  rewrite seq_loop_S, seq_body_continue by lra. cbn [bind app].
  rewrite seq_loop_S, seq_body_continue by lra. cbn [bind app].
  rewrite seq_loop_S, seq_body_converged by lra. reflexivity.
Qed.

Lemma ex_seq_diverges :
  ex_seq_main (1 / 10) 51 [200]
  = Ok (DIVERGED,
        LoopState _ [200; 0; 0] [200] (World _ [] 1 ex_atoms1 (Some [200]))).
Proof.
  unfold ex_seq_main. rewrite seq_initial_forces.
  change 51%nat with (S 50).
  rewrite seq_loop_S, seq_body_diverged by lra. reflexivity.
Qed.



(** ** Persistence of the force-evolution log *)

Section LogPersistence.

Variable lammps : Type.
Variable lmp_minimize_run0 :
  lammps_settings -> bool -> list atom -> lammps -> (nat -> nat -> R) * lammps.
Variable lmp_run0 :
  lammps_settings -> bool -> list atom -> lammps -> (nat -> nat -> R) * lammps.
Variable size_123_global : nat.
Variable ls : lammps_settings.
Variables size_1 size_12 size_123 : nat.
Variable G_mnt : matrix.
Variable method : string.
Variable antiplane : bool.
Variable args_ftol : R.
Variable grid : list atom.

Abbreviation loop' :=
  (relax_loop lammps lmp_minimize_run0 lmp_run0 size_123_global ls
     size_1 size_12 size_123 G_mnt method antiplane args_ftol grid).
Abbreviation passes' :=
  (run_passes lammps lmp_minimize_run0 lmp_run0 size_123_global ls
     size_1 size_12 size_123 G_mnt method antiplane args_ftol grid).
Abbreviation main' :=
  (relaxation_main lammps lmp_minimize_run0 lmp_run0 size_123_global ls
     size_1 size_12 size_123 G_mnt method antiplane args_ftol grid).

(** [k] completed passes leave the loop where a run with [k] more iterations
    would be after them; they add [k] values to the log in memory and do not
    touch [forces.npy]. *)
Lemma run_passes_frame k : forall st st',
  passes' k st = Ok st' ->
  forces_npy _ (outside _ st') = forces_npy _ (outside _ st) /\
  length (force_evolution _ st') = (length (force_evolution _ st) + k)%nat /\
  forall j, loop' (k + j) st = loop' j st'.
Proof.
  induction k as [| k IH]; intros st st' H; cbn [run_passes] in H.
  - injection H as <-. repeat split; auto.
  - bind_inv H. destruct a as [[e1 |] st1]; [discriminate |].
    pose proof Ha as Hbody. apply loop_body_frame in Ha.
    destruct Ha as [(fm & _ & Hlog) Hnpy].
    apply IH in H. destruct H as (Hnpy' & Hlen & Hloop).
    split; [congruence |]. split.
    + rewrite Hlen, Hlog, length_app. cbn. lia.
    + intros j. cbn [Nat.add relax_loop]. rewrite Hbody. cbn [bind]. apply Hloop.
Qed.

Lemma relaxation_main_saves maxouteriter w0 e st :
  main' maxouteriter w0 = Ok (e, st) ->
  forces_npy _ (outside _ st) = Some (force_evolution _ st) /\
  (length (force_evolution _ st) <= maxouteriter)%nat.
Proof.
  unfold relaxation_main.
  destruct (lammps_getforces _ _ _ ls antiplane w0) as [forces w1].
  intros H. bind_inv H. bind_inv H. destruct a0 as [e0 st0].
  injection H as <- <-. split; [reflexivity |].
  apply relax_loop_log in Ha0. destruct Ha0 as [_ (j & Hj & Hlen & _)].
  cbn in *. lia.
Qed.

End LogPersistence.

(** C9 (the log is saved once, after the loop).  While the outer loop runs,
    [forces.npy] is not written: after any number of completed passes the
    file is as it was before the loop, although the log in memory has grown
    by one value per pass.  When the loop has ended (by convergence,
    divergence or exhaustion) the log is saved once, and the file then holds
    the values of all the passes performed. *)
Theorem force_log_saved_after_loop :
  (forall (lammps : Type) minimize_run0 run0 size_123_global ls
          size_1 size_12 size_123 G_mnt method antiplane args_ftol grid
          k (st st' : loop_state lammps),
      run_passes lammps minimize_run0 run0 size_123_global ls size_1 size_12
        size_123 G_mnt method antiplane args_ftol grid k st = Ok st' ->
      forces_npy _ (outside _ st') = forces_npy _ (outside _ st) /\
      length (force_evolution _ st') = (length (force_evolution _ st) + k)%nat /\
      forall j,
        relax_loop lammps minimize_run0 run0 size_123_global ls size_1 size_12
          size_123 G_mnt method antiplane args_ftol grid (k + j) st
        = relax_loop lammps minimize_run0 run0 size_123_global ls size_1
            size_12 size_123 G_mnt method antiplane args_ftol grid j st') /\
  (forall (lammps : Type) minimize_run0 run0 size_123_global ls
          size_1 size_12 size_123 G_mnt method antiplane args_ftol grid
          maxouteriter w0 e (st : loop_state lammps),
      relaxation_main lammps minimize_run0 run0 size_123_global ls size_1
        size_12 size_123 G_mnt method antiplane args_ftol grid maxouteriter w0
      = Ok (e, st) ->
      forces_npy _ (outside _ st) = Some (force_evolution _ st) /\
      (length (force_evolution _ st) <= maxouteriter)%nat).
Proof.
  split.
  - intros. eapply run_passes_frame; eauto.
  - intros. eapply relaxation_main_saves; eauto.
Qed.

Lemma ex_seq_passes_1 :
  ex_seq_passes 1
  = Ok (LoopState _ [1; 0; 0] [10] (World _ [1 / 100] 3 ex_atoms1 None)).
Proof.
  unfold ex_seq_passes, ex_seq_state0. cbn [run_passes].
  rewrite seq_body_continue by lra. reflexivity.
Qed.

Lemma ex_seq_passes_2 :
  ex_seq_passes 2
  = Ok (LoopState _ [1 / 100; 0; 0] [10; 1] (World _ [] 5 ex_atoms1 None)).
Proof.
  unfold ex_seq_passes, ex_seq_state0. cbn [run_passes].
  rewrite seq_body_continue by lra. cbn [bind app].
  rewrite seq_body_continue by lra. reflexivity.
Qed.

Lemma force_log_saved_after_loop_witness :
  ex_seq_passes 1
  = Ok (LoopState _ [1; 0; 0] [10] (World _ [1 / 100] 3 ex_atoms1 None)) /\
  forces_npy _ (outside _ (LoopState _ [1; 0; 0] [10]
                             (World _ [1 / 100] 3 ex_atoms1 None)))
  = forces_npy _ (outside _ ex_seq_state0).
Proof.
  split; [exact ex_seq_passes_1 |].
  exact (proj1 (proj1 force_log_saved_after_loop (list R) seq_minimize seq_run0
                  1%nat ex_ls 0%nat 1%nat 1%nat (zero_matrix 3 3)
                  "dislLGF123"%string false (1 / 10) ex_atoms1 1%nat
                  ex_seq_state0 _ ex_seq_passes_1)).
Defined.

(** C9 as stated fails: in the convergence scenario, after the first and
    after the second completed iteration the log in memory holds one and two
    values, and no [forces.npy] has been written. *)
Lemma force_log_not_saved_incrementally :
  ex_seq_passes 1
  = Ok (LoopState _ [1; 0; 0] [10] (World _ [1 / 100] 3 ex_atoms1 None)) /\
  ex_seq_passes 2
  = Ok (LoopState _ [1 / 100; 0; 0] [10; 1] (World _ [] 5 ex_atoms1 None)) /\
  forces_npy _ (World (list R) [1 / 100] 3 ex_atoms1 None) <> Some [10] /\
  forces_npy _ (World (list R) [] 5 ex_atoms1 None) <> Some [10; 1].
Proof.
  split; [exact ex_seq_passes_1 |]. split; [exact ex_seq_passes_2 |].
  split; discriminate.
Qed.

(** ** Loading the persisted LGF *)

(** C6.  When the file stores the three region sizes, loading it raises the
    consistency error exactly when one of them differs from the size of the
    current run; when all three agree the stored matrix is returned. *)
Theorem load_G_checks (f : h5file) (size_1 size_12 size_123 a1 a12 a123 : Z) :
  attr_get (attrs f) "size_1" = Ok a1 ->
  attr_get (attrs f) "size_12" = Ok a12 ->
  attr_get (attrs f) "size_123" = Ok a123 ->
  ((exists e, load_G f size_1 size_12 size_123 = Raise e /\
              is_config_error e = true) <->
   (a1 <> size_1 \/ a12 <> size_12 \/ a123 <> size_123)) /\
  (load_G f size_1 size_12 size_123 = Ok (GF f) <->
   (a1 = size_1 /\ a12 = size_12 /\ a123 = size_123)).
Proof.
  intros H1 H12 H123. unfold load_G. rewrite H1. cbn [bind].
  destruct (Z.eqb_spec a1 size_1) as [E1 | E1]; cbn [negb].
  2:{ split; split.
      - intros _. auto.
      - intros _. eexists. split; reflexivity.
      - discriminate.
      - intros (? & _). contradiction. }
  rewrite H12. cbn [bind].
  destruct (Z.eqb_spec a12 size_12) as [E12 | E12]; cbn [negb].
  2:{ split; split.
      - intros _. auto.
      - intros _. eexists. split; reflexivity.
      - discriminate.
      - intros (_ & ? & _). contradiction. }
  rewrite H123. cbn [bind].
  destruct (Z.eqb_spec a123 size_123) as [E123 | E123]; cbn [negb].
  2:{ split; split.
      - intros _. auto.
      - intros _. eexists. split; reflexivity.
      - discriminate.
      - intros (_ & _ & ?). contradiction. }
  split; split.
  - intros (e & He & _). discriminate.
  - intros [? | [? | ?]]; contradiction.
  - auto.
  - reflexivity.
Qed.

Lemma load_G_checks_witness :
  attr_get (attrs ex_h5) "size_1" = Ok 3%Z /\
  attr_get (attrs ex_h5) "size_12" = Ok 5%Z /\
  attr_get (attrs ex_h5) "size_123" = Ok 9%Z /\
  exists e, load_G ex_h5 4 5 9 = Raise e /\ is_config_error e = true.
Proof.
  assert (H1 : attr_get (attrs ex_h5) "size_1" = Ok 3%Z) by reflexivity.
  assert (H2 : attr_get (attrs ex_h5) "size_12" = Ok 5%Z) by reflexivity.
  assert (H3 : attr_get (attrs ex_h5) "size_123" = Ok 9%Z) by reflexivity.
  split; [exact H1 |]. split; [exact H2 |]. split; [exact H3 |].
  apply (proj2 (proj1 (load_G_checks ex_h5 4 5 9 3 5 9 H1 H2 H3))).
  left. discriminate.
Defined.

(** ** Far-field boundary displacements *)

Lemma mapM_pure {A B : Type} (f : A -> result B) (g : A -> B) (l : list A) :
  (forall x, In x l -> f x = Ok (g x)) -> mapM f l = Ok (map g l).
Proof.
  induction l as [| x l IH]; intros H; cbn; [reflexivity |].
  rewrite (H x) by now left. cbn. rewrite IH; [reflexivity |].
  intros y Hy. apply H. now right.
Qed.

Lemma py_mod_range (x y : R) : 0 < y -> 0 <= py_mod x y < y.
Proof.
  intros Hy. unfold py_mod.
  destruct (base_Int_part (x / y)) as [Hlo Hhi].
  assert (Hx : x = x / y * y) by (field; lra).
  set (q := IZR (Int_part (x / y))) in *.
  split.
  - assert (q * y <= x / y * y) by (apply Rmult_le_compat_r; lra). lra.
  - assert (x / y * y < (q + 1) * y) by (apply Rmult_lt_compat_r; lra). lra.
Qed.

(** The angle handed to the table lookup lies in [0, 2*pi); it is exactly 0
    when the polar angle is within 1e-8 of 0 and otherwise differs from the
    polar angle by a whole number of turns. *)
Lemma normalize_phi_spec (phi : R) :
  0 <= normalize_phi phi < 2 * PI /\
  (Rabs phi <= 1 / 10 ^ 8 -> normalize_phi phi = 0) /\
  (Rabs phi > 1 / 10 ^ 8 ->
   exists z : Z, normalize_phi phi = phi - IZR z * (2 * PI)).
Proof.
  assert (Hpi : 0 < 2 * PI) by (pose proof PI_RGT_0; lra).
  unfold normalize_phi. destruct (Rgt_dec (Rabs phi) (1 / 10 ^ 8)) as [Hgt | Hle].
  - split; [now apply py_mod_range |]. split; [lra |].
    intros _. eexists. reflexivity.
  - split; [lra |]. split; [reflexivity | intros; lra].
Qed.

Lemma nth_error_zeros3 (size k : nat) :
  (k < size)%nat -> nth_error (zeros3 size) k = Some zero3.
Proof.
  intros Hk. unfold zeros3. rewrite nth_error_repeat by exact Hk. reflexivity.
Qed.

Lemma skipn_repeat {A : Type} (x : A) (k n : nat) :
  skipn k (repeat x n) = repeat x (n - k).
Proof.
  revert n. induction k as [| k IH]; intros [| n]; cbn; auto.
Qed.

Lemma firstn_repeat {A : Type} (x : A) (k n : nat) :
  firstn k (repeat x n) = repeat x (Nat.min k n).
Proof.
  revert n. induction k as [| k IH]; intros [| n]; cbn; auto.
  now rewrite IH.
Qed.

Lemma map_fst_combine {A B : Type} (l : list A) (l' : list B) :
  (length l <= length l')%nat -> map fst (combine l l') = l.
Proof.
  revert l'. induction l as [| x l IH]; intros [| y l'] H; cbn in *;
    try reflexivity; try lia.
  rewrite IH; [reflexivity | lia].
Qed.

Lemma vsub_zero3 (v : vec3) : vsub zero3 v = vscale (-1) v.
Proof. destruct v as [[x y] z]. cbn. apply vec3_eq; ring. Qed.

Section FarField.

Variables GEn_t phi_R_grid_t : Type.
Variable G_largeR :
  GEn_t -> phi_R_grid_t -> R -> R -> nat -> R -> R -> R -> mat3.
Variable arctan2 : R -> R -> R.

Abbreviation set_bc := (setBC GEn_t phi_R_grid_t G_largeR arctan2).
Abbreviation ff_row := (far_field_row GEn_t phi_R_grid_t G_largeR arctan2).

Lemma setBC_value i grid size_in GEn phi_R_grid N a0 V t_mag f gi fi :
  nth_error grid i = Some gi ->
  nth_error f i = Some fi ->
  set_bc i grid size_in (length grid) GEn phi_R_grid N a0 V t_mag f
  = Ok (zeros3 (Nat.min size_in (length grid)) ++
        map (ff_row GEn phi_R_grid N a0 V t_mag gi fi) (skipn size_in grid)).
Proof.
  intros Hgi Hfi. unfold setBC, zeros3. rewrite skipn_repeat, firstn_repeat.
  rewrite (mapM_pure _ (fun p => ff_row GEn phi_R_grid N a0 V t_mag gi fi (fst p))).
  2:{ intros [a u] Hin. unfold setBC_row, get_item. rewrite Hgi, Hfi.
      cbn [bind fst snd]. apply in_combine_r, repeat_spec in Hin. subst u.
      rewrite vsub_zero3. reflexivity. }
  cbn [bind]. f_equal.
  rewrite length_map, length_combine, length_skipn, repeat_length, Nat.min_id.
  rewrite skipn_repeat.
  replace (length grid - (size_in + (length grid - size_in)))%nat with 0%nat by lia.
  cbn [repeat]. rewrite app_nil_r. f_equal.
  rewrite <- (map_map fst). f_equal.
  apply map_fst_combine. rewrite length_skipn, repeat_length. lia.
Qed.

End FarField.

(** C4.  For a source atom [i] of the grid carrying the force [fi], [setBC]
    returns an array with one row per atom; the rows below [size_in] are
    zero, and the row of every far-field atom [a] is minus the large-R Green
    function applied to [fi], evaluated at R = a0 times the in-plane distance
    and at the polar angle brought into [0, 2*pi), an angle within 1e-8 of 0
    being replaced by exactly 0. *)
Theorem setBC_far_field (GEn_t phi_R_grid_t : Type)
  (G_largeR : GEn_t -> phi_R_grid_t -> R -> R -> nat -> R -> R -> R -> mat3)
  (arctan2 : R -> R -> R) i grid size_in GEn phi_R_grid N a0 V t_mag f gi fi :
  nth_error grid i = Some gi ->
  nth_error f i = Some fi ->
  exists u,
    setBC GEn_t phi_R_grid_t G_largeR arctan2 i grid size_in (length grid)
      GEn phi_R_grid N a0 V t_mag f = Ok u /\
    length u = length grid /\
    (forall k, (k < size_in)%nat -> (k < length grid)%nat ->
               nth_error u k = Some zero3) /\
    (forall k a, (size_in <= k)%nat -> nth_error grid k = Some a ->
       nth_error u k =
       Some (vscale (-1)
               (mat3_dot
                  (G_largeR GEn phi_R_grid
                     (a0 * sqrt ((m gi - m a) ^ 2 + (n gi - n a) ^ 2))
                     (normalize_phi (arctan2 (n gi - n a) (m gi - m a)))
                     N a0 V t_mag) fi))) /\
    (forall phi,
       0 <= normalize_phi phi < 2 * PI /\
       (Rabs phi <= 1 / 10 ^ 8 -> normalize_phi phi = 0) /\
       (Rabs phi > 1 / 10 ^ 8 ->
        exists z : Z, normalize_phi phi = phi - IZR z * (2 * PI))).
Proof.
  intros Hgi Hfi. eexists. split; [now apply setBC_value with (gi := gi) (fi := fi) |].
  assert (Hz : length (zeros3 (Nat.min size_in (length grid)))
               = Nat.min size_in (length grid))
    by (unfold zeros3; apply repeat_length).
  split; [| split; [| split]].
  - rewrite length_app, Hz, length_map, length_skipn. lia.
  - intros k Hk Hk'. rewrite nth_error_app1 by lia.
    apply nth_error_zeros3. lia.
  - intros k a Hk Ha.
    assert (Hlt : (k < length grid)%nat)
      by (apply nth_error_Some; congruence).
    rewrite nth_error_app2 by lia. rewrite Hz.
    replace (Nat.min size_in (length grid)) with size_in by lia.
    rewrite nth_error_map, nth_error_skipn.
    replace (size_in + (k - size_in))%nat with k by lia.
    rewrite Ha. reflexivity.
  - apply normalize_phi_spec.
Qed.

Lemma setBC_far_field_witness :
  nth_error ex_grid_atoms 0 = Some (Atom 0 1 0 0 0 0) /\
  nth_error [(1, 0, 0)] 0 = Some (1, 0, 0) /\
  exists u,
    setBC unit unit ex_G_largeR ex_arctan2 0 ex_grid_atoms 1 2 tt tt 256 1 1 1
      [(1, 0, 0)] = Ok u /\
    nth_error u 0 = Some zero3 /\
    nth_error u 1 =
    Some (vscale (-1)
            (mat3_dot
               (ex_G_largeR tt tt (1 * sqrt ((0 - 1) ^ 2 + (0 - 0) ^ 2))
                  (normalize_phi (ex_arctan2 (0 - 0) (0 - 1))) 256%nat 1 1 1)
               (1, 0, 0))).
Proof.
  assert (H1 : nth_error ex_grid_atoms 0 = Some (Atom 0 1 0 0 0 0)) by reflexivity.
  assert (H2 : nth_error [(1, 0, 0)] 0 = Some (1, 0, 0)) by reflexivity.
  split; [exact H1 |]. split; [exact H2 |].
  destruct (setBC_far_field unit unit ex_G_largeR ex_arctan2 0%nat ex_grid_atoms
              1%nat tt tt 256%nat 1 1 1 [(1, 0, 0)] _ _ H1 H2)
    as (u & Hu & _ & Hzero & Hff & _).
  exists u. split; [exact Hu |]. split.
  - apply Hzero; cbn; lia.
  - apply (Hff 1%nat (Atom 1 4 1 0 0 0)); [lia | reflexivity].
Defined.

(** ** The assembly loop *)

Lemma mapM_app {A B : Type} (f : A -> result B) (l1 l2 : list A) :
  mapM f (l1 ++ l2) = (x <- mapM f l1 ;; y <- mapM f l2 ;; Ok (x ++ y)).
Proof.
  induction l1 as [| a l1 IH]; cbn.
  - destruct (mapM f l2); reflexivity.
  - destruct (f a); cbn; [| reflexivity]. rewrite IH.
    destruct (mapM f l1); cbn; [| reflexivity].
    destruct (mapM f l2); reflexivity.
Qed.

Lemma slice_0 {A : Type} (l : list A) (k : nat) : slice l 0 k = firstn k l.
Proof. unfold slice. cbn [skipn]. now rewrite Nat.sub_0_r. Qed.

Lemma foldM_app {A S : Type} (f : S -> A -> result S) (l1 l2 : list A) (s : S) :
  foldM f (l1 ++ l2) s = (s1 <- foldM f l1 s ;; foldM f l2 s1).
Proof.
  revert s. induction l1 as [| a l1 IH]; intros s; cbn; [reflexivity |].
  destruct (f s a); cbn; auto.
Qed.

Lemma mapM_all_ok {A B : Type} (f : A -> result B) (l : list A) :
  (forall x, In x l -> is_ok (f x) = true) -> exists ys, mapM f l = Ok ys.
Proof.
  induction l as [| a l IH]; intros H; cbn; [eauto |].
  pose proof (H a (or_introl eq_refl)) as Ha.
  destruct (f a) as [y | e]; [| discriminate]. cbn.
  destruct IH as [ys ->]; [intros x Hx; apply H; now right |].
  cbn. eauto.
Qed.

Lemma consecutive_last (ends : list nat) : forall a d,
  consecutive a ends -> ends <> [] -> (a <= S (last ends d))%nat.
Proof.
  induction ends as [| k ends IH]; intros a d Hc Hne; [congruence |].
  destruct Hc as [Hak Hc]. destruct ends as [| k2 ends]; [exact Hak |].
  cbn [last]. specialize (IH (S k) d Hc). cbn [last] in IH.
  assert (S k <= S (last (k2 :: ends) d))%nat by (apply IH; discriminate).
  cbn [last] in *. lia.
Qed.

Lemma length_replace_nth {A : Type} (l : list A) (i : nat) (v : A) :
  length (replace_nth l i v) = length l.
Proof.
  revert i. induction l as [| x l IH]; intros [| i]; cbn; auto.
Qed.

Lemma length_rows3 (k : nat) : forall l : list R,
  length l = (3 * k)%nat -> length (rows3 l) = k.
Proof.
  induction k as [| k IH]; intros l Hl.
  - destruct l; [reflexivity | discriminate].
  - destruct l as [| x [| y [| z l]]]; cbn in Hl; try lia.
    cbn [rows3 length]. rewrite IH; [reflexivity | lia].
Qed.

Lemma length_ravel (a : list vec3) : length (ravel a) = (3 * length a)%nat.
Proof.
  unfold ravel. induction a as [| [[x y] z] a IH]; cbn [flat_map length app];
    [reflexivity |].
  cbn. rewrite IH. lia.
Qed.

Section AssemblyProperties.

Variables GEn_t phi_R_grid_t : Type.
Variable G_largeR :
  GEn_t -> phi_R_grid_t -> R -> R -> nat -> R -> R -> R -> mat3.
Variable arctan2 : R -> R -> R.
Variable cg : matrix -> list R -> R -> list R * Z.
Variable grid : list atom.
Variables size_123 size_in : nat.
Variable D : matrix.
Variable GEn : GEn_t.
Variable phi_R_grid : phi_R_grid_t.
Variables a0 V t_mag : R.

Abbreviation cforce :=
  (corrected_force GEn_t phi_R_grid_t G_largeR arctan2 grid size_in D GEn
     phi_R_grid a0 V t_mag).
Abbreviation col_step :=
  (column_step GEn_t phi_R_grid_t G_largeR arctan2 cg grid size_123 size_in D
     GEn phi_R_grid a0 V t_mag).
Abbreviation at_step :=
  (atom_step GEn_t phi_R_grid_t G_largeR arctan2 cg grid size_123 size_in D
     GEn phi_R_grid a0 V t_mag).
Abbreviation asm :=
  (assemble GEn_t phi_R_grid_t G_largeR arctan2 cg grid size_123 size_in D
     GEn phi_R_grid a0 V t_mag).
Abbreviation column :=
  (lgf_column GEn_t phi_R_grid_t G_largeR arctan2 cg grid size_123 size_in D
     GEn phi_R_grid a0 V t_mag).
Abbreviation cols_range :=
  (columns_range GEn_t phi_R_grid_t G_largeR arctan2 cg grid size_123 size_in D
     GEn phi_R_grid a0 V t_mag).
Abbreviation logs_range :=
  (log_range GEn_t phi_R_grid_t G_largeR arctan2 cg grid size_in D
     GEn phi_R_grid a0 V t_mag).
Abbreviation batches :=
  (assemble_batches GEn_t phi_R_grid_t G_largeR arctan2 cg grid size_123 size_in D
     GEn phi_R_grid a0 V t_mag).
Abbreviation solver_matrix := (top_left D (3 * size_in) (3 * size_in)).
Abbreviation col_len := (Nat.min (3 * size_123) (3 * size_in)).

Lemma unit_force_length j d f :
  unit_force size_in j d = Ok f -> length f = (3 * size_in)%nat.
Proof.
  unfold unit_force, set_item.
  destruct (j * 3 + d <? length (zeros (3 * size_in)))%nat; [| discriminate].
  intros H. injection H as <-. rewrite length_replace_nth.
  unfold zeros. apply repeat_length.
Qed.

Lemma corrected_force_length j d f :
  cforce j d = Ok f -> length f = (3 * size_in)%nat.
Proof.
  unfold corrected_force. intros H. bind_inv H. bind_inv H. bind_inv H.
  bind_inv H. bind_inv H. apply inplace_length in H.
  rewrite H. eapply unit_force_length; eauto.
Qed.

(** The force of line 155 cannot be formed when the grid has far-field
    atoms and [D] is square of size [3*size_all]: the unit force has
    [3*size_in] entries and the correction [3*size_all]. *)
Lemma corrected_force_shape_mismatch j d :
  (size_in < length grid)%nat ->
  nrows D = (3 * length grid)%nat ->
  ncols D = (3 * length grid)%nat ->
  (j < size_in)%nat -> (d < 3)%nat ->
  cforce j d = Raise (ValueError "operands could not be broadcast together").
Proof.
  intros Hin Hr Hc Hj Hd. unfold corrected_force.
  destruct (unit_force size_in j d) as [f | e] eqn:Hf.
  2:{ unfold unit_force, set_item, zeros in Hf. rewrite repeat_length in Hf.
      replace (j * 3 + d <? 3 * size_in)%nat with true in Hf
        by (symmetry; apply Nat.ltb_lt; lia).
      discriminate. }
  pose proof (unit_force_length _ _ _ Hf) as Hlen. cbn [bind].
  unfold reshape_n3. rewrite Hlen, Nat.eqb_refl. cbn [bind].
  destruct (nth_error grid j) as [gi |] eqn:Hgi.
  2:{ apply nth_error_None in Hgi. lia. }
  destruct (nth_error (rows3 f) j) as [fi |] eqn:Hfi.
  2:{ apply nth_error_None in Hfi. rewrite (length_rows3 size_in) in Hfi; lia. }
  unfold size_all.
  rewrite (setBC_value _ _ G_largeR arctan2 j grid size_in GEn phi_R_grid N a0 V
             t_mag (rows3 f) gi fi Hgi Hfi).
  cbn [bind]. unfold reshape_n.
  assert (Hu : length (ravel (zeros3 (Nat.min size_in (length grid)) ++
                 map (far_field_row GEn_t phi_R_grid_t G_largeR arctan2 GEn
                        phi_R_grid N a0 V t_mag gi fi) (skipn size_in grid)))
               = (3 * length grid)%nat).
  { rewrite length_ravel, length_app, length_map, length_skipn.
    unfold zeros3. rewrite repeat_length. lia. }
  rewrite Hu, Nat.eqb_refl. cbn [bind].
  unfold dot. rewrite Hu, Hc, Nat.eqb_refl. cbn [bind].
  unfold iadd1, inplace. rewrite length_map, length_seq, Hr, Hlen.
  replace (3 * length grid =? 3 * size_in)%nat with false
    by (symmetry; apply Nat.eqb_neq; lia).
  destruct (length grid) as [| [| g]] eqn:Hg; [lia | |]; reflexivity.
Qed.


Lemma nth_replace_nth {A : Type} (l : list A) (i k : nat) (v d : A) :
  (i < length l)%nat ->
  nth k (replace_nth l i v) d = if (k =? i)%nat then v else nth k l d.
Proof.
  revert i k. induction l as [| x l IH]; intros [| i] [| k] Hi; cbn in *;
    try lia; try reflexivity.
  apply IH. lia.
Qed.

Lemma corrected_force_value j d :
  (size_in <= length grid)%nat ->
  nrows D = (3 * size_in)%nat ->
  ncols D = (3 * length grid)%nat ->
  (j < size_in)%nat -> (d < 3)%nat ->
  exists f u_bc Du,
    unit_force size_in j d = Ok f /\
    length f = (3 * size_in)%nat /\
    (forall k, (k < 3 * size_in)%nat ->
               nth k f 0 = if (k =? j * 3 + d)%nat then 1 else 0) /\
    setBC GEn_t phi_R_grid_t G_largeR arctan2 j grid size_in (length grid)
      GEn phi_R_grid N a0 V t_mag (rows3 f) = Ok u_bc /\
    dot D (ravel u_bc) = Ok Du /\
    length Du = (3 * size_in)%nat /\
    cforce j d = Ok (map (fun p : R * R => fst p + snd p) (combine f Du)).
Proof.
  intros Hin Hr Hc Hj Hd.
  assert (Hz : length (zeros (3 * size_in)) = (3 * size_in)%nat)
    by (unfold zeros; apply repeat_length).
  assert (Hf : unit_force size_in j d
               = Ok (replace_nth (zeros (3 * size_in)) (j * 3 + d) 1)).
  { unfold unit_force, set_item. rewrite Hz.
    replace (j * 3 + d <? 3 * size_in)%nat with true
      by (symmetry; apply Nat.ltb_lt; lia).
    reflexivity. }
  set (f := replace_nth (zeros (3 * size_in)) (j * 3 + d) 1) in *.
  assert (Hlen : length f = (3 * size_in)%nat)
    by (subst f; now rewrite length_replace_nth).
  destruct (nth_error grid j) as [gi |] eqn:Hgi.
  2:{ apply nth_error_None in Hgi. lia. }
  destruct (nth_error (rows3 f) j) as [fi |] eqn:Hfi.
  2:{ apply nth_error_None in Hfi. rewrite (length_rows3 size_in) in Hfi; lia. }
  pose proof (setBC_value _ _ G_largeR arctan2 j grid size_in GEn phi_R_grid N a0 V
                t_mag (rows3 f) gi fi Hgi Hfi) as Hbc.
  set (u := zeros3 (Nat.min size_in (length grid)) ++
            map (far_field_row GEn_t phi_R_grid_t G_largeR arctan2 GEn
                   phi_R_grid N a0 V t_mag gi fi) (skipn size_in grid)) in *.
  assert (Hu : length (ravel u) = (3 * length grid)%nat).
  { subst u. rewrite length_ravel, length_app, length_map, length_skipn.
    unfold zeros3. rewrite repeat_length. lia. }
  assert (HDu : dot D (ravel u)
                = Ok (map (fun i : nat => row_dot D i (ravel u)) (seq 0 (nrows D)))).
  { unfold dot. now rewrite Hu, Hc, Nat.eqb_refl. }
  exists f, u, (map (fun i : nat => row_dot D i (ravel u)) (seq 0 (nrows D))).
  split; [exact Hf |]. split; [exact Hlen |]. split.
  { intros k Hk. subst f. rewrite nth_replace_nth by lia.
    destruct (k =? j * 3 + d)%nat; [reflexivity |].
    unfold zeros. apply nth_repeat. }
  split; [exact Hbc |]. split; [exact HDu |].
  split; [now rewrite length_map, length_seq |].
  unfold corrected_force. rewrite Hf. cbn [bind].
  unfold reshape_n3. rewrite Hlen, Nat.eqb_refl. cbn [bind].
  unfold size_all. rewrite Hbc. cbn [bind].
  unfold reshape_n. rewrite Hu, Nat.eqb_refl. cbn [bind].
  rewrite HDu. cbn [bind].
  unfold iadd1, inplace. rewrite length_map, length_seq, Hr, Hlen, Nat.eqb_refl.
  reflexivity.
Qed.

Lemma corrected_force_ok j d :
  (size_in <= length grid)%nat ->
  nrows D = (3 * size_in)%nat ->
  ncols D = (3 * length grid)%nat ->
  (j < size_in)%nat -> (d < 3)%nat ->
  is_ok (cforce j d) = true.
Proof.
  intros Hin Hr Hc Hj Hd.
  destruct (corrected_force_value j d Hin Hr Hc Hj Hd)
    as (f & u & Du & _ & _ & _ & _ & _ & _ & H).
  now rewrite H.
Qed.

(** C2 (for a force-constant matrix with one row per degree of freedom of
    the "in" region).  When [D] has [3*size_in] rows and [3*size_all]
    columns, the force vector handed to the solver for the pair (j,d) is the
    unit force on degree of freedom [3*j+d], of length [3*size_in], plus the
    product of [D] with the flattened boundary displacements of [setBC]. *)
Theorem corrected_force_rectangular j d :
  (size_in <= length grid)%nat ->
  nrows D = (3 * size_in)%nat ->
  ncols D = (3 * length grid)%nat ->
  (j < size_in)%nat -> (d < 3)%nat ->
  exists f u_bc Du,
    unit_force size_in j d = Ok f /\
    length f = (3 * size_in)%nat /\
    (forall k, (k < 3 * size_in)%nat ->
               nth k f 0 = if (k =? j * 3 + d)%nat then 1 else 0) /\
    setBC GEn_t phi_R_grid_t G_largeR arctan2 j grid size_in (length grid)
      GEn phi_R_grid N a0 V t_mag (rows3 f) = Ok u_bc /\
    dot D (ravel u_bc) = Ok Du /\
    length Du = (3 * size_in)%nat /\
    cforce j d = Ok (map (fun p : R * R => fst p + snd p) (combine f Du)).
Proof. exact (corrected_force_value j d). Qed.

(** The solver returns a solution as long as its right-hand side. *)
Hypothesis cg_length : forall A b tol, length (fst (cg A b tol)) = length b.

Lemma column_length j d f :
  cforce j d = Ok f ->
  length (slice (fst (cg solver_matrix f (1 / 10 ^ 8))) 0 (3 * size_123)) = col_len.
Proof.
  intros Hf. unfold slice. cbn [skipn]. rewrite Nat.sub_0_r, length_firstn.
  rewrite cg_length, (corrected_force_length _ _ _ Hf). reflexivity.
Qed.

Lemma column_stack_ok (G0 : list (list R)) (col : list R) :
  Forall (fun c => length c = length col) G0 ->
  column_stack G0 col = Ok (G0 ++ [col]).
Proof.
  intros H. unfold column_stack.
  replace (forallb (fun c : list R => (length c =? length col)%nat) G0) with true;
    [reflexivity |].
  symmetry. apply forallb_forall. intros c Hc. apply Nat.eqb_eq.
  rewrite Forall_forall in H. now apply H.
Qed.

(** One column: whatever status the solver returns, the first [3*size_123]
    entries of its solution become the next column and the status is
    logged; only a failure to form the force vector raises. *)
Lemma column_step_sim LGF_jmin j d st :
  Forall (fun c => length c = col_len) (G st) ->
  (j = LGF_jmin -> d = 0%nat -> G st = []) ->
  match cforce j d with
  | Ok f =>
      col_step LGF_jmin j st d
      = Ok (AsmState
              (G st ++ [slice (fst (cg solver_matrix f (1 / 10 ^ 8))) 0 (3 * size_123)])
              (log st ++ [Debug_solve (snd (cg solver_matrix f (1 / 10 ^ 8)));
                          Info_atom j d])
              (Gfile st))
  | Raise e => col_step LGF_jmin j st d = Raise e
  end.
Proof.
  intros Hcols Hfirst. unfold column_step.
  destruct (cforce j d) as [f | e] eqn:Hf; cbn [bind]; [| reflexivity].
  pose proof (column_length j d f Hf) as Hlen.
  destruct (cg solver_matrix f (1 / 10 ^ 8)) as [uf conv] eqn:Hcg.
  cbn [fst snd] in *.
  destruct ((j =? LGF_jmin)%nat && (d =? 0)%nat) eqn:Hb.
  - apply andb_true_iff in Hb. destruct Hb as [Hj Hd].
    apply Nat.eqb_eq in Hj, Hd. rewrite (Hfirst Hj Hd). cbn [bind app].
    now rewrite <- app_assoc.
  - rewrite column_stack_ok.
    + cbn [bind]. now rewrite <- app_assoc.
    + rewrite Hlen. exact Hcols.
Qed.

(** The three columns of one atom and the save that follows. *)
Lemma atom_step_sim LGF_jmin j st :
  Forall (fun c => length c = col_len) (G st) ->
  (j = LGF_jmin -> G st = []) ->
  match at_step LGF_jmin st j with
  | Ok st' =>
      exists cols recs,
        cols_range j 1 = Ok cols /\ logs_range j 1 = Ok recs /\
        G st' = G st ++ cols /\ log st' = log st ++ recs /\
        length cols = 3%nat /\
        Forall (fun c => length c = col_len) (G st') /\
        Gfile st' = Some (G st')
  | Raise e => cols_range j 1 = Raise e
  end.
Proof.
  intros Hcols Hfirst.
  unfold atom_step, columns_range, log_range, dof_pairs, lgf_column, solve_status.
  cbn [seq flat_map map app mapM foldM fst snd].
  pose proof column_length as Hlen.
  pose proof (column_step_sim LGF_jmin j 0 st Hcols) as H0.
  destruct (cforce j 0) as [f0 | e0] eqn:Hf0;
    [rewrite H0 by auto | rewrite H0 by auto; reflexivity].
  cbn [bind].
  pose proof (Hlen j 0%nat f0 Hf0) as Hl0.
  match goal with
  | |- context [col_step _ _ ?s 1%nat] => set (st1 := s)
  end.
  assert (Hc1 : Forall (fun c => length c = col_len) (G st1)).
  { subst st1. cbn [G]. apply Forall_app. split; [exact Hcols |].
    constructor; [| constructor]. exact Hl0. }
  pose proof (column_step_sim LGF_jmin j 1 st1 Hc1) as H1.
  destruct (cforce j 1) as [f1 | e1] eqn:Hf1;
    [rewrite H1 by (intros; discriminate)
    | rewrite H1 by (intros; discriminate); reflexivity].
  cbn [bind].
  pose proof (Hlen j 1%nat f1 Hf1) as Hl1.
  match goal with
  | |- context [col_step _ _ ?s 2%nat] => set (st2 := s)
  end.
  assert (Hc2 : Forall (fun c => length c = col_len) (G st2)).
  { subst st2. cbn [G]. apply Forall_app. split; [exact Hc1 |].
    constructor; [| constructor]. exact Hl1. }
  pose proof (column_step_sim LGF_jmin j 2 st2 Hc2) as H2.
  destruct (cforce j 2) as [f2 | e2] eqn:Hf2;
    [rewrite H2 by (intros; discriminate)
    | rewrite H2 by (intros; discriminate); reflexivity].
  cbn [bind G log Gfile].
  pose proof (Hlen j 2%nat f2 Hf2) as Hl2.
  eexists. eexists. split; [reflexivity |]. split; [reflexivity |].
  subst st2 st1. cbn [G log concat app].
  repeat split.
  - rewrite <- !app_assoc. reflexivity.
  - rewrite <- !app_assoc. reflexivity.
  - apply Forall_app. split; [exact Hc2 |]. constructor; [| constructor]. exact Hl2.
Qed.


Lemma dof_pairs_app a l1 l2 :
  dof_pairs a (l1 + l2) = dof_pairs a l1 ++ dof_pairs (a + l1) l2.
Proof. unfold dof_pairs. now rewrite seq_app, flat_map_app. Qed.

Lemma columns_range_app a l1 l2 :
  cols_range a (l1 + l2) =
  (c1 <- cols_range a l1 ;; c2 <- cols_range (a + l1) l2 ;; Ok (c1 ++ c2)).
Proof. unfold columns_range. now rewrite dof_pairs_app, mapM_app. Qed.

Lemma log_range_app a l1 l2 :
  logs_range a (l1 + l2) =
  (r1 <- logs_range a l1 ;; r2 <- logs_range (a + l1) l2 ;; Ok (r1 ++ r2)).
Proof.
  unfold log_range. rewrite dof_pairs_app, mapM_app.
  destruct (mapM _ (dof_pairs a l1)) as [x | e]; cbn [bind]; [| reflexivity].
  destruct (mapM _ (dof_pairs (a + l1) l2)) as [y | e]; cbn [bind]; [| reflexivity].
  now rewrite concat_app.
Qed.

Lemma in_dof_pairs a len j d :
  In (j, d) (dof_pairs a len) -> (a <= j < a + len)%nat /\ (d < 3)%nat.
Proof.
  unfold dof_pairs. rewrite in_flat_map. intros (j' & Hj' & Hin).
  apply in_seq in Hj'. apply in_map_iff in Hin. destruct Hin as (d' & Heq & Hd').
  injection Heq as <- <-. apply in_seq in Hd'. lia.
Qed.

(** The loop over the atoms [a], [a+1], ... of a run that started at
    [LGF_jmin]: it appends the columns and log records of the pairs in
    order, and raises exactly when a force vector cannot be formed. *)
Lemma assemble_sim LGF_jmin : forall len a st,
  Forall (fun c => length c = col_len) (G st) ->
  (a = LGF_jmin -> G st = []) ->
  (LGF_jmin <= a)%nat ->
  match foldM (at_step LGF_jmin) (seq a len) st with
  | Ok st' =>
      exists cols recs,
        cols_range a len = Ok cols /\ logs_range a len = Ok recs /\
        G st' = G st ++ cols /\ log st' = log st ++ recs /\
        length cols = (3 * len)%nat /\
        Forall (fun c => length c = col_len) (G st') /\
        Gfile st' = (if (len =? 0)%nat then Gfile st else Some (G st'))
  | Raise e => cols_range a len = Raise e
  end.
Proof.
  induction len as [| len IH]; intros a st Hcols Hfirst Hle.
  - cbn. exists [], []. rewrite !app_nil_r. repeat split; auto.
  - cbn [seq foldM].
    change (S len) with (1 + len)%nat.
    rewrite columns_range_app, log_range_app, Nat.add_1_r.
    pose proof (atom_step_sim LGF_jmin a st Hcols Hfirst) as Hat.
    destruct (at_step LGF_jmin st a) as [st1 | e]; cbn [bind].
    2:{ rewrite Hat. reflexivity. }
    destruct Hat as (c1 & r1 & Hc1 & Hr1 & HG1 & Hl1 & Hn1 & Hok1 & Hf1).
    rewrite Hc1, Hr1. cbn [bind].
    assert (Hne : S a = LGF_jmin -> G st1 = []) by lia.
    specialize (IH (S a) st1 Hok1 Hne ltac:(lia)).
    destruct (foldM (at_step LGF_jmin) (seq (S a) len) st1) as [st2 | e].
    2:{ rewrite IH. reflexivity. }
    destruct IH as (c2 & r2 & Hc2 & Hr2 & HG2 & Hl2 & Hn2 & Hok2 & Hf2).
    rewrite Hc2, Hr2. cbn [bind].
    exists (c1 ++ c2), (r1 ++ r2).
    split; [reflexivity |]. split; [reflexivity |].
    split; [rewrite HG2, HG1; now rewrite app_assoc |].
    split; [rewrite Hl2, Hl1; now rewrite app_assoc |].
    split; [rewrite length_app; lia |].
    split; [exact Hok2 |].
    cbn [Nat.eqb Nat.add]. rewrite Hf2. destruct (len =? 0)%nat eqn:E; [| reflexivity].
    apply Nat.eqb_eq in E. subst len. cbn in Hc2. injection Hc2 as <-.
    rewrite app_nil_r in HG2. now rewrite HG2.
Qed.

Lemma G_of_assemble LGF_jmin LGF_jmax file0 :
  G_of (asm LGF_jmin LGF_jmax file0) = cols_range LGF_jmin (LGF_jmax + 1 - LGF_jmin).
Proof.
  unfold assemble, assemble_from, G_of.
  pose proof (assemble_sim LGF_jmin (LGF_jmax + 1 - LGF_jmin) LGF_jmin
                (AsmState [] [] file0)) as H.
  cbn [G] in H. specialize (H (Forall_nil _) (fun _ => eq_refl) (le_n _)).
  destruct (foldM _ _ _) as [st | e]; cbn [bind].
  - destruct H as (cols & recs & Hc & _ & HG & _). now rewrite Hc, HG.
  - now rewrite H.
Qed.


Lemma G_of_assemble_split LGF_jmin k LGF_jmax file0 file1 :
  (LGF_jmin <= S k)%nat -> (k <= LGF_jmax)%nat ->
  G_of (asm LGF_jmin LGF_jmax file0) =
  (G1 <- G_of (asm LGF_jmin k file0) ;;
   G2 <- G_of (asm (S k) LGF_jmax file1) ;;
   Ok (G1 ++ G2)).
Proof.
  intros H1 H2. rewrite !G_of_assemble.
  replace (LGF_jmax + 1 - LGF_jmin)%nat
    with ((k + 1 - LGF_jmin) + (LGF_jmax + 1 - S k))%nat by lia.
  rewrite columns_range_app.
  replace (LGF_jmin + (k + 1 - LGF_jmin))%nat with (S k) by lia.
  reflexivity.
Qed.

Lemma assemble_batches_whole (ends : list nat) : forall LGF_jmin LGF_jmax,
  consecutive LGF_jmin ends -> ends <> [] -> last ends 0%nat = LGF_jmax ->
  batches LGF_jmin ends = G_of (asm LGF_jmin LGF_jmax None).
Proof.
  induction ends as [| k ends IH]; intros LGF_jmin LGF_jmax Hc Hne Hlast;
    [congruence |].
  destruct Hc as [Hk Hc]. cbn [assemble_batches].
  destruct ends as [| k2 ends].
  - cbn in Hlast. subst k. cbn [assemble_batches bind].
    destruct (G_of (asm LGF_jmin LGF_jmax None)); cbn [bind]; [| reflexivity].
    now rewrite app_nil_r.
  - assert (Hlast' : last (k2 :: ends) 0%nat = LGF_jmax) by exact Hlast.
    rewrite (IH (S k) LGF_jmax Hc ltac:(discriminate) Hlast').
    pose proof (consecutive_last (k2 :: ends) (S k) 0%nat Hc ltac:(discriminate)) as Hle.
    rewrite Hlast' in Hle.
    symmetry. apply G_of_assemble_split; lia.
Qed.

Lemma assemble_checkpoint LGF_jmin k LGF_jmax file0 st1 :
  (LGF_jmin <= k)%nat -> (k <= LGF_jmax)%nat ->
  asm LGF_jmin k file0 = Ok st1 ->
  Gfile st1 = Some (G st1) /\
  asm LGF_jmin LGF_jmax file0 =
  foldM (at_step LGF_jmin) (seq (S k) (LGF_jmax - k)) st1.
Proof.
  intros H1 H2 Hst. split.
  - unfold assemble, assemble_from in Hst.
    pose proof (assemble_sim LGF_jmin (k + 1 - LGF_jmin) LGF_jmin
                  (AsmState [] [] file0)) as H.
    cbn [G] in H. specialize (H (Forall_nil _) (fun _ => eq_refl) (le_n _)).
    rewrite Hst in H. destruct H as (cols & recs & _ & _ & _ & _ & _ & _ & Hf).
    replace (k + 1 - LGF_jmin =? 0)%nat with false in Hf
      by (symmetry; apply Nat.eqb_neq; lia).
    exact Hf.
  - unfold assemble, assemble_from in *.
    replace (LGF_jmax + 1 - LGF_jmin)%nat
      with ((k + 1 - LGF_jmin) + (LGF_jmax - k))%nat by lia.
    rewrite seq_app, foldM_app, Hst. cbn [bind].
    replace (LGF_jmin + (k + 1 - LGF_jmin))%nat with (S k) by lia.
    reflexivity.
Qed.

Lemma assemble_result LGF_jmin LGF_jmax file0 st :
  asm LGF_jmin LGF_jmax file0 = Ok st ->
  cols_range LGF_jmin (LGF_jmax + 1 - LGF_jmin) = Ok (G st) /\
  length (G st) = (3 * (LGF_jmax + 1 - LGF_jmin))%nat /\
  ((LGF_jmin <= LGF_jmax)%nat -> Gfile st = Some (G st)).
Proof.
  intros Hst. unfold assemble, assemble_from in Hst.
  pose proof (assemble_sim LGF_jmin (LGF_jmax + 1 - LGF_jmin) LGF_jmin
                (AsmState [] [] file0)) as H.
  cbn [G] in H. specialize (H (Forall_nil _) (fun _ => eq_refl) (le_n _)).
  rewrite Hst in H. destruct H as (cols & recs & Hc & _ & HG & _ & Hn & _ & Hf).
  cbn [app] in HG. subst cols. split; [exact Hc |]. split; [exact Hn |].
  intros Hle.
  replace (LGF_jmax + 1 - LGF_jmin =? 0)%nat with false in Hf
    by (symmetry; apply Nat.eqb_neq; lia).
  exact Hf.
Qed.


(** C7.  For a column whose force vector could be formed, the loop body
    records the first [3*size_123] entries of the solution as the next
    column and logs the status, whatever the status is; and when the force
    vectors of a range can all be formed the run completes with three
    columns per atom and the status of every solve in the log. *)
Theorem solver_status_never_halts :
  (forall LGF_jmin j d st f,
      cforce j d = Ok f ->
      Forall (fun c => length c = col_len) (G st) ->
      (j = LGF_jmin -> d = 0%nat -> G st = []) ->
      col_step LGF_jmin j st d
      = Ok (AsmState
              (G st ++ [firstn (3 * size_123) (fst (cg solver_matrix f (1 / 10 ^ 8)))])
              (log st ++ [Debug_solve (snd (cg solver_matrix f (1 / 10 ^ 8)));
                          Info_atom j d])
              (Gfile st))) /\
  (forall LGF_jmin LGF_jmax file0,
      (forall j d, (LGF_jmin <= j <= LGF_jmax)%nat -> (d < 3)%nat ->
                   is_ok (cforce j d) = true) ->
      exists st,
        asm LGF_jmin LGF_jmax file0 = Ok st /\
        cols_range LGF_jmin (LGF_jmax + 1 - LGF_jmin) = Ok (G st) /\
        logs_range LGF_jmin (LGF_jmax + 1 - LGF_jmin) = Ok (log st) /\
        length (G st) = (3 * (LGF_jmax + 1 - LGF_jmin))%nat).
Proof.
  split.
  - intros LGF_jmin j d st f Hf Hcols Hfirst.
    pose proof (column_step_sim LGF_jmin j d st Hcols Hfirst) as H.
    rewrite Hf in H. rewrite H. now rewrite slice_0.
  - intros LGF_jmin LGF_jmax file0 Hok.
    unfold assemble, assemble_from.
    pose proof (assemble_sim LGF_jmin (LGF_jmax + 1 - LGF_jmin) LGF_jmin
                  (AsmState [] [] file0)) as H.
    cbn [G log] in H. specialize (H (Forall_nil _) (fun _ => eq_refl) (le_n _)).
    destruct (foldM _ _ _) as [st | e].
    + destruct H as (cols & recs & Hc & Hr & HG & Hl & Hn & _).
      exists st. cbn [app] in HG, Hl. subst cols recs. repeat split; auto.
    + exfalso.
      destruct (mapM_all_ok (fun p : nat * nat => column (fst p) (snd p))
                  (dof_pairs LGF_jmin (LGF_jmax + 1 - LGF_jmin))) as [ys Hys].
      * intros [j d] Hin. apply in_dof_pairs in Hin. cbn [fst snd].
        specialize (Hok j d ltac:(lia) ltac:(lia)). unfold lgf_column.
        destruct (cforce j d); [reflexivity | discriminate].
      * unfold columns_range in H. congruence.
Qed.

End AssemblyProperties.

Lemma ex_cg_length (A : matrix) (b : list R) (tol : R) :
  length (fst (ex_cg A b tol)) = length b.
Proof. reflexivity. Qed.

Lemma corrected_force_rectangular_witness :
  (1 <= length ex_grid_atoms)%nat /\
  nrows ex_D36 = (3 * 1)%nat /\
  ncols ex_D36 = (3 * length ex_grid_atoms)%nat /\
  (0 < 1)%nat /\ (0 < 3)%nat /\
  exists f u_bc Du,
    unit_force 1 0 0 = Ok f /\
    length f = (3 * 1)%nat /\
    (forall k, (k < 3 * 1)%nat ->
               nth k f 0 = if (k =? 0 * 3 + 0)%nat then 1 else 0) /\
    setBC unit unit ex_G_largeR ex_arctan2 0 ex_grid_atoms 1
      (length ex_grid_atoms) tt tt N 1 1 1 (rows3 f) = Ok u_bc /\
    dot ex_D36 (ravel u_bc) = Ok Du /\
    length Du = (3 * 1)%nat /\
    corrected_force unit unit ex_G_largeR ex_arctan2 ex_grid_atoms 1 ex_D36
      tt tt 1 1 1 0 0
    = Ok (map (fun p : R * R => fst p + snd p) (combine f Du)).
Proof.
  assert (H1 : (1 <= length ex_grid_atoms)%nat) by (cbn; lia).
  assert (H2 : nrows ex_D36 = (3 * 1)%nat) by reflexivity.
  assert (H3 : ncols ex_D36 = (3 * length ex_grid_atoms)%nat) by reflexivity.
  assert (H4 : (0 < 1)%nat) by lia.
  assert (H5 : (0 < 3)%nat) by lia.
  split; [exact H1 |]. split; [exact H2 |]. split; [exact H3 |].
  split; [exact H4 |]. split; [exact H5 |].
  exact (corrected_force_rectangular unit unit ex_G_largeR ex_arctan2
           ex_grid_atoms 1%nat ex_D36 tt tt 1 1 1 0%nat 0%nat H1 H2 H3 H4 H5).
Defined.

(** C2 as stated fails: for two atoms of which one lies in the "in" region
    and a square force-constant matrix of size [3*size_all = 6], the unit
    force has 3 entries, the correction has 6, and the addition of line 155
    raises. *)
Lemma corrected_force_square_raises :
  (1 <= length ex_grid_atoms)%nat /\
  nrows ex_D66 = (3 * length ex_grid_atoms)%nat /\
  ncols ex_D66 = (3 * length ex_grid_atoms)%nat /\
  unit_force 1 0 0 = Ok [1; 0; 0] /\
  corrected_force unit unit ex_G_largeR ex_arctan2 ex_grid_atoms 1 ex_D66
    tt tt 1 1 1 0 0
  = Raise (ValueError "operands could not be broadcast together").
Proof.
  split; [cbn; lia |]. split; [reflexivity |]. split; [reflexivity |].
  split; [reflexivity |].
  apply corrected_force_shape_mismatch; cbn; lia.
Qed.

Lemma solver_status_never_halts_witness :
  (forall A b tol, length (fst (ex_cg A b tol)) = length b) /\
  exists st,
    assemble unit unit ex_G_largeR ex_arctan2 ex_cg ex_grid6 5 5 ex_D15_18
      tt tt 1 1 1 2 4 None = Ok st /\
    columns_range unit unit ex_G_largeR ex_arctan2 ex_cg ex_grid6 5 5 ex_D15_18
      tt tt 1 1 1 2 (4 + 1 - 2) = Ok (G st) /\
    log_range unit unit ex_G_largeR ex_arctan2 ex_cg ex_grid6 5 ex_D15_18
      tt tt 1 1 1 2 (4 + 1 - 2) = Ok (log st) /\
    length (G st) = (3 * (4 + 1 - 2))%nat.
Proof.
  split; [exact ex_cg_length |].
  apply (proj2 (solver_status_never_halts unit unit ex_G_largeR ex_arctan2 ex_cg
                  ex_grid6 5%nat 5%nat ex_D15_18 tt tt 1 1 1 ex_cg_length)).
  intros j d Hj Hd. apply corrected_force_ok; cbn; lia.
Defined.

(** * Further properties of the relaxation script *)

(** ** The LGF update on well-shaped arrays *)

Lemma length_slice {A : Type} (l : list A) (lo hi : nat) :
  length (slice l lo hi) = Nat.min (hi - lo) (length l - lo).
Proof. unfold slice. now rewrite length_firstn, length_skipn. Qed.

Lemma reshape_n_ok (k : nat) (l : list R) :
  length l = k -> reshape_n k l = Ok l.
Proof. intros H. unfold reshape_n. now rewrite H, Nat.eqb_refl. Qed.

Lemma reshape_n3_ok (k : nat) (l : list R) :
  length l = (3 * k)%nat -> reshape_n3 k l = Ok (rows3 l).
Proof. intros H. unfold reshape_n3. now rewrite H, Nat.eqb_refl. Qed.

Lemma dot_ok (M : matrix) (v : list R) :
  ncols M = length v ->
  dot M v = Ok (map (fun i : nat => row_dot M i v) (seq 0 (nrows M))).
Proof. intros H. unfold dot. now rewrite H, Nat.eqb_refl. Qed.

Lemma inplace_ok {A : Type} (op : A -> A -> A) (a b : list A) :
  length b = length a ->
  inplace op a b = Ok (map (fun p : A * A => op (fst p) (snd p)) (combine a b)).
Proof. intros H. unfold inplace. now rewrite H, Nat.eqb_refl. Qed.

Lemma coupling_forces_ok (size_1 size_12 : nat) (forces : list vec3) :
  (size_1 <= size_12)%nat -> (size_12 <= length forces)%nat ->
  coupling_forces size_1 size_12 forces
  = Ok (ravel (slice forces size_1 size_12)) /\
  length (ravel (slice forces size_1 size_12)) = (3 * (size_12 - size_1))%nat.
Proof.
  intros H1 H2.
  assert (Hlen : length (ravel (slice forces size_1 size_12))
                 = (3 * (size_12 - size_1))%nat).
  { rewrite length_ravel, length_slice. lia. }
  split; [| exact Hlen].
  unfold coupling_forces.
  replace (size_12 <? size_1)%nat with false by (symmetry; apply Nat.ltb_ge; lia).
  now apply reshape_n_ok.
Qed.

Lemma lgf_update_shapes size_1 size_12 size_123 G method maxdisp
  grid forces :
  (size_1 <= size_12)%nat -> (size_12 <= size_123)%nat ->
  nrows G = (3 * size_123)%nat ->
  ncols G = (3 * (size_12 - size_1))%nat ->
  length grid = size_123 -> length forces = size_123 ->
  (is_partial_method method = true ->
   exists grid', lgf_update size_1 size_12 size_123 G method maxdisp grid forces
                 = Ok grid' /\ length grid' = size_123) /\
  (is_full_method method = true -> (0 < size_123)%nat ->
   exists grid', lgf_update size_1 size_12 size_123 G method maxdisp grid forces
                 = Ok grid' /\ length grid' = size_123) /\
  (is_full_method method = true -> size_123 = 0%nat ->
   lgf_update size_1 size_12 size_123 G method maxdisp grid forces
   = Raise (ValueError "max() arg is an empty sequence")).
Proof.
  intros H1 H2 Hr Hc Hg Hf.
  destruct (coupling_forces_ok size_1 size_12 forces H1 ltac:(lia)) as [Hcf Hlen].
  split; [| split].
  - intros Hp. rewrite lgf_update_partial by exact Hp. rewrite Hcf. cbn [bind].
    unfold partial_neg_disp.
    rewrite dot_ok by (cbn [rows_from ncols]; lia). cbn [bind].
    replace (size_123 <? size_1)%nat with false
      by (symmetry; apply Nat.ltb_ge; lia).
    rewrite reshape_n3_ok
      by (rewrite !length_map, length_seq; cbn [rows_from nrows]; lia).
    cbn [bind]. unfold isub3. rewrite inplace_ok.
    + cbn [bind]. eexists. split; [reflexivity |].
      rewrite length_app, length_firstn, length_map, length_combine,
        length_skipn, (length_rows3 (size_123 - size_1)).
      * lia.
      * rewrite !length_map, length_seq. cbn [rows_from nrows]. lia.
    + rewrite length_skipn, (length_rows3 (size_123 - size_1)); [lia |].
      rewrite !length_map, length_seq. cbn [rows_from nrows]. lia.
  - intros Hm Hpos. unfold lgf_update. rewrite Hcf. cbn [bind]. rewrite Hm.
    unfold full_disp. rewrite dot_ok by lia. cbn [bind].
    rewrite reshape_n3_ok by (rewrite length_map, length_seq; lia). cbn [bind].
    set (disp := rows3 (map _ (seq 0 (nrows G)))).
    assert (Hd : length disp = size_123).
    { subst disp. apply length_rows3. rewrite length_map, length_seq. lia. }
    destruct (disp_max_spec disp) as (dm & Hdm & _).
    { intros E. rewrite E in Hd. cbn in Hd. lia. }
    rewrite Hdm. cbn [bind]. unfold iadd3. rewrite inplace_ok.
    + eexists. split; [reflexivity |].
      rewrite length_map, length_combine, length_map. lia.
    + rewrite length_map. lia.
  - intros Hm H0. rewrite H0 in Hr |- *. unfold lgf_update. rewrite Hcf.
    cbn [bind]. rewrite Hm. unfold full_disp. rewrite dot_ok by lia.
    cbn [bind]. rewrite Hr. reflexivity.
Qed.

(** The update on arrays of the shapes the main program builds: it returns
    an array with as many rows as the grid, except that the full update of
    an empty region fails on the maximum of an empty sequence. *)
Theorem lgf_update_well_shaped size_1 size_12 size_123 G method maxdisp
  grid forces :
  (size_1 <= size_12)%nat -> (size_12 <= size_123)%nat ->
  nrows G = (3 * size_123)%nat ->
  ncols G = (3 * (size_12 - size_1))%nat ->
  length grid = size_123 -> length forces = size_123 ->
  (is_partial_method method = true ->
   exists grid', lgf_update size_1 size_12 size_123 G method maxdisp grid forces
                 = Ok grid' /\ length grid' = size_123) /\
  (is_full_method method = true -> (0 < size_123)%nat ->
   exists grid', lgf_update size_1 size_12 size_123 G method maxdisp grid forces
                 = Ok grid' /\ length grid' = size_123) /\
  (is_full_method method = true -> size_123 = 0%nat ->
   lgf_update size_1 size_12 size_123 G method maxdisp grid forces
   = Raise (ValueError "max() arg is an empty sequence")).
Proof.
  exact (lgf_update_shapes size_1 size_12 size_123 G method maxdisp grid forces).
Qed.

Lemma lgf_update_well_shaped_witness :
  (0 <= 1)%nat /\ (1 <= 2)%nat /\
  nrows ex_G_700_100 = (3 * 2)%nat /\ ncols ex_G_700_100 = (3 * (1 - 0))%nat /\
  length ex_grid2 = 2%nat /\ length ex_forces2 = 2%nat /\
  exists grid', lgf_update 0 1 2 ex_G_700_100 "dislLGF123" 100 ex_grid2 ex_forces2
                = Ok grid' /\ length grid' = 2%nat.
Proof.
  assert (H1 : (0 <= 1)%nat) by lia.
  assert (H2 : (1 <= 2)%nat) by lia.
  assert (H3 : nrows ex_G_700_100 = (3 * 2)%nat) by reflexivity.
  assert (H4 : ncols ex_G_700_100 = (3 * (1 - 0))%nat) by reflexivity.
  assert (H5 : length ex_grid2 = 2%nat) by reflexivity.
  assert (H6 : length ex_forces2 = 2%nat) by reflexivity.
  repeat (split; [assumption |]).
  apply (proj1 (proj2 (lgf_update_well_shaped 0 1 2 ex_G_700_100
                         "dislLGF123"%string 100 ex_grid2 ex_forces2
                         H1 H2 H3 H4 H5 H6))).
  - reflexivity.
  - lia.
Defined.

(** ** Vanishing coupling forces *)

Lemma fold_left_Rplus_zeros (l : list R) (a : R) :
  (forall x, In x l -> x = 0) -> fold_left Rplus l a = a.
Proof.
  revert a. induction l as [| y l IH]; intros a H; cbn; [reflexivity |].
  rewrite IH by (intros x Hx; apply H; now right).
  rewrite (H y) by now left. ring.
Qed.

Lemma row_dot_zeros (M : matrix) (i : nat) (v : list R) :
  (forall x, In x v -> x = 0) -> row_dot M i v = 0.
Proof.
  intros H. unfold row_dot. apply fold_left_Rplus_zeros.
  intros x Hx. apply in_map_iff in Hx. destruct Hx as (k & <- & _).
  assert (Hk : nth k v 0 = 0).
  { destruct (nth_in_or_default k v 0) as [Hin | ->]; [now apply H | reflexivity]. }
  rewrite Hk. ring.
Qed.

Lemma ravel_zeros (a : list vec3) :
  (forall u, In u a -> u = zero3) -> forall x, In x (ravel a) -> x = 0.
Proof.
  intros H x Hx. unfold ravel in Hx. apply in_flat_map in Hx.
  destruct Hx as (u & Hu & Hx). rewrite (H u Hu) in Hx. cbn in Hx.
  destruct Hx as [<- | [<- | [<- | []]]]; reflexivity.
Qed.

Lemma map_zeros {A : Type} (f : A -> R) (l : list A) :
  (forall x, f x = 0) -> map f l = zeros (length l).
Proof.
  intros H. unfold zeros. induction l as [| x l IH]; cbn; [reflexivity |].
  now rewrite H, IH.
Qed.

Lemma rows3_zeros (k : nat) : rows3 (zeros (3 * k)) = zeros3 k.
Proof.
  unfold zeros, zeros3. induction k as [| k IH]; [reflexivity |].
  replace (3 * S k)%nat with (S (S (S (3 * k)))) by lia.
  cbn [repeat rows3]. now rewrite IH.
Qed.

Lemma inplace_zeros {A : Type} (op : A -> A -> A) (z : A) (a : list A) :
  (forall x, op x z = x) -> inplace op a (repeat z (length a)) = Ok a.
Proof.
  intros Hop. rewrite inplace_ok by apply repeat_length. f_equal.
  induction a as [| x a IH]; cbn; [reflexivity |]. now rewrite Hop, IH.
Qed.

Lemma vadd_zero3 (u : vec3) : vadd u zero3 = u.
Proof. destruct u as [[a b] c]. cbn. apply vec3_eq; ring. Qed.

Lemma vsub_zero3_r (u : vec3) : vsub u zero3 = u.
Proof. destruct u as [[a b] c]. cbn. apply vec3_eq; ring. Qed.

Lemma norm3_zero3 : norm3 zero3 = 0.
Proof. unfold norm3. apply sqrt_of_square; [lra | cbn; ring]. Qed.

(** When the forces on the coupling region vanish the LGF update leaves
    every coordinate as it is, under either family of methods. *)
Theorem lgf_update_zero_forces size_1 size_12 size_123 G method maxdisp
  grid forces :
  (size_1 <= size_12)%nat -> (size_12 <= size_123)%nat ->
  nrows G = (3 * size_123)%nat ->
  ncols G = (3 * (size_12 - size_1))%nat ->
  length grid = size_123 -> length forces = size_123 ->
  (forall u, In u (slice forces size_1 size_12) -> u = zero3) ->
  (is_partial_method method = true ->
   lgf_update size_1 size_12 size_123 G method maxdisp grid forces = Ok grid) /\
  (is_full_method method = true -> (0 < size_123)%nat -> 0 < maxdisp ->
   lgf_update size_1 size_12 size_123 G method maxdisp grid forces = Ok grid).
Proof.
  intros H1 H2 Hr Hc Hg Hf Hz.
  destruct (coupling_forces_ok size_1 size_12 forces H1 ltac:(lia)) as [Hcf Hlen].
  pose proof (ravel_zeros _ Hz) as Hz2.
  split.
  - intros Hp. rewrite lgf_update_partial by exact Hp. rewrite Hcf. cbn [bind].
    unfold partial_neg_disp.
    rewrite dot_ok by (cbn [rows_from ncols]; lia). cbn [bind].
    replace (size_123 <? size_1)%nat with false
      by (symmetry; apply Nat.ltb_ge; lia).
    rewrite map_map.
    rewrite (map_zeros (fun i : nat => - row_dot (rows_from G (3 * size_1)) i
                                         (ravel (slice forces size_1 size_12))))
      by (intros i; rewrite row_dot_zeros by exact Hz2; ring).
    rewrite length_seq. cbn [rows_from nrows].
    replace (nrows G - 3 * size_1)%nat with (3 * (size_123 - size_1))%nat by lia.
    rewrite reshape_n3_ok by (unfold zeros; apply repeat_length).
    cbn [bind]. rewrite rows3_zeros. unfold isub3, zeros3.
    replace (size_123 - size_1)%nat with (length (skipn size_1 grid))
      by (rewrite length_skipn; lia).
    rewrite inplace_zeros by apply vsub_zero3_r.
    cbn [bind]. now rewrite firstn_skipn.
  - intros Hm Hpos Hmax. unfold lgf_update. rewrite Hcf. cbn [bind]. rewrite Hm.
    unfold full_disp. rewrite dot_ok by lia. cbn [bind].
    rewrite (map_zeros (fun i : nat => row_dot G i
                                         (ravel (slice forces size_1 size_12))))
      by (intros i; now apply row_dot_zeros).
    rewrite length_seq, Hr.
    rewrite reshape_n3_ok by (unfold zeros; apply repeat_length).
    cbn [bind]. rewrite rows3_zeros.
    destruct (disp_max_spec (zeros3 size_123)) as (dm & Hdm & _ & (u & Hu & Hn)).
    { destruct size_123; [lia | discriminate]. }
    apply repeat_spec in Hu. subst u. rewrite norm3_zero3 in Hn. subst dm.
    rewrite Hdm. cbn [bind]. rewrite disp_scale_below by exact Hmax.
    rewrite (map_ext _ (fun u => u)) by apply vscale_1. rewrite map_id.
    unfold iadd3, zeros3. rewrite <- Hg. apply inplace_zeros, vadd_zero3.
Qed.

Lemma lgf_update_zero_forces_witness :
  (1 <= 2)%nat /\ (2 <= 2)%nat /\
  nrows ex_G_3_500 = (3 * 2)%nat /\ ncols ex_G_3_500 = (3 * (2 - 1))%nat /\
  length ex_grid_core = 2%nat /\ length [(5, 0, 0); zero3] = 2%nat /\
  (forall u, In u (slice [(5, 0, 0); zero3] 1 2) -> u = zero3) /\
  0 < 100 /\
  lgf_update 1 2 2 ex_G_3_500 "dislLGF123" 100 ex_grid_core [(5, 0, 0); zero3]
  = Ok ex_grid_core.
Proof.
  assert (H1 : (1 <= 2)%nat) by lia.
  assert (H2 : (2 <= 2)%nat) by lia.
  assert (H3 : nrows ex_G_3_500 = (3 * 2)%nat) by reflexivity.
  assert (H4 : ncols ex_G_3_500 = (3 * (2 - 1))%nat) by reflexivity.
  assert (H5 : length ex_grid_core = 2%nat) by reflexivity.
  assert (H6 : length [(5, 0, 0); zero3] = 2%nat) by reflexivity.
  assert (H7 : forall u, In u (slice [(5, 0, 0); zero3] 1 2) -> u = zero3).
  { cbn. intros u [<- | []]. reflexivity. }
  assert (H8 : 0 < 100) by lra.
  repeat (split; [assumption |]).
  apply (proj2 (lgf_update_zero_forces 1 2 2 ex_G_3_500 "dislLGF123"%string 100
                  ex_grid_core [(5, 0, 0); zero3] H1 H2 H3 H4 H5 H6 H7)).
  - reflexivity.
  - lia.
  - exact H8.
Defined.

(** ** Exit conditions, the log and the engine runs of the outer loop *)

Lemma fold_left_Rplus_ge (l : list R) (a : R) :
  (forall x, In x l -> 0 <= x) ->
  a <= fold_left Rplus l a /\ forall x, In x l -> a + x <= fold_left Rplus l a.
Proof.
  revert a. induction l as [| y l IH]; intros a H; cbn; [split; [lra | tauto] |].
  assert (Hy : 0 <= y) by (apply H; now left).
  destruct (IH (a + y) (fun x Hx => H x (or_intror Hx))) as [IH1 IH2].
  split; [lra |]. intros x [<- | Hx]; [exact IH1 |].
  specialize (IH2 x Hx). lra.
Qed.

(** No component exceeds the 2-norm in absolute value. *)
Lemma abs_le_norm2 (l : list R) (x : R) : In x l -> Rabs x <= norm2 l.
Proof.
  intros Hx. unfold norm2.
  rewrite <- sqrt_Rsqr_abs. apply sqrt_le_1_alt.
  destruct (fold_left_Rplus_ge (map (fun y : R => y ^ 2) l) 0) as [_ H].
  { intros y Hy. apply in_map_iff in Hy. destruct Hy as (z & <- & _). nra. }
  specialize (H (x ^ 2) (in_map (fun y : R => y ^ 2) l x Hx)).
  unfold Rsqr. lra.
Qed.

Lemma lgf_update_length size_1 size_12 size_123 G method maxdisp grid forces grid' :
  lgf_update size_1 size_12 size_123 G method maxdisp grid forces = Ok grid' ->
  length grid' = length grid.
Proof.
  intros H. destruct (is_partial_method method) eqn:Hp.
  - now apply (lgf_update_partial_frame _ _ _ _ _ _ _ _ _ Hp H).
  - unfold lgf_update in H. bind_inv H.
    destruct (is_full_method method); [| rewrite Hp in H; discriminate].
    bind_inv H. bind_inv H. now apply inplace_length in H.
Qed.

Lemma grid_new_of_fields (grid : list atom) : forall grid_mat : list vec3,
  map ind (grid_new_of grid grid_mat) = firstn (length grid_mat) (map ind grid) /\
  map reg (grid_new_of grid grid_mat) = firstn (length grid_mat) (map reg grid) /\
  (forall a, In a (grid_new_of grid grid_mat) -> basis a = 0%Z).
Proof.
  unfold grid_new_of.
  induction grid as [| a grid IH]; intros [| [[x y] z] grid_mat]; cbn;
    try (repeat split; tauto).
  destruct (IH grid_mat) as (H1 & H2 & H3). rewrite H1, H2.
  repeat split. intros b [<- | Hb]; [reflexivity | now apply H3].
Qed.

Section LoopFurther.

Variable lammps : Type.
Variable lmp_minimize_run0 :
  lammps_settings -> bool -> list atom -> lammps -> (nat -> nat -> R) * lammps.
Variable lmp_run0 :
  lammps_settings -> bool -> list atom -> lammps -> (nat -> nat -> R) * lammps.
Variable size_123_global : nat.
Variable ls : lammps_settings.
Variables size_1 size_12 size_123 : nat.
Variable G_mnt : matrix.
Variable method : string.
Variable antiplane : bool.
Variable args_ftol : R.
Variable grid : list atom.

Abbreviation xbody :=
  (loop_body lammps lmp_minimize_run0 lmp_run0 size_123_global ls
     size_1 size_12 size_123 G_mnt method antiplane args_ftol grid).
Abbreviation xstep :=
  (coupling_step lammps lmp_minimize_run0 lmp_run0 size_123_global ls
     size_1 size_12 size_123 G_mnt method antiplane grid).
Abbreviation xloop :=
  (relax_loop lammps lmp_minimize_run0 lmp_run0 size_123_global ls
     size_1 size_12 size_123 G_mnt method antiplane args_ftol grid).
Abbreviation xmain :=
  (relaxation_main lammps lmp_minimize_run0 lmp_run0 size_123_global ls
     size_1 size_12 size_123 G_mnt method antiplane args_ftol grid).
Abbreviation xgetforces := (lammps_getforces lammps lmp_run0 size_123_global).
Abbreviation xminimize :=
  (lammps_minimize_getforces lammps lmp_minimize_run0 size_123_global).
Abbreviation xcycle :=
  (relaxation_cycle lammps lmp_minimize_run0 size_123_global).

Lemma getforces_shape ap w :
  length (fst (xgetforces ls ap w)) = size_123_global /\
  engine_calls _ (snd (xgetforces ls ap w)) = S (engine_calls _ w) /\
  datafile _ (snd (xgetforces ls ap w)) = datafile _ w.
Proof.
  unfold lammps_getforces. destruct (lmp_run0 _ _ _ _). cbn.
  now rewrite length_map, length_seq.
Qed.

Lemma minimize_shape ap w :
  length (fst (fst (xminimize ls ap w))) = size_123_global /\
  length (snd (fst (xminimize ls ap w))) = size_123_global /\
  engine_calls _ (snd (xminimize ls ap w)) = S (engine_calls _ w) /\
  datafile _ (snd (xminimize ls ap w)) = datafile _ w.
Proof.
  unfold lammps_minimize_getforces. destruct (lmp_minimize_run0 _ _ _ _). cbn.
  now rewrite !length_map, !length_seq.
Qed.

(** What one coupling step does to the outside: two engine runs, and a data
    file rewritten with the first [size_123] atoms of the grid, their index
    and region kept and their basis type set to 0. *)
Lemma coupling_step_outside log0 w st' :
  xstep log0 w = Ok st' ->
  engine_calls _ (outside _ st') = S (S (engine_calls _ w)) /\
  map ind (datafile _ (outside _ st')) = firstn size_123_global (map ind grid) /\
  map reg (datafile _ (outside _ st')) = firstn size_123_global (map reg grid) /\
  (forall a, In a (datafile _ (outside _ st')) -> basis a = 0%Z).
Proof.
  unfold coupling_step. intros H. bind_inv H. destruct a as [grid_mat w1].
  rewrite relaxation_cycle_unfold in Ha. bind_inv Ha. injection Ha as <- <-.
  apply lgf_update_length in Ha0.
  destruct (minimize_shape antiplane w) as (Hg & _ & Hc & _).
  rewrite Hg in Ha0.
  pose proof (getforces_shape antiplane
                (write_datafile _ (grid_new_of grid a) (snd (xminimize ls antiplane w))))
    as (_ & Hc2 & Hd2).
  destruct (xgetforces ls antiplane _) as [forces_new w3].
  bind_inv H. injection H as <-. cbn [outside fst snd] in *.
  rewrite Hc2, Hd2. cbn [write_datafile engine_calls datafile]. rewrite Hc.
  destruct (grid_new_of_fields grid a) as (H1 & H2 & H3).
  rewrite H1, H2, Ha0. auto.
Qed.

(** The data file written by a coupling step holds the first [size_123]
    atoms of the grid and no others, with index and region as in the grid
    and basis type 0. *)
Theorem coupling_step_rewrites_datafile log0 w st' :
  coupling_step lammps lmp_minimize_run0 lmp_run0 size_123_global ls
     size_1 size_12 size_123 G_mnt method antiplane grid log0 w = Ok st' ->
  map ind (datafile _ (outside _ st')) = firstn size_123_global (map ind grid) /\
  map reg (datafile _ (outside _ st')) = firstn size_123_global (map reg grid) /\
  (forall a, In a (datafile _ (outside _ st')) -> basis a = 0%Z).
Proof. intros H. now apply coupling_step_outside in H. Qed.

(** A pass that leaves the loop keeps the forces; [fm], their largest
    absolute component, is what it logged. *)
Lemma loop_body_exit_post st e st' :
  xbody st = Ok (Some e, st') ->
  forces_12 _ st' = forces_12 _ st /\ outside _ st' = outside _ st /\
  exists fm, force_max_of (forces_12 _ st) = Ok fm /\
    force_evolution _ st' = force_evolution _ st ++ [fm] /\
    (e = CONVERGED -> fm < args_ftol) /\
    (e = DIVERGED -> ~ fm < args_ftol /\ norm2 (forces_12 _ st) > 100).
Proof.
  unfold loop_body. intros H. bind_inv H.
  destruct (Rlt_dec a args_ftol) as [Hlt | Hnlt].
  - injection H as <- <-. cbn. repeat split; auto. exists a.
    repeat split; auto; discriminate.
  - destruct (Rgt_dec (norm2 (forces_12 _ st)) 100) as [Hgt | Hngt].
    + injection H as <- <-. cbn. repeat split; auto. exists a.
      repeat split; auto; discriminate.
    + bind_inv H. discriminate.
Qed.

(** A pass that goes on logged a value between the tolerance and 1e2. *)
Lemma loop_body_continue_post st st' :
  xbody st = Ok (None, st') ->
  exists fm, force_max_of (forces_12 _ st) = Ok fm /\
    force_evolution _ st' = force_evolution _ st ++ [fm] /\
    args_ftol <= fm <= 100 /\
    engine_calls _ (outside _ st') = S (S (engine_calls _ (outside _ st))).
Proof.
  unfold loop_body. intros H. bind_inv H.
  destruct (Rlt_dec a args_ftol) as [Hlt | Hnlt]; [discriminate |].
  destruct (Rgt_dec (norm2 (forces_12 _ st)) 100) as [Hgt | Hngt]; [discriminate |].
  bind_inv H. injection H as <-.
  pose proof (coupling_step_frame _ _ _ _ _ _ _ _ _ _ _ _ _ _ _ Ha0) as [Hlog _].
  apply coupling_step_outside in Ha0. destruct Ha0 as (Hc & _).
  exists a. repeat split; auto; try lra.
  destruct (force_max_of_spec _ _ Ha) as [_ (x & Hx & <-)].
  pose proof (abs_le_norm2 _ _ Hx). lra.
Qed.

(** On leaving the loop: after CONVERGED every force component of the final
    configuration is below the tolerance in absolute value; after DIVERGED
    the 2-norm of the final forces exceeds 1e2 and some component is not
    below the tolerance; in both cases the last logged value is the largest
    absolute component of the final forces. *)
Theorem relax_loop_exit_conditions k : forall st e st',
  relax_loop lammps lmp_minimize_run0 lmp_run0 size_123_global ls
     size_1 size_12 size_123 G_mnt method antiplane args_ftol grid k st = Ok (e, st') ->
  (e = CONVERGED -> forall x, In x (forces_12 _ st') -> Rabs x < args_ftol) /\
  (e = DIVERGED ->
   norm2 (forces_12 _ st') > 100 /\
   exists x, In x (forces_12 _ st') /\ ~ Rabs x < args_ftol) /\
  (e <> MAX_ITER_REACHED ->
   exists fm, force_max_of (forces_12 _ st') = Ok fm /\
              last (force_evolution _ st') 0 = fm).
Proof.
  induction k as [| k IH]; intros st e st' H; cbn [relax_loop] in H.
  - injection H as <- <-. repeat split; intros; try discriminate. congruence.
  - bind_inv H. destruct a as [[e1 |] st1]; [| now apply IH in H].
    injection H as <- <-. apply loop_body_exit_post in Ha.
    destruct Ha as (Hf & _ & fm & Hfm & Hlog & Hc & Hd). rewrite Hf.
    destruct (force_max_of_spec _ _ Hfm) as [Hall (x & Hx & Hxm)].
    split; [| split].
    + intros He x' Hx'. specialize (Hc He). specialize (Hall x' Hx'). lra.
    + intros He. destruct (Hd He) as [Hn Hg]. split; [exact Hg |].
      exists x. split; [exact Hx | lra].
    + intros _. exists fm. split; [exact Hfm |]. rewrite Hlog. apply last_last.
Qed.

(** The log only grows, by at most one value per iteration; every value
    logged by a pass that went on to a coupling step lies between the
    tolerance and 1e2. *)
Theorem relax_loop_log_grows k : forall st e st',
  relax_loop lammps lmp_minimize_run0 lmp_run0 size_123_global ls
     size_1 size_12 size_123 G_mnt method antiplane args_ftol grid k st = Ok (e, st') ->
  exists suffix,
    force_evolution _ st' = force_evolution _ st ++ suffix /\
    (length suffix <= k)%nat /\
    forall x,
      In x (match e with
            | MAX_ITER_REACHED => suffix
            | _ => removelast suffix
            end) ->
      args_ftol <= x <= 100.
Proof.
  induction k as [| k IH]; intros st e st' H; cbn [relax_loop] in H.
  - injection H as <- <-. exists []. rewrite app_nil_r.
    split; [reflexivity |]. split; [cbn; lia |]. intros x [].
  - bind_inv H. destruct a as [[e1 |] st1].
    + injection H as <- <-. pose proof (loop_body_exit _ _ _ _ _ _ _ _ _ _ _ _ _ _ _ _ Ha) as Hex.
      apply loop_body_exit_post in Ha.
      destruct Ha as (_ & _ & fm & _ & Hlog & _).
      exists [fm]. split; [exact Hlog |]. split; [cbn; lia |].
      destruct Hex as [-> | ->]; cbn; tauto.
    + apply loop_body_continue_post in Ha.
      destruct Ha as (fm & _ & Hlog & Hrange & _).
      apply IH in H. destruct H as (suffix & Hs & Hlen & Hin).
      exists (fm :: suffix). split; [| split].
      * rewrite Hs, Hlog, <- app_assoc. reflexivity.
      * cbn. lia.
      * intros x Hx.
        assert (Hcase : x = fm \/
                        In x (match e with
                              | MAX_ITER_REACHED => suffix
                              | _ => removelast suffix
                              end)).
        { destruct e; cbn [removelast] in Hx.
          - destruct suffix; [destruct Hx | destruct Hx as [<- | Hx]; auto].
          - destruct suffix; [destruct Hx | destruct Hx as [<- | Hx]; auto].
          - destruct Hx as [<- | Hx]; auto. }
        destruct Hcase as [-> | Hx']; [exact Hrange | now apply Hin].
Qed.

Lemma relax_loop_calls k : forall st e st',
  xloop k st = Ok (e, st') ->
  (engine_calls _ (outside _ st') + 2 * match e with
                                       | MAX_ITER_REACHED => 0
                                       | _ => 1
                                       end
   = engine_calls _ (outside _ st)
     + 2 * (length (force_evolution _ st') - length (force_evolution _ st)))%nat /\
  (length (force_evolution _ st) <= length (force_evolution _ st'))%nat.
Proof.
  induction k as [| k IH]; intros st e st' H; cbn [relax_loop] in H.
  - injection H as <- <-. lia.
  - bind_inv H. destruct a as [[e1 |] st1].
    + injection H as <- <-. pose proof (loop_body_exit _ _ _ _ _ _ _ _ _ _ _ _ _ _ _ _ Ha) as Hex.
      apply loop_body_exit_post in Ha.
      destruct Ha as (_ & Hout & fm & _ & Hlog & _).
      rewrite Hout, Hlog, length_app. cbn [length].
      destruct Hex as [-> | ->]; lia.
    + apply loop_body_continue_post in Ha.
      destruct Ha as (fm & _ & Hlog & _ & Hc).
      apply IH in H. destruct H as [H Hle].
      rewrite Hlog, length_app in H, Hle. cbn [length] in H, Hle. lia.
Qed.

(** The engine is started once for the initial forces and twice per
    coupling step; a run that ends CONVERGED or DIVERGED has made one
    coupling step less than it logged values, a run that exhausts its
    iterations as many. *)
Theorem relaxation_main_engine_runs maxouteriter w0 e st :
  relaxation_main lammps lmp_minimize_run0 lmp_run0 size_123_global ls
     size_1 size_12 size_123 G_mnt method antiplane args_ftol grid
     maxouteriter w0 = Ok (e, st) ->
  (engine_calls _ (outside _ st) + 2 * match e with
                                      | MAX_ITER_REACHED => 0
                                      | _ => 1
                                      end
   = engine_calls _ w0 + 1 + 2 * length (force_evolution _ st))%nat.
Proof.
  unfold relaxation_main.
  pose proof (getforces_shape antiplane w0) as (_ & Hc & _).
  destruct (xgetforces ls antiplane w0) as [forces w1].
  intros H. bind_inv H. bind_inv H. destruct a0 as [e0 st0].
  injection H as <- <-. apply relax_loop_calls in Ha0.
  cbn [fst snd outside force_evolution save_forces engine_calls length] in *.
  lia.
Qed.

End LoopFurther.

(** * Rotating the LGF into the mnt basis *)

Lemma mat3_eq (a b c x y z : vec3) :
  a = x -> b = y -> c = z -> (a, b, c) = (x, y, z).
Proof. now intros -> -> ->. Qed.

Ltac mat3_ring :=
  repeat match goal with
         | M : mat3 |- _ => destruct M as [[[[? ?] ?] [[? ?] ?]] [[? ?] ?]]
         end;
  cbn; apply mat3_eq; apply vec3_eq; ring.

Lemma mat3_mul_assoc (A B C : mat3) :
  mat3_mul (mat3_mul A B) C = mat3_mul A (mat3_mul B C).
Proof. mat3_ring. Qed.

Lemma mat3_mul_id_l (A : mat3) : mat3_mul mat3_id A = A.
Proof. unfold mat3_id. mat3_ring. Qed.

Lemma mat3_mul_id_r (A : mat3) : mat3_mul A mat3_id = A.
Proof. unfold mat3_id. mat3_ring. Qed.

Lemma mat3_T_T (A : mat3) : mat3_T (mat3_T A) = A.
Proof. mat3_ring. Qed.

Lemma mat3_T_mul (A B : mat3) :
  mat3_T (mat3_mul A B) = mat3_mul (mat3_T B) (mat3_T A).
Proof. mat3_ring. Qed.

(** The rotation of a block loses nothing: rotating with the identity
    changes nothing, and for an orthogonal [M] rotating the result with
    [M.T] gives the block back. *)
Theorem rotate_block_invertible (M B : mat3) :
  rotate_block mat3_id B = B /\
  (mat3_mul M (mat3_T M) = mat3_id ->
   rotate_block (mat3_T M) (rotate_block M B) = B).
Proof.
  split.
  - unfold rotate_block, mat3_id. mat3_ring.
  - intros Horth. unfold rotate_block. rewrite mat3_T_T.
    rewrite (mat3_mul_assoc (mat3_T M) (mat3_mul B M) (mat3_T M)).
    rewrite (mat3_mul_assoc B M (mat3_T M)), Horth, mat3_mul_id_r.
    rewrite <- mat3_mul_assoc, Horth. apply mat3_mul_id_l.
Qed.

Lemma rotate_block_invertible_witness :
  mat3_mul ((0, 1, 0), (-1, 0, 0), (0, 0, 1))
           (mat3_T ((0, 1, 0), (-1, 0, 0), (0, 0, 1))) = mat3_id /\
  rotate_block (mat3_T ((0, 1, 0), (-1, 0, 0), (0, 0, 1)))
    (rotate_block ((0, 1, 0), (-1, 0, 0), (0, 0, 1))
       ((1, 2, 3), (4, 5, 6), (7, 8, 9)))
  = ((1, 2, 3), (4, 5, 6), (7, 8, 9)).
Proof.
  assert (H : mat3_mul ((0, 1, 0), (-1, 0, 0), (0, 0, 1))
                (mat3_T ((0, 1, 0), (-1, 0, 0), (0, 0, 1))) = mat3_id).
  { unfold mat3_id. cbn. apply mat3_eq; apply vec3_eq; ring. }
  split; [exact H |].
  exact (proj2 (rotate_block_invertible ((0, 1, 0), (-1, 0, 0), (0, 0, 1))
                  ((1, 2, 3), (4, 5, 6), (7, 8, 9))) H).
Defined.

Lemma py_slice_block (len i : nat) :
  (3 * S i <= len)%nat ->
  py_slice len (Z.of_nat i * 3) ((Z.of_nat i + 1) * 3) = ((i * 3)%nat, 3%nat).
Proof.
  intros H. unfold py_slice, py_clip.
  destruct (Z.ltb_spec (Z.of_nat i * 3) 0); [lia |].
  destruct (Z.ltb_spec ((Z.of_nat i + 1) * 3) 0); [lia |].
  f_equal; lia.
Qed.

Lemma block3_ok (G : matrix) (i j : nat) :
  (3 * S i <= nrows G)%nat -> (3 * S j <= ncols G)%nat ->
  block3 G (Z.of_nat i) (Z.of_nat j) = Ok (block_at G (i * 3) (j * 3)).
Proof.
  intros Hi Hj. unfold block3.
  rewrite (py_slice_block _ _ Hi), (py_slice_block _ _ Hj). reflexivity.
Qed.

Lemma mapM_ext_in {A B : Type} (f g : A -> result B) (l : list A) :
  (forall x, In x l -> f x = g x) -> mapM f l = mapM g l.
Proof.
  induction l as [| x l IH]; intros H; cbn; [reflexivity |].
  rewrite (H x) by now left. rewrite IH; [reflexivity |].
  intros y Hy. apply H. now right.
Qed.

Lemma nth_map_seq {A : Type} (f : nat -> A) (len k : nat) (d : A) :
  (k < len)%nat -> nth k (map f (seq 0 len)) d = f k.
Proof.
  intros H. rewrite (nth_indep _ d (f 0%nat)) by now rewrite length_map, length_seq.
  rewrite (map_nth f (seq 0 len) 0%nat k), seq_nth by exact H. reflexivity.
Qed.

Lemma methods_agree (method : string) :
  is_disl_method method || is_perfbulk_method method
  = is_full_method method || is_partial_method method.
Proof.
  unfold is_disl_method, is_perfbulk_method, is_full_method, is_partial_method.
  destruct (method =? "dislLGF123")%string, (method =? "dislLGF23")%string,
    (method =? "perfbulkLGF123")%string, (method =? "perfbulkLGF23")%string;
    reflexivity.
Qed.

(** With a dislocation-LGF method the setup accepts exactly a [G] of shape
    [(3*size_123, 3*size_2)]; every 3x3 block of the result is the rotated
    block of [G] at the same place. *)
Theorem rotate_G_disl method G M mapping size_1 size_12 size_123 :
  is_disl_method method = true ->
  (size_1 <= size_12)%nat ->
  (nrows G <> (size_123 * 3)%nat \/ ncols G <> ((size_12 - size_1) * 3)%nat ->
   rotate_G method G M mapping size_1 size_12 size_123
   = Raise (ValueError "G has the wrong shape!")) /\
  (nrows G = (size_123 * 3)%nat -> ncols G = ((size_12 - size_1) * 3)%nat ->
   exists G_mnt,
     rotate_G method G M mapping size_1 size_12 size_123 = Ok G_mnt /\
     nrows G_mnt = (size_123 * 3)%nat /\
     ncols G_mnt = ((size_12 - size_1) * 3)%nat /\
     forall i j a b,
       (i < size_123)%nat -> (j < size_12 - size_1)%nat ->
       (a < 3)%nat -> (b < 3)%nat ->
       entry G_mnt (i * 3 + a) (j * 3 + b)
       = mat3_get (rotate_block M (block_at G (i * 3) (j * 3))) a b).
Proof.
  intros Hd Hle. unfold rotate_G.
  replace (size_12 <? size_1)%nat with false by (symmetry; apply Nat.ltb_ge; lia).
  rewrite Hd. split.
  - intros [H | H]; apply Nat.eqb_neq in H; rewrite H; cbn [negb orb];
      [reflexivity | now rewrite orb_true_r].
  - intros Hr Hc. rewrite Hr, Hc, !Nat.eqb_refl. cbn [negb orb].
    rewrite (mapM_pure _ (fun i : nat =>
               map (fun j : nat => rotate_block M (block_at G (i * 3) (j * 3)))
                   (seq 0 (size_12 - size_1)))).
    2:{ intros i Hi. apply in_seq in Hi. apply mapM_pure. intros j Hj.
        apply in_seq in Hj. rewrite block3_ok by lia. reflexivity. }
    cbn [bind]. eexists. split; [reflexivity |].
    split; [reflexivity |]. split; [reflexivity |].
    intros i j a b Hi Hj Ha Hb. cbn [blocks_matrix entry].
    replace ((i * 3 + a) / 3)%nat with i
      by (symmetry; rewrite Nat.add_comm, Nat.div_add by lia;
          rewrite Nat.div_small by lia; lia).
    replace ((j * 3 + b) / 3)%nat with j
      by (symmetry; rewrite Nat.add_comm, Nat.div_add by lia;
          rewrite Nat.div_small by lia; lia).
    replace ((i * 3 + a) mod 3)%nat with a
      by (symmetry; rewrite Nat.add_comm, Nat.Div0.mod_add;
          apply Nat.mod_small; lia).
    replace ((j * 3 + b) mod 3)%nat with b
      by (symmetry; rewrite Nat.add_comm, Nat.Div0.mod_add;
          apply Nat.mod_small; lia).
    rewrite (nth_map_seq _ size_123 i) by exact Hi.
    rewrite (nth_map_seq _ (size_12 - size_1) j) by exact Hj. reflexivity.
Qed.

(** With a perfect-bulk method and a mapping that sends every pair of atoms
    to itself, the setup yields what the dislocation-LGF method yields. *)
Theorem rotate_G_identity_mapping method method' G M mapping mapping'
  size_1 size_12 size_123 :
  is_perfbulk_method method = true ->
  is_disl_method method' = true ->
  (size_1 <= size_12)%nat ->
  nrows G = (size_123 * 3)%nat -> ncols G = ((size_12 - size_1) * 3)%nat ->
  (forall i j, (i < size_123)%nat -> (j < size_12 - size_1)%nat ->
     exists row, nth_error mapping i = Some row /\
                 nth_error row (j + size_1)
                 = Some (Z.of_nat i, Z.of_nat (j + size_1))) ->
  rotate_G method G M mapping size_1 size_12 size_123
  = rotate_G method' G M mapping' size_1 size_12 size_123.
Proof.
  intros Hp Hd Hle Hr Hc Hmap. unfold rotate_G.
  replace (size_12 <? size_1)%nat with false by (symmetry; apply Nat.ltb_ge; lia).
  assert (Hnd : is_disl_method method = false).
  { unfold is_perfbulk_method in Hp. unfold is_disl_method.
    apply orb_true_iff in Hp. destruct Hp as [Hp | Hp];
      apply String.eqb_eq in Hp; subst; reflexivity. }
  rewrite Hnd, Hp, Hd, Hr, Hc, !Nat.eqb_refl. cbn [negb orb].
  f_equal. apply mapM_ext_in. intros i Hi. apply in_seq in Hi.
  apply mapM_ext_in. intros j Hj. apply in_seq in Hj.
  destruct (Hmap i j ltac:(lia) ltac:(lia)) as (row & Hrow & Hcell).
  unfold get_item. rewrite Hrow. cbn [bind]. rewrite Hcell. cbn [bind].
  replace (Z.of_nat (j + size_1) - Z.of_nat size_1)%Z with (Z.of_nat j) by lia.
  reflexivity.
Qed.

Lemma rotate_G_identity_mapping_witness :
  is_perfbulk_method "perfbulkLGF123" = true /\
  is_disl_method "dislLGF123" = true /\
  (1 <= 2)%nat /\
  nrows ex_G_3_500 = (2 * 3)%nat /\ ncols ex_G_3_500 = ((2 - 1) * 3)%nat /\
  rotate_G "perfbulkLGF123" ex_G_3_500 mat3_id ex_mapping 1 2 2
  = rotate_G "dislLGF123" ex_G_3_500 mat3_id [] 1 2 2.
Proof.
  assert (H1 : is_perfbulk_method "perfbulkLGF123" = true) by reflexivity.
  assert (H2 : is_disl_method "dislLGF123" = true) by reflexivity.
  assert (H3 : (1 <= 2)%nat) by lia.
  assert (H4 : nrows ex_G_3_500 = (2 * 3)%nat) by reflexivity.
  assert (H5 : ncols ex_G_3_500 = ((2 - 1) * 3)%nat) by reflexivity.
  repeat (split; [assumption |]).
  apply rotate_G_identity_mapping; try assumption.
  intros i j Hi Hj.
  assert (Hj0 : j = 0%nat) by lia. subst j.
  destruct i as [| [| i]]; [| | lia]; eexists; split; reflexivity.
Defined.

Lemma rotate_G_gate_facts method G M mapping size_1 size_12 size_123 :
  (forall G_mnt,
      rotate_G method G M mapping size_1 size_12 size_123 = Ok G_mnt ->
      is_full_method method || is_partial_method method = true /\
      (size_1 <= size_12)%nat /\
      nrows G_mnt = (size_123 * 3)%nat /\
      ncols G_mnt = ((size_12 - size_1) * 3)%nat) /\
  (is_full_method method || is_partial_method method = false ->
   (size_1 <= size_12)%nat ->
   rotate_G method G M mapping size_1 size_12 size_123
   = Raise (ValueError "invalid method!")).
Proof.
  rewrite <- methods_agree. unfold rotate_G. split.
  - intros G_mnt H.
    destruct (Nat.ltb_spec size_12 size_1) as [Hlt | Hge]; [discriminate |].
    destruct (is_disl_method method).
    + destruct (negb _ || negb _); [discriminate |].
      bind_inv H. injection H as <-. cbn. auto.
    + destruct (is_perfbulk_method method); [| discriminate].
      bind_inv H. injection H as <-. cbn. auto.
  - intros Hm Hle. apply orb_false_iff in Hm. destruct Hm as [-> ->].
    replace (size_12 <? size_1)%nat with false by (symmetry; apply Nat.ltb_ge; lia).
    reflexivity.
Qed.

(** The setup is the gate for the method name: it fails with "invalid
    method!" on any other name than the four, and when it succeeds the
    method is one that [relaxation_cycle] accepts and [G_mnt] has the shape
    [(3*size_123, 3*size_2)]. *)
Theorem rotate_G_gate method G M mapping size_1 size_12 size_123 :
  (forall G_mnt,
      rotate_G method G M mapping size_1 size_12 size_123 = Ok G_mnt ->
      is_full_method method || is_partial_method method = true /\
      (size_1 <= size_12)%nat /\
      nrows G_mnt = (size_123 * 3)%nat /\
      ncols G_mnt = ((size_12 - size_1) * 3)%nat) /\
  (is_full_method method || is_partial_method method = false ->
   (size_1 <= size_12)%nat ->
   rotate_G method G M mapping size_1 size_12 size_123
   = Raise (ValueError "invalid method!")).
Proof. exact (rotate_G_gate_facts method G M mapping size_1 size_12 size_123). Qed.

Lemma rotate_G_gate_witness :
  is_full_method "LGF123" || is_partial_method "LGF123" = false /\
  (1 <= 2)%nat /\
  rotate_G "LGF123" ex_G_3_500 mat3_id [] 1 2 2
  = Raise (ValueError "invalid method!").
Proof.
  assert (H1 : is_full_method "LGF123" || is_partial_method "LGF123" = false)
    by reflexivity.
  assert (H2 : (1 <= 2)%nat) by lia.
  split; [exact H1 |]. split; [exact H2 |].
  exact (proj2 (rotate_G_gate "LGF123"%string ex_G_3_500 mat3_id [] 1 2 2) H1 H2).
Defined.

Lemma rotate_G_disl_witness :
  is_disl_method "dislLGF23" = true /\ (1 <= 2)%nat /\
  nrows ex_G_700_100 <> (3 * 3)%nat /\
  rotate_G "dislLGF23" ex_G_700_100 mat3_id [] 1 2 3
  = Raise (ValueError "G has the wrong shape!").
Proof.
  assert (H1 : is_disl_method "dislLGF23" = true) by reflexivity.
  assert (H2 : (1 <= 2)%nat) by lia.
  assert (H3 : nrows ex_G_700_100 <> (3 * 3)%nat) by (cbn; lia).
  split; [exact H1 |]. split; [exact H2 |]. split; [exact H3 |].
  exact (proj1 (rotate_G_disl "dislLGF23"%string ex_G_700_100 mat3_id [] 1 2 3
                  H1 H2) (or_introl H3)).
Defined.

(** * The relaxation after a successful setup *)

Lemma forces_12_of_ok (size_12 : nat) (forces : list vec3) :
  (size_12 <= length forces)%nat ->
  exists f12, forces_12_of size_12 forces = Ok f12 /\
              length f12 = (3 * size_12)%nat.
Proof.
  intros H. unfold forces_12_of.
  assert (Hlen : length (ravel (slice forces 0 size_12)) = (3 * size_12)%nat)
    by (rewrite length_ravel, length_slice; lia).
  rewrite reshape_n_ok by exact Hlen. eauto.
Qed.

Lemma force_max_of_ok (f12 : list R) :
  f12 <> [] -> exists fm, force_max_of f12 = Ok fm.
Proof.
  destruct f12 as [| x f12]; [congruence | intros _].
  unfold force_max_of. cbn [map argmax bind]. eauto.
Qed.

Section AfterSetup.

Variable lammps : Type.
Variable lmp_minimize_run0 :
  lammps_settings -> bool -> list atom -> lammps -> (nat -> nat -> R) * lammps.
Variable lmp_run0 :
  lammps_settings -> bool -> list atom -> lammps -> (nat -> nat -> R) * lammps.
Variable ls : lammps_settings.
Variables size_1 size_12 size_123 : nat.
Variable G_mnt : matrix.
Variable method : string.
Variable antiplane : bool.
Variable args_ftol : R.
Variable grid : list atom.

Abbreviation ybody :=
  (loop_body lammps lmp_minimize_run0 lmp_run0 size_123 ls
     size_1 size_12 size_123 G_mnt method antiplane args_ftol grid).
Abbreviation ystep :=
  (coupling_step lammps lmp_minimize_run0 lmp_run0 size_123 ls
     size_1 size_12 size_123 G_mnt method antiplane grid).
Abbreviation yloop :=
  (relax_loop lammps lmp_minimize_run0 lmp_run0 size_123 ls
     size_1 size_12 size_123 G_mnt method antiplane args_ftol grid).
Abbreviation ymain :=
  (relaxation_main lammps lmp_minimize_run0 lmp_run0 size_123 ls
     size_1 size_12 size_123 G_mnt method antiplane args_ftol grid).

Hypothesis method_ok : is_full_method method || is_partial_method method = true.
Hypothesis sizes_1 : (size_1 <= size_12)%nat.
Hypothesis sizes_2 : (0 < size_12)%nat.
Hypothesis sizes_3 : (size_12 <= size_123)%nat.
Hypothesis G_rows : nrows G_mnt = (size_123 * 3)%nat.
Hypothesis G_cols : ncols G_mnt = ((size_12 - size_1) * 3)%nat.

Lemma coupling_step_ok log0 w :
  exists st', ystep log0 w = Ok st' /\
              length (forces_12 _ st') = (3 * size_12)%nat.
Proof.
  unfold coupling_step. rewrite relaxation_cycle_unfold.
  destruct (minimize_shape lammps lmp_minimize_run0 size_123 ls antiplane w)
    as (Hg & Hf & _).
  destruct (lgf_update_shapes size_1 size_12 size_123 G_mnt method 100
              _ _ sizes_1 sizes_3 ltac:(lia) ltac:(lia) Hg Hf) as (Hp & Hfull & _).
  assert (Hup : exists grid',
             lgf_update size_1 size_12 size_123 G_mnt method 100
               (fst (fst (lammps_minimize_getforces lammps lmp_minimize_run0
                            size_123 ls antiplane w)))
               (snd (fst (lammps_minimize_getforces lammps lmp_minimize_run0
                            size_123 ls antiplane w))) = Ok grid' /\
             length grid' = size_123).
  { apply orb_true_iff in method_ok. destruct method_ok as [Hm | Hm];
      [apply Hfull; [exact Hm | lia] | now apply Hp]. }
  destruct Hup as (grid' & -> & _). cbn [bind].
  match goal with
  | |- context [lammps_getforces _ _ _ _ _ ?w2] =>
      destruct (getforces_shape lammps lmp_run0 size_123 ls antiplane w2)
        as (Hlen & _);
      destruct (lammps_getforces lammps lmp_run0 size_123 ls antiplane w2)
        as [forces_new w3]
  end.
  cbn [fst] in Hlen.
  destruct (forces_12_of_ok size_12 forces_new ltac:(lia)) as (f12 & -> & Hl).
  cbn [bind]. eexists. split; [reflexivity | exact Hl].
Qed.

Lemma loop_body_ok st :
  length (forces_12 _ st) = (3 * size_12)%nat ->
  exists r st', ybody st = Ok (r, st') /\
                length (forces_12 _ st') = (3 * size_12)%nat.
Proof.
  intros Hlen. unfold loop_body.
  destruct (force_max_of_ok (forces_12 _ st)) as (fm & ->).
  { intros E. rewrite E in Hlen. cbn in Hlen. lia. }
  cbn [bind]. destruct (Rlt_dec fm args_ftol); [eauto |].
  destruct (Rgt_dec _ 100); [eauto |].
  destruct (coupling_step_ok (force_evolution _ st ++ [fm]) (outside _ st))
    as (st' & -> & Hl).
  cbn [bind]. eauto.
Qed.

Lemma relax_loop_ok k : forall st,
  length (forces_12 _ st) = (3 * size_12)%nat ->
  exists e st', yloop k st = Ok (e, st').
Proof.
  induction k as [| k IH]; intros st Hlen; cbn [relax_loop]; [eauto |].
  destruct (loop_body_ok st Hlen) as ([e |] & st' & -> & Hl); cbn [bind]; eauto.
Qed.

Lemma relaxation_main_ok maxouteriter w0 :
  exists e st, ymain maxouteriter w0 = Ok (e, st).
Proof.
  unfold relaxation_main.
  destruct (getforces_shape lammps lmp_run0 size_123 ls antiplane w0) as (Hlen & _).
  destruct (lammps_getforces lammps lmp_run0 size_123 ls antiplane w0)
    as [forces w1].
  cbn [fst] in Hlen.
  destruct (forces_12_of_ok size_12 forces ltac:(lia)) as (f12 & -> & Hl).
  cbn [bind].
  destruct (relax_loop_ok maxouteriter (LoopState _ f12 [] w1) Hl)
    as (e & st & ->).
  cbn [bind]. eauto.
Qed.

End AfterSetup.

(** Once the setup has accepted the method and the LGF, and the region sizes
    satisfy [0 < size_12 <= size_123], the outer loop raises nothing,
    whatever the engine returns: it ends in one of its three exits. *)
Theorem relaxation_runs_after_setup (lammps : Type) minimize_run0 run0 ls
  method G M mapping size_1 size_12 size_123 G_mnt antiplane args_ftol grid
  maxouteriter (w0 : world lammps) :
  rotate_G method G M mapping size_1 size_12 size_123 = Ok G_mnt ->
  (0 < size_12)%nat -> (size_12 <= size_123)%nat ->
  exists e st,
    relaxation_main lammps minimize_run0 run0 size_123 ls size_1 size_12
      size_123 G_mnt method antiplane args_ftol grid maxouteriter w0
    = Ok (e, st).
Proof.
  intros Hrot H0 H1.
  destruct (proj1 (rotate_G_gate_facts method G M mapping size_1 size_12 size_123)
              G_mnt Hrot) as (Hm & Hle & Hr & Hc).
  now apply relaxation_main_ok.
Qed.

(** Without any atom in the core and coupling regions the first pass of the
    loop fails on the index of the largest force. *)
Theorem relaxation_main_no_atoms (lammps : Type) minimize_run0 run0
  size_123_global ls size_1 size_123 G_mnt method antiplane args_ftol grid
  k (w0 : world lammps) :
  relaxation_main lammps minimize_run0 run0 size_123_global ls size_1 0
    size_123 G_mnt method antiplane args_ftol grid (S k) w0
  = Raise (ValueError "attempt to get argmax of an empty sequence").
Proof.
  unfold relaxation_main.
  destruct (lammps_getforces _ _ _ _ _ _) as [forces w1].
  reflexivity.
Qed.

(** ** The scenarios as instances *)

Lemma ex_seq_loop_converges :
  seq_loop (1 / 10) 51 ex_seq_state0
  = Ok (CONVERGED,
        LoopState _ [1 / 100; 0; 0] [10; 1; 1 / 100]
          (World _ [] 5 ex_atoms1 None)).
Proof.
  unfold ex_seq_state0. change 51%nat with (S (S (S 48))).
  rewrite seq_loop_S, seq_body_continue by lra. cbn [bind app].
  rewrite seq_loop_S, seq_body_continue by lra. cbn [bind app].
  rewrite seq_loop_S, seq_body_converged by lra. reflexivity.
Qed.

Lemma ex_seq_step :
  coupling_step (list R) seq_minimize seq_run0 1 ex_ls 0 1 1 (zero_matrix 3 3)
    "dislLGF123" false ex_atoms1 [10] (World _ [1; 1 / 100] 1 ex_atoms1 None)
  = Ok (LoopState _ [1; 0; 0] [10] (World _ [1 / 100] 3 ex_atoms1 None)).
Proof.
  cbn.
  match goal with
  | |- Ok (LoopState _ _ _ (World _ _ _ ?f _)) = _ =>
      replace f with ex_atoms1; [reflexivity |]
  end.
  unfold ex_atoms1. apply f_equal2; [| reflexivity]. apply atom_eq; ring.
Qed.

Lemma coupling_step_rewrites_datafile_witness :
  coupling_step (list R) seq_minimize seq_run0 1 ex_ls 0 1 1 (zero_matrix 3 3)
    "dislLGF123" false ex_atoms1 [10] (World _ [1; 1 / 100] 1 ex_atoms1 None)
  = Ok (LoopState _ [1; 0; 0] [10] (World _ [1 / 100] 3 ex_atoms1 None)) /\
  map ind (datafile _ (World (list R) [1 / 100] 3 ex_atoms1 None))
  = firstn 1 (map ind ex_atoms1).
Proof.
  split; [exact ex_seq_step |].
  exact (proj1 (coupling_step_rewrites_datafile (list R) seq_minimize seq_run0
                  1%nat ex_ls 0%nat 1%nat 1%nat (zero_matrix 3 3)
                  "dislLGF123"%string false ex_atoms1 [10] _ _ ex_seq_step)).
Defined.

Lemma relax_loop_exit_conditions_witness :
  seq_loop (1 / 10) 51 ex_seq_state0
  = Ok (CONVERGED,
        LoopState _ [1 / 100; 0; 0] [10; 1; 1 / 100]
          (World _ [] 5 ex_atoms1 None)) /\
  forall x, In x [1 / 100; 0; 0] -> Rabs x < 1 / 10.
Proof.
  split; [exact ex_seq_loop_converges |].
  exact (proj1 (relax_loop_exit_conditions (list R) seq_minimize seq_run0
                  1%nat ex_ls 0%nat 1%nat 1%nat (zero_matrix 3 3)
                  "dislLGF123"%string false (1 / 10) ex_atoms1 51%nat
                  _ _ _ ex_seq_loop_converges) eq_refl).
Defined.

Lemma relax_loop_log_grows_witness :
  seq_loop (1 / 10) 51 ex_seq_state0
  = Ok (CONVERGED,
        LoopState _ [1 / 100; 0; 0] [10; 1; 1 / 100]
          (World _ [] 5 ex_atoms1 None)) /\
  exists suffix,
    [10; 1; 1 / 100] = [] ++ suffix /\
    (length suffix <= 51)%nat /\
    forall x, In x (removelast suffix) -> 1 / 10 <= x <= 100.
Proof.
  split; [exact ex_seq_loop_converges |].
  exact (relax_loop_log_grows (list R) seq_minimize seq_run0
           1%nat ex_ls 0%nat 1%nat 1%nat (zero_matrix 3 3)
           "dislLGF123"%string false (1 / 10) ex_atoms1 51%nat
           _ _ _ ex_seq_loop_converges).
Defined.

Lemma relaxation_main_engine_runs_witness :
  ex_seq_main (1 / 10) 51 [10; 1; 1 / 100]
  = Ok (CONVERGED,
        LoopState _ [1 / 100; 0; 0] [10; 1; 1 / 100]
          (World _ [] 5 ex_atoms1 (Some [10; 1; 1 / 100]))) /\
  (5 + 2 * 1 = 0 + 1 + 2 * 3)%nat.
Proof.
  split; [exact ex_seq_converges |].
  exact (relaxation_main_engine_runs (list R) seq_minimize seq_run0
           1%nat ex_ls 0%nat 1%nat 1%nat (zero_matrix 3 3)
           "dislLGF123"%string false (1 / 10) ex_atoms1 51%nat
           _ _ _ ex_seq_converges).
Defined.

Lemma relaxation_runs_after_setup_witness :
  exists G_mnt,
    rotate_G "dislLGF123" (zero_matrix 3 3) mat3_id [] 0 1 1 = Ok G_mnt /\
    (0 < 1)%nat /\ (1 <= 1)%nat /\
    exists e st,
      relaxation_main (list R) seq_minimize seq_run0 1 ex_ls 0 1 1 G_mnt
        "dislLGF123" false (1 / 10) ex_atoms1 51 (ex_seq_world [10; 1; 1 / 100])
      = Ok (e, st).
Proof.
  eexists.
  assert (H : rotate_G "dislLGF123" (zero_matrix 3 3) mat3_id [] 0 1 1 = Ok _)
    by reflexivity.
  split; [exact H |].
  assert (H0 : (0 < 1)%nat) by lia.
  assert (H1 : (1 <= 1)%nat) by lia.
  split; [exact H0 |]. split; [exact H1 |].
  exact (relaxation_runs_after_setup (list R) seq_minimize seq_run0 ex_ls
           "dislLGF123"%string (zero_matrix 3 3) mat3_id [] 0%nat 1%nat 1%nat _
           false (1 / 10) ex_atoms1 51%nat (ex_seq_world [10; 1; 1 / 100])
           H H0 H1).
Defined.

(** * Further properties of the assembly script *)

(** ** The angle on the range of the arc tangent *)

Lemma py_mod_unique (x y : R) (k : Z) :
  0 < y -> IZR k * y <= x < (IZR k + 1) * y -> py_mod x y = x - IZR k * y.
Proof.
  intros Hy [Hlo Hhi]. unfold py_mod.
  assert (Hx : x = x / y * y) by (field; lra).
  assert (Hk : k = Int_part (x / y)).
  { apply Int_part_spec. split.
    - assert (x / y * y < (IZR k + 1) * y) by lra.
      assert (x / y < IZR k + 1) by (eapply Rmult_lt_reg_r; eauto). lra.
    - assert (IZR k * y <= x / y * y) by lra.
      eapply Rmult_le_reg_r; eauto. }
  now rewrite <- Hk.
Qed.

(** For a polar angle in (-pi, pi]: a positive angle above the cutoff is
    kept, a negative one below minus the cutoff is raised by a full turn,
    and an angle within the cutoff of 0, on either side, becomes 0. *)
Theorem normalize_phi_principal (phi : R) :
  - PI < phi <= PI ->
  (1 / 10 ^ 8 < phi -> normalize_phi phi = phi) /\
  (phi < - (1 / 10 ^ 8) -> normalize_phi phi = phi + 2 * PI) /\
  (- (1 / 10 ^ 8) <= phi <= 1 / 10 ^ 8 -> normalize_phi phi = 0).
Proof.
  intros [Hlo Hhi]. pose proof PI_RGT_0 as Hpi.
  assert (Hc : 0 < 1 / 10 ^ 8) by (apply Rdiv_lt_0_compat; [lra | apply pow_lt; lra]).
  unfold normalize_phi. split; [| split].
  - intros H. rewrite (Rabs_pos_eq phi) by lra.
    destruct (Rgt_dec phi (1 / 10 ^ 8)); [| lra].
    rewrite (py_mod_unique phi (2 * PI) 0); lra.
  - intros H. rewrite (Rabs_left phi) by lra.
    destruct (Rgt_dec (- phi) (1 / 10 ^ 8)); [| lra].
    rewrite (py_mod_unique phi (2 * PI) (-1)); lra.
  - intros H.
    destruct (Rgt_dec (Rabs phi) (1 / 10 ^ 8)) as [Hgt | _]; [| reflexivity].
    unfold Rabs in Hgt. destruct (Rcase_abs phi); lra.
Qed.

Lemma normalize_phi_principal_witness :
  - PI < - (PI / 2) <= PI /\
  - (PI / 2) < - (1 / 10 ^ 8) /\
  normalize_phi (- (PI / 2)) = - (PI / 2) + 2 * PI.
Proof.
  pose proof PI_RGT_0 as Hpi.
  assert (H1 : - PI < - (PI / 2) <= PI) by lra.
  assert (H2 : - (PI / 2) < - (1 / 10 ^ 8)).
  { pose proof PI2_1. unfold Rdiv at 2. rewrite Rmult_1_l.
    assert (/ 10 ^ 8 < 1).
    { rewrite <- Rinv_1. apply Rinv_lt_contravar; [| ]; simpl; lra. }
    lra. }
  split; [exact H1 |]. split; [exact H2 |].
  exact (proj1 (proj2 (normalize_phi_principal (- (PI / 2)) H1)) H2).
Defined.

(** ** [setBC]: shape, errors and what the result depends on *)

Lemma mapM_length {A B : Type} (f : A -> result B) (l : list A) (ys : list B) :
  mapM f l = Ok ys -> length ys = length l.
Proof.
  revert ys. induction l as [| x l IH]; intros ys H; cbn in H.
  - now injection H as <-.
  - bind_inv H. bind_inv H. injection H as <-. cbn. f_equal. now apply IH.
Qed.

Lemma mapM_Forall2 {A A' B : Type} (f : A -> result B) (g : A' -> result B)
  (l : list A) (l' : list A') :
  Forall2 (fun x y => f x = g y) l l' -> mapM f l = mapM g l'.
Proof.
  induction 1 as [| x y l l' Hxy _ IH]; cbn; [reflexivity |].
  now rewrite Hxy, IH.
Qed.

Lemma Forall2_nth_error_both {A B : Type} (P : A -> B -> Prop)
  (l : list A) (l' : list B) :
  Forall2 P l l' ->
  forall i, match nth_error l i, nth_error l' i with
            | Some x, Some y => P x y
            | None, None => True
            | _, _ => False
            end.
Proof.
  induction 1 as [| x y l l' Hxy _ IH]; intros [| i]; cbn [nth_error]; auto.
  apply IH.
Qed.

Lemma Forall2_skipn_both {A B : Type} (P : A -> B -> Prop) (k : nat) :
  forall (l : list A) (l' : list B),
    Forall2 P l l' -> Forall2 P (skipn k l) (skipn k l').
Proof.
  induction k as [| k IH]; intros l l' H; [exact H |].
  destruct H as [| x y l l' _ H]; cbn [skipn]; [constructor | now apply IH].
Qed.

Lemma Forall2_combine_same {A B C : Type} (P : A -> B -> Prop)
  (Q : A * C -> B * C -> Prop) (l : list A) (l' : list B) (zs : list C) :
  (forall a b u, P a b -> Q (a, u) (b, u)) ->
  Forall2 P l l' -> Forall2 Q (combine l zs) (combine l' zs).
Proof.
  intros HQ H. revert zs.
  induction H as [| x y l l' Hxy _ IH]; intros [| z zs]; cbn [combine];
    constructor; auto.
Qed.

Lemma mat3_dot_linear (M : mat3) (c : R) (u v : vec3) :
  mat3_dot M (vadd (vscale c u) v) = vadd (vscale c (mat3_dot M u)) (mat3_dot M v).
Proof.
  destruct M as [[[[? ?] ?] [[? ?] ?]] [[? ?] ?]], u as [[? ?] ?], v as [[? ?] ?].
  cbn. apply vec3_eq; ring.
Qed.

Section FarFieldFurther.

Variables GEn_t phi_R_grid_t : Type.
Variable G_largeR :
  GEn_t -> phi_R_grid_t -> R -> R -> nat -> R -> R -> R -> mat3.
Variable arctan2 : R -> R -> R.

Abbreviation bc := (setBC GEn_t phi_R_grid_t G_largeR arctan2).
Abbreviation bc_row := (setBC_row GEn_t phi_R_grid_t G_largeR arctan2).
Abbreviation ffr := (far_field_row GEn_t phi_R_grid_t G_largeR arctan2).

(** Whenever [setBC] returns, its result has [size_all] rows, and the rows of
    indices that [grid] does not reach are zero. *)
Theorem setBC_shape i grid size_in size_all GEn phi_R_grid N a0 V t_mag f u :
  bc i grid size_in size_all GEn phi_R_grid N a0 V t_mag f = Ok u ->
  length u = size_all /\
  forall k, (length grid <= k)%nat -> (k < size_all)%nat ->
            nth_error u k = Some zero3.
Proof.
  unfold setBC. intros H. bind_inv H. injection H as <-.
  apply mapM_length in Ha.
  rewrite length_combine, !length_skipn in Ha. unfold zeros3 in *.
  rewrite repeat_length in Ha. rewrite firstn_repeat, skipn_repeat.
  split.
  - rewrite !length_app, !repeat_length. lia.
  - intros k Hk Hk2.
    destruct (Nat.lt_ge_cases k size_in) as [Hlt | Hge].
    + rewrite nth_error_app1 by (rewrite repeat_length; lia).
      apply nth_error_repeat. lia.
    + rewrite nth_error_app2 by (rewrite repeat_length; lia).
      rewrite nth_error_app2 by (rewrite repeat_length; lia).
      apply nth_error_repeat. rewrite repeat_length. lia.
Qed.

(** Without a far-field atom ([grid] or the array ends at [size_in]) the
    result is zero and the source index is never looked up. *)
Theorem setBC_no_far_field i grid size_in size_all GEn phi_R_grid N a0 V t_mag f :
  (length grid <= size_in)%nat \/ (size_all <= size_in)%nat ->
  bc i grid size_in size_all GEn phi_R_grid N a0 V t_mag f = Ok (zeros3 size_all).
Proof.
  intros H. unfold setBC.
  assert (Hc : combine (skipn size_in grid) (skipn size_in (zeros3 size_all)) = []).
  { destruct H as [H | H].
    - now rewrite (skipn_all2 grid) by exact H.
    - rewrite (skipn_all2 (zeros3 size_all))
        by (unfold zeros3; rewrite repeat_length; lia).
      apply combine_nil. }
  rewrite Hc. cbn [mapM bind length app]. rewrite Nat.add_0_r.
  now rewrite firstn_skipn.
Qed.

(** With a far-field atom present, a source index outside [grid] or outside
    [f] raises an index error. *)
Theorem setBC_index_error i grid size_in size_all GEn phi_R_grid N a0 V t_mag f :
  (size_in < length grid)%nat -> (size_in < size_all)%nat ->
  (length grid <= i)%nat \/ (length f <= i)%nat ->
  bc i grid size_in size_all GEn phi_R_grid N a0 V t_mag f
  = Raise (IndexError "index out of range").
Proof.
  intros Hg Ha Hi. unfold setBC.
  destruct (skipn size_in grid) as [| a rest] eqn:Hs.
  { apply (f_equal (@length atom)) in Hs. rewrite length_skipn in Hs. cbn in Hs. lia. }
  destruct (skipn size_in (zeros3 size_all)) as [| z zs] eqn:Hz.
  { apply (f_equal (@length vec3)) in Hz. rewrite length_skipn in Hz.
    unfold zeros3 in Hz. rewrite repeat_length in Hz. cbn in Hz. lia. }
  cbn [combine mapM fst snd]. unfold setBC_row, get_item.
  destruct (nth_error grid i) as [gi |] eqn:Hgi.
  - cbn [bind]. destruct (nth_error f i) as [fi |] eqn:Hfi; [| reflexivity].
    exfalso. destruct Hi as [Hi | Hi].
    + apply nth_error_None in Hi. congruence.
    + apply nth_error_None in Hi. congruence.
  - reflexivity.
Qed.

(** The result depends on the in-plane coordinates only, and on no other
    force than that of the source atom. *)
Theorem setBC_in_plane i grid grid' size_in size_all GEn phi_R_grid N a0 V t_mag
  f f' :
  Forall2 (fun a b : atom => m a = m b /\ n a = n b) grid grid' ->
  nth_error f i = nth_error f' i ->
  bc i grid size_in size_all GEn phi_R_grid N a0 V t_mag f
  = bc i grid' size_in size_all GEn phi_R_grid N a0 V t_mag f'.
Proof.
  intros Hg Hf. unfold setBC.
  assert (Hrow : forall (a b : atom) (u : vec3), m a = m b /\ n a = n b ->
            bc_row i grid GEn phi_R_grid N a0 V t_mag f a u
            = bc_row i grid' GEn phi_R_grid N a0 V t_mag f' b u).
  { intros a b u [Hm Hn]. unfold setBC_row, get_item. rewrite <- Hf.
    pose proof (Forall2_nth_error_both _ _ _ Hg i) as Hi.
    destruct (nth_error grid i) as [x |], (nth_error grid' i) as [y |];
      try contradiction; [| reflexivity].
    destruct Hi as [Hm' Hn']. cbn [bind]. now rewrite Hm, Hn, Hm', Hn'. }
  rewrite (mapM_Forall2
             (fun p : atom * vec3 =>
                bc_row i grid GEn phi_R_grid N a0 V t_mag f (fst p) (snd p))
             (fun p : atom * vec3 =>
                bc_row i grid' GEn phi_R_grid N a0 V t_mag f' (fst p) (snd p))
             (combine (skipn size_in grid) (skipn size_in (zeros3 size_all)))
             (combine (skipn size_in grid') (skipn size_in (zeros3 size_all)))).
  - reflexivity.
  - apply (Forall2_combine_same (fun a b : atom => m a = m b /\ n a = n b)).
    + intros a b u Hab. now apply Hrow.
    + now apply Forall2_skipn_both.
Qed.

(** The displacements are linear in the force on the source atom. *)
Theorem setBC_linear i grid size_in GEn phi_R_grid N a0 V t_mag f1 f2 f3
  gi v1 v2 c :
  nth_error grid i = Some gi ->
  nth_error f1 i = Some v1 -> nth_error f2 i = Some v2 ->
  nth_error f3 i = Some (vadd (vscale c v1) v2) ->
  exists u1 u2,
    bc i grid size_in (length grid) GEn phi_R_grid N a0 V t_mag f1 = Ok u1 /\
    bc i grid size_in (length grid) GEn phi_R_grid N a0 V t_mag f2 = Ok u2 /\
    bc i grid size_in (length grid) GEn phi_R_grid N a0 V t_mag f3
    = Ok (map (fun p : vec3 * vec3 => vadd (vscale c (fst p)) (snd p))
              (combine u1 u2)).
Proof.
  intros Hgi H1 H2 H3.
  rewrite (setBC_value _ _ G_largeR arctan2 i grid size_in GEn phi_R_grid N a0 V
             t_mag f1 gi v1 Hgi H1).
  rewrite (setBC_value _ _ G_largeR arctan2 i grid size_in GEn phi_R_grid N a0 V
             t_mag f2 gi v2 Hgi H2).
  rewrite (setBC_value _ _ G_largeR arctan2 i grid size_in GEn phi_R_grid N a0 V
             t_mag f3 gi _ Hgi H3).
  eexists. eexists. split; [reflexivity |]. split; [reflexivity |]. f_equal.
  generalize (Nat.min size_in (length grid)) as k.
  generalize (skipn size_in grid) as l. intros l k.
  unfold zeros3. induction k as [| k IH]; cbn [repeat app combine map].
  - induction l as [| a l IHl]; cbn [map combine]; [reflexivity |].
    rewrite <- IHl. f_equal. unfold far_field_row. cbn [fst snd].
    rewrite mat3_dot_linear.
    destruct (mat3_dot _ v1) as [[? ?] ?], (mat3_dot _ v2) as [[? ?] ?].
    cbn. apply vec3_eq; ring.
  - rewrite <- IH. f_equal. cbn. apply vec3_eq; ring.
Qed.

End FarFieldFurther.

Lemma setBC_shape_witness :
  setBC unit unit ex_G_largeR ex_arctan2 0 ex_grid_atoms 2 3 tt tt 256 1 1 1
    [(1, 0, 0)] = Ok (zeros3 3) /\
  length (zeros3 3) = 3%nat /\
  nth_error (zeros3 3) 2 = Some zero3.
Proof.
  assert (H : setBC unit unit ex_G_largeR ex_arctan2 0 ex_grid_atoms 2 3 tt tt
                256 1 1 1 [(1, 0, 0)] = Ok (zeros3 3)) by reflexivity.
  split; [exact H |].
  destruct (setBC_shape unit unit ex_G_largeR ex_arctan2 0%nat ex_grid_atoms
              2%nat 3%nat tt tt 256%nat 1 1 1 [(1, 0, 0)] _ H) as [Hl Hz].
  split; [exact Hl |]. apply Hz; cbn; lia.
Defined.

Lemma setBC_no_far_field_witness :
  ((length ex_grid_atoms <= 2)%nat \/ (2 <= 2)%nat) /\
  setBC unit unit ex_G_largeR ex_arctan2 7 ex_grid_atoms 2 2 tt tt 256 1 1 1 []
  = Ok (zeros3 2).
Proof.
  assert (H : (length ex_grid_atoms <= 2)%nat \/ (2 <= 2)%nat) by (right; lia).
  split; [exact H |].
  exact (setBC_no_far_field unit unit ex_G_largeR ex_arctan2 7%nat ex_grid_atoms
           2%nat 2%nat tt tt 256%nat 1 1 1 [] H).
Defined.

Lemma setBC_index_error_witness :
  (1 < length ex_grid_atoms)%nat /\ (1 < 2)%nat /\
  ((length ex_grid_atoms <= 5)%nat \/ (length [(1, 0, 0)] <= 5)%nat) /\
  setBC unit unit ex_G_largeR ex_arctan2 5 ex_grid_atoms 1 2 tt tt 256 1 1 1
    [(1, 0, 0)] = Raise (IndexError "index out of range").
Proof.
  assert (H1 : (1 < length ex_grid_atoms)%nat) by (cbn; lia).
  assert (H2 : (1 < 2)%nat) by lia.
  assert (H3 : (length ex_grid_atoms <= 5)%nat \/ (length [(1, 0, 0)] <= 5)%nat)
    by (left; cbn; lia).
  split; [exact H1 |]. split; [exact H2 |]. split; [exact H3 |].
  exact (setBC_index_error unit unit ex_G_largeR ex_arctan2 5%nat ex_grid_atoms
           1%nat 2%nat tt tt 256%nat 1 1 1 [(1, 0, 0)] H1 H2 H3).
Defined.

Lemma setBC_in_plane_witness :
  Forall2 (fun a b : atom => m a = m b /\ n a = n b) ex_grid_atoms
    [Atom 0 1 0 0 3 0; Atom 1 4 1 0 7 0] /\
  nth_error [(1, 0, 0); (5, 5, 5)] 0 = nth_error [(1, 0, 0)] 0 /\
  setBC unit unit ex_G_largeR ex_arctan2 0 ex_grid_atoms 1 2 tt tt 256 1 1 1
    [(1, 0, 0); (5, 5, 5)]
  = setBC unit unit ex_G_largeR ex_arctan2 0 [Atom 0 1 0 0 3 0; Atom 1 4 1 0 7 0]
      1 2 tt tt 256 1 1 1 [(1, 0, 0)].
Proof.
  assert (H1 : Forall2 (fun a b : atom => m a = m b /\ n a = n b) ex_grid_atoms
                 [Atom 0 1 0 0 3 0; Atom 1 4 1 0 7 0]).
  { unfold ex_grid_atoms. repeat constructor. }
  assert (H2 : nth_error [(1, 0, 0); (5, 5, 5)] 0 = nth_error [(1, 0, 0)] 0)
    by reflexivity.
  split; [exact H1 |]. split; [exact H2 |].
  exact (setBC_in_plane unit unit ex_G_largeR ex_arctan2 0%nat _ _ 1%nat 2%nat
           tt tt 256%nat 1 1 1 _ _ H1 H2).
Defined.

Lemma setBC_linear_witness :
  nth_error ex_grid_atoms 0 = Some (Atom 0 1 0 0 0 0) /\
  nth_error [(1, 0, 0)] 0 = Some (1, 0, 0) /\
  nth_error [(0, 1, 0)] 0 = Some (0, 1, 0) /\
  nth_error [vadd (vscale 2 (1, 0, 0)) (0, 1, 0)] 0
  = Some (vadd (vscale 2 (1, 0, 0)) (0, 1, 0)) /\
  exists u1 u2,
    setBC unit unit ex_G_largeR ex_arctan2 0 ex_grid_atoms 1
      (length ex_grid_atoms) tt tt 256 1 1 1 [(1, 0, 0)] = Ok u1 /\
    setBC unit unit ex_G_largeR ex_arctan2 0 ex_grid_atoms 1
      (length ex_grid_atoms) tt tt 256 1 1 1 [(0, 1, 0)] = Ok u2 /\
    setBC unit unit ex_G_largeR ex_arctan2 0 ex_grid_atoms 1
      (length ex_grid_atoms) tt tt 256 1 1 1
      [vadd (vscale 2 (1, 0, 0)) (0, 1, 0)]
    = Ok (map (fun p : vec3 * vec3 => vadd (vscale 2 (fst p)) (snd p))
              (combine u1 u2)).
Proof.
  assert (H0 : nth_error ex_grid_atoms 0 = Some (Atom 0 1 0 0 0 0)) by reflexivity.
  assert (H1 : nth_error [(1, 0, 0)] 0 = Some (1, 0, 0)) by reflexivity.
  assert (H2 : nth_error [(0, 1, 0)] 0 = Some (0, 1, 0)) by reflexivity.
  assert (H3 : nth_error [vadd (vscale 2 (1, 0, 0)) (0, 1, 0)] 0
               = Some (vadd (vscale 2 (1, 0, 0)) (0, 1, 0))) by reflexivity.
  split; [exact H0 |]. split; [exact H1 |]. split; [exact H2 |].
  split; [exact H3 |].
  exact (setBC_linear unit unit ex_G_largeR ex_arctan2 0%nat ex_grid_atoms 1%nat
           tt tt 256%nat 1 1 1 _ _ _ _ _ _ 2 H0 H1 H2 H3).
Defined.

(** ** The range of a run, its index errors and its output file *)

Lemma atom_range_default (arg_jmin arg_jmax : Z) (size_1 size_12 : nat) :
  (arg_jmin < 0)%Z -> (arg_jmax < 0)%Z ->
  atom_range (resolve_jmin arg_jmin size_1) (resolve_jmax arg_jmax size_12)
  = seq size_1 (size_12 - size_1) /\
  Z.to_nat (resolve_jmin arg_jmin size_1) = size_1.
Proof.
  intros H1 H2. unfold atom_range, resolve_jmin, resolve_jmax.
  apply Z.ltb_lt in H1, H2. rewrite H1, H2.
  split; [f_equal |]; lia.
Qed.

Section AssemblyFurther.

Variables GEn_t phi_R_grid_t : Type.
Variable G_largeR :
  GEn_t -> phi_R_grid_t -> R -> R -> nat -> R -> R -> R -> mat3.
Variable arctan2 : R -> R -> R.
Variable cg : matrix -> list R -> R -> list R * Z.
Variable grid : list atom.
Variables size_1 size_12 size_123 size_in : nat.
Variable D : matrix.
Variable GEn : GEn_t.
Variable phi_R_grid : phi_R_grid_t.
Variables a0 V t_mag : R.

Abbreviation zforce :=
  (corrected_force GEn_t phi_R_grid_t G_largeR arctan2 grid size_in D GEn
     phi_R_grid a0 V t_mag).
Abbreviation zstep :=
  (atom_step GEn_t phi_R_grid_t G_largeR arctan2 cg grid size_123 size_in D
     GEn phi_R_grid a0 V t_mag).
Abbreviation zasm :=
  (assemble GEn_t phi_R_grid_t G_largeR arctan2 cg grid size_123 size_in D
     GEn phi_R_grid a0 V t_mag).
Abbreviation zmain :=
  (assembly_main GEn_t phi_R_grid_t G_largeR arctan2 cg grid size_1 size_12
     size_123 size_in D GEn phi_R_grid a0 V t_mag).
Abbreviation zcols :=
  (columns_range GEn_t phi_R_grid_t G_largeR arctan2 cg grid size_123 size_in D
     GEn phi_R_grid a0 V t_mag).

(** An atom index outside the "in" region cannot carry the unit force: the
    column, and with it a run that starts at such an atom, ends in an index
    error. *)
Theorem assemble_index_error LGF_jmin LGF_jmax j d file0 :
  ((size_in <= j)%nat ->
   corrected_force GEn_t phi_R_grid_t G_largeR arctan2 grid size_in D GEn
     phi_R_grid a0 V t_mag j d = Raise (IndexError "index out of bounds")) /\
  ((size_in <= LGF_jmin)%nat -> (LGF_jmin <= LGF_jmax)%nat ->
   assemble GEn_t phi_R_grid_t G_largeR arctan2 cg grid size_123 size_in D
     GEn phi_R_grid a0 V t_mag LGF_jmin LGF_jmax file0 = Raise (IndexError "index out of bounds")).
Proof.
  assert (Hcol : forall j' d', (size_in <= j')%nat ->
            zforce j' d' = Raise (IndexError "index out of bounds")).
  { intros j' d' Hj. unfold corrected_force, unit_force, set_item, zeros.
    rewrite repeat_length.
    replace (j' * 3 + d' <? 3 * size_in)%nat with false
      by (symmetry; apply Nat.ltb_ge; lia).
    reflexivity. }
  split; [apply Hcol |].
  intros Hin Hle. unfold assemble, assemble_from.
  replace (LGF_jmax + 1 - LGF_jmin)%nat with (S (LGF_jmax - LGF_jmin)) by lia.
  cbn [seq foldM]. unfold atom_step at 1. cbn [seq foldM].
  unfold column_step at 1. rewrite (Hcol LGF_jmin 0%nat Hin). reflexivity.
Qed.

Hypothesis cg_length : forall A b tol, length (fst (cg A b tol)) = length b.

Lemma columns_range_ok a len :
  (a + len <= size_in)%nat -> (size_in <= length grid)%nat ->
  nrows D = (3 * size_in)%nat -> ncols D = (3 * length grid)%nat ->
  exists cols, zcols a len = Ok cols.
Proof.
  intros Ha Hin Hr Hc. unfold columns_range. apply mapM_all_ok.
  intros [j d] Hjd. apply in_dof_pairs in Hjd. cbn [fst snd].
  pose proof (corrected_force_ok GEn_t phi_R_grid_t G_largeR arctan2 grid size_in
                D GEn phi_R_grid a0 V t_mag j d Hin Hr Hc ltac:(lia) ltac:(lia))
    as Hok.
  unfold lgf_column. destruct (zforce j d); [reflexivity | discriminate].
Qed.

(** Without [-LGF_jmin] and [-LGF_jmax] the run covers exactly the atoms of
    region 2, and on well-shaped inputs it ends with the matrix of shape
    [(3*size_123, 3*size_2)] that the relaxation script asks for: three
    columns per atom of region 2, each of length [3*size_123]. *)
Theorem assembly_default_run arg_jmin arg_jmax file0 :
  (arg_jmin < 0)%Z -> (arg_jmax < 0)%Z ->
  (size_1 <= size_12)%nat -> (size_12 <= size_in)%nat ->
  (size_123 <= size_in)%nat -> (size_in <= length grid)%nat ->
  nrows D = (3 * size_in)%nat -> ncols D = (3 * length grid)%nat ->
  atom_range (resolve_jmin arg_jmin size_1) (resolve_jmax arg_jmax size_12)
  = seq size_1 (size_12 - size_1) /\
  exists st,
    assembly_main GEn_t phi_R_grid_t G_largeR arctan2 cg grid size_1 size_12
      size_123 size_in D GEn phi_R_grid a0 V t_mag arg_jmin arg_jmax file0 = Ok st /\
    length (G st) = (3 * (size_12 - size_1))%nat /\
    (forall c, In c (G st) -> length c = (3 * size_123)%nat).
Proof.
  intros H1 H2 Hs1 Hs2 Hs3 Hin Hr Hc.
  destruct (atom_range_default arg_jmin arg_jmax size_1 size_12 H1 H2) as [Hrange Hj].
  split; [exact Hrange |].
  unfold assembly_main. rewrite Hrange, Hj.
  pose proof (assemble_sim GEn_t phi_R_grid_t G_largeR arctan2 cg grid size_123
                size_in D GEn phi_R_grid a0 V t_mag cg_length size_1
                (size_12 - size_1) size_1 (AsmState [] [] file0)) as H.
  cbn [G log] in H. specialize (H (Forall_nil _) (fun _ => eq_refl) (le_n _)).
  destruct (foldM _ _ _) as [st | e].
  - destruct H as (cols & recs & _ & _ & HG & _ & Hn & Hall & _).
    exists st. split; [reflexivity |]. cbn [app] in HG. rewrite HG.
    split; [exact Hn |]. intros c Hc'. rewrite HG in Hall.
    rewrite Forall_forall in Hall. rewrite (Hall c Hc'). lia.
  - exfalso.
    destruct (columns_range_ok size_1 (size_12 - size_1) ltac:(lia) Hin Hr Hc)
      as [cols Hcols].
    congruence.
Qed.

Lemma assemble_ok LGF_jmin LGF_jmax file0 :
  (LGF_jmin <= LGF_jmax)%nat ->
  (LGF_jmax < size_in)%nat -> (size_in <= length grid)%nat ->
  nrows D = (3 * size_in)%nat -> ncols D = (3 * length grid)%nat ->
  exists st, zasm LGF_jmin LGF_jmax file0 = Ok st.
Proof.
  intros Hle Hj Hin Hr Hc. unfold assemble, assemble_from.
  pose proof (assemble_sim GEn_t phi_R_grid_t G_largeR arctan2 cg grid size_123
                size_in D GEn phi_R_grid a0 V t_mag cg_length LGF_jmin
                (LGF_jmax + 1 - LGF_jmin) LGF_jmin (AsmState [] [] file0)) as H.
  cbn [G log] in H. specialize (H (Forall_nil _) (fun _ => eq_refl) (le_n _)).
  destruct (foldM _ _ _) as [st | e]; [eauto |]. exfalso.
  destruct (columns_range_ok LGF_jmin (LGF_jmax + 1 - LGF_jmin) ltac:(lia)
              Hin Hr Hc) as [cols Hcols].
  congruence.
Qed.

(** A run over an empty range does nothing, and leaves the output file as
    it was; a run over a non-empty range leaves its own matrix in the file
    and nothing of what the file held before. *)
Theorem assemble_output_file LGF_jmin LGF_jmax file0 :
  ((LGF_jmax < LGF_jmin)%nat ->
   assemble GEn_t phi_R_grid_t G_largeR arctan2 cg grid size_123 size_in D
     GEn phi_R_grid a0 V t_mag LGF_jmin LGF_jmax file0
   = Ok (AsmState [] [] file0)) /\
  ((LGF_jmin <= LGF_jmax)%nat ->
   forall st,
     assemble GEn_t phi_R_grid_t G_largeR arctan2 cg grid size_123 size_in D
     GEn phi_R_grid a0 V t_mag LGF_jmin LGF_jmax file0 = Ok st ->
     Gfile st = Some (G st) /\
     forall file1,
       assemble GEn_t phi_R_grid_t G_largeR arctan2 cg grid size_123 size_in D
     GEn phi_R_grid a0 V t_mag LGF_jmin LGF_jmax file1 = Ok st).
Proof.
  split.
  - intros H. unfold assemble, assemble_from.
    replace (LGF_jmax + 1 - LGF_jmin)%nat with 0%nat by lia. reflexivity.
  - intros Hle st Hst.
    assert (Hsim : forall file,
               match zasm LGF_jmin LGF_jmax file with
               | Ok st' =>
                   exists cols recs,
                     zcols LGF_jmin (LGF_jmax + 1 - LGF_jmin) = Ok cols /\
                     log_range GEn_t phi_R_grid_t G_largeR arctan2 cg grid
                       size_in D GEn phi_R_grid a0 V t_mag LGF_jmin
                       (LGF_jmax + 1 - LGF_jmin) = Ok recs /\
                     st' = AsmState cols recs (Some cols)
               | Raise e => zcols LGF_jmin (LGF_jmax + 1 - LGF_jmin) = Raise e
               end).
    { intros file. unfold assemble, assemble_from.
      pose proof (assemble_sim GEn_t phi_R_grid_t G_largeR arctan2 cg grid
                    size_123 size_in D GEn phi_R_grid a0 V t_mag cg_length
                    LGF_jmin (LGF_jmax + 1 - LGF_jmin) LGF_jmin
                    (AsmState [] [] file)) as H.
      cbn [G log Gfile] in H.
      specialize (H (Forall_nil _) (fun _ => eq_refl) (le_n _)).
      destruct (foldM _ _ _) as [st' | e]; [| exact H].
      destruct H as (cols & recs & Hc & Hr & HG & Hl & _ & _ & Hf).
      exists cols, recs. split; [exact Hc |]. split; [exact Hr |].
      replace (LGF_jmax + 1 - LGF_jmin =? 0)%nat with false in Hf
        by (symmetry; apply Nat.eqb_neq; lia).
      destruct st' as [G' log' file']. cbn in *. subst. reflexivity. }
    pose proof (Hsim file0) as H0. rewrite Hst in H0.
    destruct H0 as (cols & recs & Hc & Hr & ->).
    split; [reflexivity |]. intros file1.
    pose proof (Hsim file1) as H1.
    destruct (zasm LGF_jmin LGF_jmax file1) as [st1 | e]; [| congruence].
    destruct H1 as (cols1 & recs1 & Hc1 & Hr1 & ->). congruence.
Qed.

End AssemblyFurther.

Lemma assemble_index_error_witness :
  (1 <= 1)%nat /\ (1 <= 3)%nat /\
  assemble unit unit ex_G_largeR ex_arctan2 ex_cg ex_grid_atoms 1 1 ex_D36
    tt tt 1 1 1 1 3 None = Raise (IndexError "index out of bounds").
Proof.
  assert (H1 : (1 <= 1)%nat) by lia.
  assert (H2 : (1 <= 3)%nat) by lia.
  split; [exact H1 |]. split; [exact H2 |].
  exact (proj2 (assemble_index_error unit unit ex_G_largeR ex_arctan2 ex_cg
                  ex_grid_atoms 1%nat 1%nat ex_D36 tt tt 1 1 1 1%nat 3%nat
                  0%nat 0%nat None) H1 H2).
Defined.

Lemma assembly_default_run_witness :
  (forall A b tol, length (fst (ex_cg A b tol)) = length b) /\
  (-1 < 0)%Z /\ (2 <= 4)%nat /\ (4 <= 5)%nat /\ (5 <= 5)%nat /\
  (5 <= length ex_grid6)%nat /\
  nrows ex_D15_18 = (3 * 5)%nat /\ ncols ex_D15_18 = (3 * length ex_grid6)%nat /\
  exists st,
    assembly_main unit unit ex_G_largeR ex_arctan2 ex_cg ex_grid6 2 4 5 5
      ex_D15_18 tt tt 1 1 1 (-1) (-1) None = Ok st /\
    length (G st) = (3 * (4 - 2))%nat /\
    (forall c, In c (G st) -> length c = (3 * 5)%nat).
Proof.
  assert (H1 : (-1 < 0)%Z) by lia.
  assert (H2 : (2 <= 4)%nat) by lia.
  assert (H3 : (4 <= 5)%nat) by lia.
  assert (H4 : (5 <= 5)%nat) by lia.
  assert (H5 : (5 <= length ex_grid6)%nat) by (cbn; lia).
  assert (H6 : nrows ex_D15_18 = (3 * 5)%nat) by reflexivity.
  assert (H7 : ncols ex_D15_18 = (3 * length ex_grid6)%nat) by reflexivity.
  split; [exact ex_cg_length |].
  repeat (split; [assumption |]).
  exact (proj2 (assembly_default_run unit unit ex_G_largeR ex_arctan2 ex_cg
                  ex_grid6 2%nat 4%nat 5%nat 5%nat ex_D15_18 tt tt 1 1 1
                  ex_cg_length (-1)%Z (-1)%Z None H1 H1 H2 H3 H4 H5 H6 H7)).
Defined.

Lemma assemble_output_file_witness :
  (forall A b tol, length (fst (ex_cg A b tol)) = length b) /\
  (2 <= 4)%nat /\
  exists st,
    assemble unit unit ex_G_largeR ex_arctan2 ex_cg ex_grid6 5 5 ex_D15_18
      tt tt 1 1 1 2 4 (Some [[1]]) = Ok st /\
    Gfile st = Some (G st) /\
    assemble unit unit ex_G_largeR ex_arctan2 ex_cg ex_grid6 5 5 ex_D15_18
      tt tt 1 1 1 2 4 None = Ok st.
Proof.
  assert (H : (2 <= 4)%nat) by lia.
  split; [exact ex_cg_length |]. split; [exact H |].
  destruct (assemble_ok unit unit ex_G_largeR ex_arctan2 ex_cg ex_grid6 5%nat
              5%nat ex_D15_18 tt tt 1 1 1 ex_cg_length 2%nat 4%nat (Some [[1]]))
    as [st Hst]; [lia | lia | cbn; lia | reflexivity | reflexivity |].
  exists st. split; [exact Hst |].
  destruct (proj2 (assemble_output_file unit unit ex_G_largeR ex_arctan2 ex_cg
                     ex_grid6 5%nat 5%nat ex_D15_18 tt tt 1 1 1 ex_cg_length
                     2%nat 4%nat (Some [[1]])) H st Hst) as [Hf Hany].
  split; [exact Hf | exact (Hany None)].
Defined.

(** * The LAMMPS settings *)

Lemma readlines_line (a s : string) :
  contains_nl a = false ->
  readlines (a ++ String nl s)%string = (a ++ String nl EmptyString)%string :: readlines s.
Proof.
  induction a as [| c a IH]; intros H; cbn [String.append readlines].
  - now rewrite Ascii.eqb_refl.
  - cbn [contains_nl] in H. apply orb_false_iff in H. destruct H as [Hc Ha].
    rewrite Hc, (IH Ha). reflexivity.
Qed.

Lemma readlines_last (b : string) :
  contains_nl b = false -> b <> EmptyString -> readlines b = [b].
Proof.
  induction b as [| c b IH]; intros H Hne; [congruence |].
  cbn [contains_nl] in H. apply orb_false_iff in H. destruct H as [Hc Hb].
  cbn [readlines]. rewrite Hc. destruct b as [| c' b']; [reflexivity |].
  rewrite (IH Hb) by discriminate. reflexivity.
Qed.

Lemma readlines_no_nl (s : string) :
  contains_nl s = false -> (length (readlines s) <= 1)%nat.
Proof.
  destruct s as [| c s]; intros H; [cbn; lia |].
  rewrite readlines_last by (auto; discriminate). cbn. lia.
Qed.

Lemma rstrip_nl_line (a : string) :
  contains_nl a = false ->
  rstrip_nl (a ++ String nl EmptyString)%string = a /\ rstrip_nl a = a.
Proof.
  induction a as [| c a IH]; intros H; cbn [String.append rstrip_nl].
  - rewrite Ascii.eqb_refl. cbn. auto.
  - cbn [contains_nl] in H. apply orb_false_iff in H. destruct H as [Hc Ha].
    destruct (IH Ha) as [-> ->]. rewrite Hc. cbn [andb]. auto.
Qed.

(** A pair file whose first two lines are [a] and [b] gives the settings
    [pair_style = a] and [pair_coeff = b], without the line ends; further
    lines are ignored, and the second line need not end in a newline. *)
Theorem lammps_settings_init_parses datafilename a b rest maxcgiter ftol :
  contains_nl a = false -> contains_nl b = false ->
  lammps_settings_init datafilename
    (a ++ String nl (b ++ String nl rest))%string maxcgiter ftol
  = Ok (LammpsSettings datafilename a b maxcgiter ftol) /\
  (b <> EmptyString ->
   lammps_settings_init datafilename (a ++ String nl b)%string maxcgiter ftol
   = Ok (LammpsSettings datafilename a b maxcgiter ftol)).
Proof.
  intros Ha Hb. unfold lammps_settings_init.
  destruct (rstrip_nl_line a Ha) as [Ha1 _].
  destruct (rstrip_nl_line b Hb) as [Hb1 Hb2].
  split.
  - rewrite (readlines_line a _ Ha), (readlines_line b _ Hb).
    cbn [get_item nth_error bind]. now rewrite Ha1, Hb1.
  - intros Hne. rewrite (readlines_line a _ Ha), (readlines_last b Hb Hne).
    cbn [get_item nth_error bind]. now rewrite Ha1, Hb2.
Qed.

Lemma lammps_settings_init_parses_witness :
  contains_nl "pair_style eam/fs" = false /\
  contains_nl "pair_coeff * * w.fs W" = false /\
  lammps_settings_init "dislgeom.data"
    ("pair_style eam/fs" ++ String nl ("pair_coeff * * w.fs W" ++ String nl ""))%string
    5 (1 / 10 ^ 6)
  = Ok (LammpsSettings "dislgeom.data" "pair_style eam/fs"
          "pair_coeff * * w.fs W" 5 (1 / 10 ^ 6)).
Proof.
  assert (H1 : contains_nl "pair_style eam/fs" = false) by reflexivity.
  assert (H2 : contains_nl "pair_coeff * * w.fs W" = false) by reflexivity.
  split; [exact H1 |]. split; [exact H2 |].
  exact (proj1 (lammps_settings_init_parses "dislgeom.data"%string
                  "pair_style eam/fs"%string "pair_coeff * * w.fs W"%string
                  ""%string 5%Z (1 / 10 ^ 6) H1 H2)).
Defined.

(** A pair file of a single line, with or without its newline, or an empty
    one, has no second line: the constructor ends in an index error. *)
Theorem lammps_settings_init_short datafilename a maxcgiter ftol :
  contains_nl a = false ->
  lammps_settings_init datafilename a maxcgiter ftol
  = Raise (IndexError "index out of range") /\
  lammps_settings_init datafilename (a ++ String nl EmptyString)%string
    maxcgiter ftol
  = Raise (IndexError "index out of range").
Proof.
  intros Ha. unfold lammps_settings_init. split.
  - pose proof (readlines_no_nl a Ha) as H.
    destruct (readlines a) as [| l0 [| l1 ls]]; cbn in H; try lia; reflexivity.
  - rewrite (readlines_line a _ Ha). reflexivity.
Qed.

Lemma lammps_settings_init_short_witness :
  contains_nl "pair_style eam/fs" = false /\
  lammps_settings_init "dislgeom.data"
    ("pair_style eam/fs" ++ String nl EmptyString)%string 5 (1 / 10 ^ 6)
  = Raise (IndexError "index out of range").
Proof.
  assert (H1 : contains_nl "pair_style eam/fs" = false) by reflexivity.
  split; [exact H1 |].
  exact (proj2 (lammps_settings_init_short "dislgeom.data"%string
                  "pair_style eam/fs"%string 5%Z (1 / 10 ^ 6) H1)).
Defined.


(** ** A resumed run against the uninterrupted one *)


